(** * RepoSage repository-operation layer: a shallow embedding

    The orchestration functions of the agent's tools (coordinate
    resolution, branch fallback for file reads, ephemeral clones, local
    tool runs, LLM-backed pull-request helpers and their publication
    step) are embedded as Rocq functions.

    - JavaScript strings are sequences of UTF-16 code units: [list N].
    - Regular expressions are a small syntax tree run by a backtracking
      matcher (greedy quantifiers, leftmost match), as [String.prototype.match]
      does for a non-global pattern.
    - [async] functions with side effects are computations in a state
      and exception monad over an explicit world (the temporary
      directories that exist, the trace of external calls) and an
      environment that fixes what every external call answers. *)

From Stdlib Require Import NArith ZArith String Ascii List Bool Lia.
From stdpp Require Import base list gmap sets.

Set Default Proof Using "Type".
Set Warnings "-register-all".
Open Scope N_scope.

(** ** JavaScript strings *)

Module JsString.

Definition jstring : Type := list N.

(** An ASCII literal of the source, as code units. *)
Definition js (s : string) : jstring :=
  map N_of_ascii (list_ascii_of_string s).

Definition streq (a b : jstring) : bool := bool_decide (a = b).

(** [s.startsWith(p)] *)
Fixpoint startsWith (p s : jstring) : bool :=
  match p, s with
  | [], _ => true
  | _ :: _, [] => false
  | a :: p', b :: s' => (a =? b) && startsWith p' s'
  end.

(** [s.endsWith(p)] *)
Definition endsWith (p s : jstring) : bool :=
  startsWith (rev p) (rev s).

(** [s.includes(p)] *)
Fixpoint includes (p s : jstring) : bool :=
  startsWith p s ||
  match s with
  | [] => false
  | _ :: s' => includes p s'
  end.

(** [s.replace(pat, rep)] for a string pattern: only the first
    occurrence is replaced.  The replacement strings of the source
    contain no [$] pattern. *)
Fixpoint replace (pat rep s : jstring) : jstring :=
  if startsWith pat s then rep ++ drop (length pat) s
  else match s with
       | [] => []
       | c :: s' => c :: replace pat rep s'
       end.

(** [s.slice(0, n)] and [s.substring(0, n)] for a literal [n >= 0]. *)
Definition slice0 (n : N) (s : jstring) : jstring := take (N.to_nat n) s.

(** White space and line terminators of ECMAScript: what [\s] matches
    and what [trim] removes. *)
Definition is_space (c : N) : bool :=
  ((9 <=? c) && (c <=? 13)) || (c =? 32) || (c =? 160) || (c =? 5760)
  || ((8192 <=? c) && (c <=? 8202)) || (c =? 8232) || (c =? 8233)
  || (c =? 8239) || (c =? 8287) || (c =? 12288) || (c =? 65279).

Fixpoint trimStart (s : jstring) : jstring :=
  match s with
  | c :: s' => if is_space c then trimStart s' else s
  | [] => []
  end.

Definition trimEnd (s : jstring) : jstring := rev (trimStart (rev s)).

(** [s.trim()] *)
Definition trim (s : jstring) : jstring := trimEnd (trimStart s).

Definition is_digit (c : N) : bool := (48 <=? c) && (c <=? 57).

(** ASCII case mapping; [toLowerCase] on the strings of this program
    is only compared against ASCII words. *)
Definition lower (c : N) : N :=
  if (65 <=? c) && (c <=? 90) then c + 32 else c.

Definition upper (c : N) : N :=
  if (97 <=? c) && (c <=? 122) then c - 32 else c.

(** [s.toLowerCase()], exact on ASCII.  The source only searches the
    result for the ASCII words [fail] and [pass] and compares it with
    ASCII severity names; no letter outside ASCII lower-cases to a
    letter of those words. *)
Definition toLowerCase (s : jstring) : jstring := map lower s.

(** [Number(d)] for a string of decimal digits, as an exact natural
    number. *)
Definition digits_value (d : jstring) : N :=
  fold_left (fun acc c => 10 * acc + (c - 48)) d 0.

(** [String(n)] for a non-negative integer. *)
Fixpoint digits_of_fuel (fuel : nat) (n : N) (acc : jstring) : jstring :=
  match fuel with
  | O => acc
  | S f =>
      let acc' := (48 + n mod 10) :: acc in
      if n / 10 =? 0 then acc' else digits_of_fuel f (n / 10) acc'
  end.

Definition of_N (n : N) : jstring :=
  digits_of_fuel (S (N.to_nat (N.log2 n))) n [].

(** [parts.join(sep)] *)
Fixpoint join (sep : jstring) (parts : list jstring) : jstring :=
  match parts with
  | [] => []
  | [p] => p
  | p :: rest => p ++ sep ++ join sep rest
  end.

(** [s.split('\n')] and the like, for a one-unit separator. *)
Fixpoint split_on (sep : N) (s : jstring) : list jstring :=
  match s with
  | [] => [[]]
  | c :: s' =>
      if c =? sep then [] :: split_on sep s'
      else match split_on sep s' with
           | [] => [[c]]
           | p :: ps => (c :: p) :: ps
           end
  end.

End JsString.
Import JsString.
Arguments js : simpl never.

(** ** Regular expressions *)

Module Regex.

Inductive regex : Type :=
| REps
| RSet (p : N -> bool)
| RSeq (r1 r2 : regex)
| RAlt (r1 r2 : regex)
| RStar (r : regex)
| RGroup (i : nat) (r : regex).

Definition captures : Type := list (option jstring).
Definition cont : Type := jstring -> captures -> option (jstring * captures).

(** The matcher proper, in continuation-passing style: [k] receives
    the rest of the input and the captures so far, and a [None] from
    it makes the matcher backtrack.  An iteration of [RStar] that
    consumes nothing is refused, as ECMAScript does. *)
Fixpoint rmatch (r : regex) (s : jstring) (caps : captures) (k : cont)
  : option (jstring * captures) :=
  match r with
  | REps => k s caps
  | RSet p =>
      match s with
      | c :: s' => if p c then k s' caps else None
      | [] => None
      end
  | RSeq r1 r2 => rmatch r1 s caps (fun s1 c1 => rmatch r2 s1 c1 k)
  | RAlt r1 r2 =>
      match rmatch r1 s caps k with
      | Some x => Some x
      | None => rmatch r2 s caps k
      end
  | RStar r1 =>
      (fix star (fuel : nat) (s : jstring) (caps : captures) :=
         match fuel with
         | O => k s caps
         | S fuel' =>
             match rmatch r1 s caps
                     (fun s1 c1 =>
                        if (length s1 <? length s)%nat
                        then star fuel' s1 c1 else None) with
             | Some x => Some x
             | None => k s caps
             end
         end) (length s) s caps
  | RGroup i r1 =>
      rmatch r1 s caps
        (fun s1 c1 =>
           k s1 (<[i := Some (take (length s - length s1)%nat s)]> c1))
  end.

Definition rplus (r : regex) : regex := RSeq r (RStar r).
Definition ropt (r : regex) : regex := RAlt r REps.
Definition rchr (c : N) : regex := RSet (N.eqb c).
Definition rnot (c : N) : regex := RSet (fun x => negb (x =? c)).
(** A letter under the [i] flag (no [u] flag): both ASCII cases. *)
Definition rchr_i (c : N) : regex :=
  RSet (fun x => (x =? lower c) || (x =? upper c)).

Fixpoint rlit (s : jstring) : regex :=
  match s with
  | [] => REps
  | c :: s' => RSeq (rchr c) (rlit s')
  end.

Fixpoint rlit_i (s : jstring) : regex :=
  match s with
  | [] => REps
  | c :: s' => RSeq (rchr_i c) (rlit_i s')
  end.

Definition rdigits : regex := rplus (RSet is_digit).
Definition rspaces : regex := RStar (RSet is_space).

(** [s.match(r)] for a pattern without the [g] flag: the leftmost match,
    as the array [whole; group 1; ...; group n], or [None] for [null]. *)
Fixpoint search (r : regex) (ngroups : nat) (s : jstring) : option captures :=
  match rmatch (RGroup 0 r) s (replicate (S ngroups) None)
          (fun s' c => Some (s', c)) with
  | Some (_, c) => Some c
  | None =>
      match s with
      | [] => None
      | _ :: s' => search r ngroups s'
      end
  end.

(** [m[i]] of a match array, with [undefined] read as the empty string
    (every group read by the source takes part in every match). *)
Definition group (i : nat) (m : captures) : jstring :=
  default [] (mjoin (m !! i)).

End Regex.
Import Regex.

(** ** Errors and results of computations *)

Record js_error : Type := mkError {
  message : jstring;
  err_stdout : option jstring;
  err_stderr : option jstring
}.

(** [new Error(msg)] *)
Definition Error (msg : jstring) : js_error := mkError msg None None.

Inductive outcome (A : Type) : Type :=
| Ret (a : A)
| Throw (e : js_error).
Arguments Ret {A} a.
Arguments Throw {A} e.

(** ** Coordinate resolution *)

Record GitHubRepoIdentifiers : Type := {
  owner : jstring;
  repo : jstring
}.

(** [/github\.com\/([^\/]+)\/([^\/]+)/] *)
Definition repo_url_regex : regex :=
  RSeq (rlit (js "github.com/"))
    (RSeq (RGroup 1 (rplus (rnot 47)))
       (RSeq (rchr 47) (RGroup 2 (rplus (rnot 47))))).

Definition extractRepoIdentifiers (repoUrl : jstring)
  : outcome GitHubRepoIdentifiers :=
  match search repo_url_regex 2 repoUrl with
  | None => Throw (Error (js "Invalid GitHub URL"))
  | Some repoMatch =>
      Ret {| owner := group 1 repoMatch;
             repo := replace (js ".git") [] (group 2 repoMatch) |}
  end.

(** ** JSON values and the JavaScript operators applied to them *)

Module Json.

(** A JavaScript value as [JSON.parse] builds it, plus [undefined].  A
    number keeps the lexeme it was written with. *)
Inductive json : Type :=
| JUndefined
| JNull
| JBool (b : bool)
| JNum (lexeme : jstring)
| JStr (s : jstring)
| JArr (items : list json)
| JObj (members : list (jstring * json)).

(** ToBoolean.  A number is falsy when its mantissa has no non-zero
    digit. *)
Fixpoint mantissa_nonzero (lex : jstring) : bool :=
  match lex with
  | [] => false
  | c :: r =>
      if (c =? 101) || (c =? 69) then false
      else ((49 <=? c) && (c <=? 57)) || mantissa_nonzero r
  end.

Definition truthy (v : json) : bool :=
  match v with
  | JUndefined | JNull => false
  | JBool b => b
  | JNum lex => mantissa_nonzero lex
  | JStr s => negb (streq s [])
  | JArr _ | JObj _ => true
  end.

Definition nullish (v : json) : bool :=
  match v with
  | JUndefined | JNull => true
  | _ => false
  end.

(** [a || b] and [a ?? b] *)
Definition or_else (a b : json) : json := if truthy a then a else b.
Definition coalesce (a b : json) : json := if nullish a then b else a.

(** The last member with key [k] wins, as in [JSON.parse]. *)
Fixpoint lookup_member (k : jstring) (ms : list (jstring * json)) : json :=
  match ms with
  | [] => JUndefined
  | (k', v) :: rest =>
      match lookup_member k rest with
      | JUndefined => if streq k k' then v else JUndefined
      | found => found
      end
  end.

(** [v?.k]: the own data properties the parser creates.  The inherited
    properties of strings and arrays ([length], methods) are not read
    through this accessor anywhere in the source. *)
Definition prop (k : string) (v : json) : json :=
  match v with
  | JObj ms => lookup_member (js k) ms
  | _ => JUndefined
  end.

(** [v.k]: a [TypeError] on [null] and [undefined]. *)
Definition prop_strict (k : string) (v : json) : outcome json :=
  if nullish v
  then Throw (Error (js "TypeError: Cannot read properties of null or undefined"))
  else Ret (prop k v).

(** [v?.[0]] *)
Definition first_item (v : json) : json :=
  match v with
  | JArr (x :: _) => x
  | JStr (c :: _) => JStr [c]
  | JObj ms => lookup_member (js "0") ms
  | _ => JUndefined
  end.

(** SameValueZero, as [Array.prototype.includes] compares: two arrays
    or two objects built by separate parses are never the same. *)
Definition same_value (a b : json) : bool :=
  match a, b with
  | JUndefined, JUndefined | JNull, JNull => true
  | JBool x, JBool y => bool_decide (x = y)
  | JNum x, JNum y => streq x y
  | JStr x, JStr y => streq x y
  | _, _ => false
  end.

Definition isArray (v : json) : bool :=
  match v with JArr _ => true | _ => false end.
Definition is_string (v : json) : bool :=
  match v with JStr _ => true | _ => false end.
Definition is_number (v : json) : bool :=
  match v with JNum _ => true | _ => false end.

(** ToString, as a template literal applies it.  A number prints as its
    lexeme, which is what JavaScript prints for the plain integers of the
    payloads read here. *)
Fixpoint to_string (v : json) : jstring :=
  match v with
  | JUndefined => js "undefined"
  | JNull => js "null"
  | JBool true => js "true"
  | JBool false => js "false"
  | JNum lex => lex
  | JStr s => s
  | JArr items =>
      join (js ",")
        (List.map (fun x => if nullish x then [] else to_string x) items)
  | JObj _ => js "[object Object]"
  end.

(** *** [JSON.parse] *)

Definition is_ws (c : N) : bool :=
  (c =? 32) || (c =? 9) || (c =? 10) || (c =? 13).

Fixpoint skip_ws (s : jstring) : jstring :=
  match s with
  | c :: r => if is_ws c then skip_ws r else s
  | [] => []
  end.

Fixpoint span (p : N -> bool) (s : jstring) : jstring * jstring :=
  match s with
  | c :: r =>
      if p c then let (a, b) := span p r in (c :: a, b) else ([], s)
  | [] => ([], [])
  end.

Definition hex_digit (c : N) : option N :=
  if is_digit c then Some (c - 48)
  else if (97 <=? c) && (c <=? 102) then Some (c - 87)
  else if (65 <=? c) && (c <=? 70) then Some (c - 55)
  else None.

Definition hex4 (a b c d : N) : option N :=
  match hex_digit a, hex_digit b, hex_digit c, hex_digit d with
  | Some x, Some y, Some z, Some w => Some (4096 * x + 256 * y + 16 * z + w)
  | _, _, _, _ => None
  end.

Definition simple_escape (e : N) : option N :=
  if e =? 34 then Some 34 else if e =? 92 then Some 92
  else if e =? 47 then Some 47 else if e =? 98 then Some 8
  else if e =? 102 then Some 12 else if e =? 110 then Some 10
  else if e =? 114 then Some 13 else if e =? 116 then Some 9
  else None.

(** The characters of a string after its opening quote. *)
Fixpoint parse_string_body (s acc : jstring) : option (jstring * jstring) :=
  match s with
  | [] => None
  | c :: r =>
      if c =? 34 then Some (rev acc, r)
      else if c =? 92 then
        match r with
        | [] => None
        | e :: r1 =>
            if e =? 117 then
              match r1 with
              | a :: b :: c' :: d :: r2 =>
                  match hex4 a b c' d with
                  | Some u => parse_string_body r2 (u :: acc)
                  | None => None
                  end
              | _ => None
              end
            else
              match simple_escape e with
              | Some u => parse_string_body r1 (u :: acc)
              | None => None
              end
        end
      else if c <? 32 then None
      else parse_string_body r (c :: acc)
  end.

Definition parse_digits1 (s : jstring) : option (jstring * jstring) :=
  let (d, r) := span is_digit s in
  match d with [] => None | _ => Some (d, r) end.

(** A JSON number: an optional minus sign, an integer part without
    leading zero, an optional fraction and an optional exponent. *)
Definition parse_number (s : jstring) : option (jstring * jstring) :=
  let (sign, s1) :=
    match s with
    | c :: r => if c =? 45 then ([45], r) else ([], s)
    | [] => ([], s)
    end in
  let int_part :=
    match s1 with
    | c :: r => if c =? 48 then Some ([48], r) else parse_digits1 s1
    | [] => None
    end in
  match int_part with
  | None => None
  | Some (ip, s2) =>
      let frac :=
        match s2 with
        | c :: r =>
            if c =? 46 then
              match parse_digits1 r with
              | Some (d, r') => Some (46 :: d, r')
              | None => None
              end
            else Some ([], s2)
        | [] => Some ([], s2)
        end in
      match frac with
      | None => None
      | Some (fp, s3) =>
          let expo :=
            match s3 with
            | c :: r =>
                if (c =? 101) || (c =? 69) then
                  let (sg, r1) :=
                    match r with
                    | c1 :: r' =>
                        if (c1 =? 43) || (c1 =? 45) then ([c1], r') else ([], r)
                    | [] => ([], r)
                    end in
                  match parse_digits1 r1 with
                  | Some (d, r') => Some (c :: sg ++ d, r')
                  | None => None
                  end
                else Some ([], s3)
            | [] => Some ([], s3)
            end in
          match expo with
          | None => None
          | Some (ep, s4) => Some (sign ++ ip ++ fp ++ ep, s4)
          end
      end
  end.

Definition expect (word : jstring) (v : json) (s : jstring)
  : option (json * jstring) :=
  if startsWith word s then Some (v, drop (length word) s) else None.

(** Recursive descent.  Two nested calls consume at least one code unit
    between them, so fuel [2 * length s + 2] is never exhausted on a
    well-formed [s]; running out of fuel is a syntax error. *)
Fixpoint parse_value (fuel : nat) (s : jstring) : option (json * jstring) :=
  match fuel with
  | O => None
  | S f =>
      match skip_ws s with
      | [] => None
      | c :: r =>
          if c =? 123 then
            match skip_ws r with
            | c1 :: r1 =>
                if c1 =? 125 then Some (JObj [], r1)
                else parse_members f (c1 :: r1) []
            | [] => None
            end
          else if c =? 91 then
            match skip_ws r with
            | c1 :: r1 =>
                if c1 =? 93 then Some (JArr [], r1)
                else parse_elems f (c1 :: r1) []
            | [] => None
            end
          else if c =? 34 then
            match parse_string_body r [] with
            | Some (str, r1) => Some (JStr str, r1)
            | None => None
            end
          else if c =? 116 then expect (js "true") (JBool true) (c :: r)
          else if c =? 102 then expect (js "false") (JBool false) (c :: r)
          else if c =? 110 then expect (js "null") JNull (c :: r)
          else
            match parse_number (c :: r) with
            | Some (lex, r1) => Some (JNum lex, r1)
            | None => None
            end
      end
  end
with parse_elems (fuel : nat) (s : jstring) (acc : list json)
  : option (json * jstring) :=
  match fuel with
  | O => None
  | S f =>
      match parse_value f s with
      | Some (v, r) =>
          match skip_ws r with
          | c :: r1 =>
              if c =? 44 then parse_elems f r1 (v :: acc)
              else if c =? 93 then Some (JArr (rev (v :: acc)), r1)
              else None
          | [] => None
          end
      | None => None
      end
  end
with parse_members (fuel : nat) (s : jstring) (acc : list (jstring * json))
  : option (json * jstring) :=
  match fuel with
  | O => None
  | S f =>
      match skip_ws s with
      | c :: r =>
          if c =? 34 then
            match parse_string_body r [] with
            | Some (key, r1) =>
                match skip_ws r1 with
                | c1 :: r2 =>
                    if c1 =? 58 then
                      match parse_value f r2 with
                      | Some (v, r3) =>
                          match skip_ws r3 with
                          | c2 :: r4 =>
                              if c2 =? 44
                              then parse_members f r4 ((key, v) :: acc)
                              else if c2 =? 125
                              then Some (JObj (rev ((key, v) :: acc)), r4)
                              else None
                          | [] => None
                          end
                      | None => None
                      end
                    else None
                | [] => None
                end
            | None => None
            end
          else None
      | [] => None
      end
  end.

(** [JSON.parse(s)], [None] for a [SyntaxError]. *)
Definition JSON_parse (s : jstring) : option json :=
  match parse_value (2 * length s + 2) s with
  | Some (v, r) =>
      match skip_ws r with
      | [] => Some v
      | _ :: _ => None
      end
  | None => None
  end.

(** A JSON text written with single quotes in place of double quotes. *)
Definition jsq (s : string) : jstring :=
  map (fun c => if c =? 39 then 34 else c) (js s).

End Json.
Import Json.

(** ** The world outside the program *)

Record request : Type := {
  req_method : jstring;
  req_url : jstring;
  req_headers : list (jstring * jstring);
  (** the value handed to [JSON.stringify] for the body, if any *)
  req_body : option json
}.

Record response : Type := {
  ok : bool;
  status : N;
  statusText : jstring;
  body : jstring
}.

Record exec_options : Type := {
  cwd : option jstring;
  timeout : option N;
  maxBuffer : option N
}.

Inductive event : Type :=
| EFetch (r : request)
| EMkdtemp (prefix : jstring)
| EClone (url dir : jstring) (args : list jstring)
| EGitLog (dir : jstring)
| EExec (cmd : jstring) (opts : exec_options)
| ERm (dir : jstring).

(** What every external call answers.  A run of an operation is a
    function of the environment: the network, the file system, [git],
    the shell and [process.env] are read from it, never chosen by the
    model. *)
Record environment : Type := {
  process_env : string -> option jstring;
  os_tmpdir : jstring;
  fetch_answer : request -> outcome response;
  (** the six random characters [mkdtemp] appends, or its failure *)
  mkdtemp_answer : jstring -> outcome jstring;
  clone_answer : jstring -> jstring -> list jstring -> option js_error;
  (** [log.latest?.hash] of [git log -1], [None] when absent *)
  gitlog_answer : jstring -> outcome (option jstring);
  (** [stdout] and [stderr] of a command, or the rejection of [exec]:
      non-zero exit status, time-out, buffer overflow *)
  exec_answer : jstring -> exec_options -> outcome (jstring * jstring);
  rm_answer : jstring -> option js_error;
  (** [Buffer.from(text, 'base64').toString('utf-8')], the decoder of the
      platform *)
  base64_utf8 : jstring -> jstring
}.

(** The paths that exist under the temporary root, and the external calls
    made so far (oldest first). *)
Record world : Type := {
  fs : gset jstring;
  trace : list event
}.

Definition log_event (e : event) (w : world) : world :=
  {| fs := fs w; trace := trace w ++ [e] |}.

(** [p] is [d] or lies below it. *)
Definition under (d p : jstring) : bool :=
  streq p d || startsWith (d ++ js "/") p.

(** ** Computations *)

Module Comp.

(** A computation with mutable locals of type [L] and a result of type
    [A].  Locals and world survive an exception, as in JavaScript. *)
Definition M (L A : Type) : Type :=
  environment -> L -> world -> outcome A * L * world.

Definition ret {L A} (a : A) : M L A := fun _ l w => (Ret a, l, w).
Definition throw {L A} (e : js_error) : M L A := fun _ l w => (Throw e, l, w).

Definition bind {L A B} (m : M L A) (k : A -> M L B) : M L B :=
  fun env l w =>
    match m env l w with
    | (Ret a, l', w') => k a env l' w'
    | (Throw e, l', w') => (Throw e, l', w')
    end.

(** [try { m } catch (e) { h e }] *)
Definition try_catch {L A} (m : M L A) (h : js_error -> M L A) : M L A :=
  fun env l w =>
    match m env l w with
    | (Ret a, l', w') => (Ret a, l', w')
    | (Throw e, l', w') => h e env l' w'
    end.

(** [try { m } finally { f }]: [f] runs on every exit of [m]; when [f]
    throws, its exception replaces the completion of [m]. *)
Definition try_finally {L A} (m : M L A) (f : M L unit) : M L A :=
  fun env l w =>
    match m env l w with
    | (o, l', w') =>
        match f env l' w' with
        | (Ret _, l'', w'') => (o, l'', w'')
        | (Throw e, l'', w'') => (Throw e, l'', w'')
        end
    end.

Definition get_local {L} : M L L := fun _ l w => (Ret l, l, w).
Definition set_local {L} (l : L) : M L unit := fun _ _ w => (Ret tt, l, w).
Definition ask {L} : M L environment := fun env l w => (Ret env, l, w).

Definition lift {L A} (o : outcome A) : M L A := fun _ l w => (o, l, w).

End Comp.
Import Comp.

Declare Scope comp_scope.
Delimit Scope comp_scope with comp.
Notation "x <- m ;; k" := (bind m (fun x => k))
  (at level 100, m at next level, right associativity) : comp_scope.
Notation "m ;;; k" := (bind m (fun _ => k))
  (at level 100, right associativity) : comp_scope.
Open Scope comp_scope.

(** Exceptions of pure code. *)
Definition obind {A B} (o : outcome A) (k : A -> outcome B) : outcome B :=
  match o with
  | Ret a => k a
  | Throw e => Throw e
  end.

Fixpoint map_outcome {A B} (f : A -> outcome B) (l : list A) : outcome (list B) :=
  match l with
  | [] => Ret []
  | a :: r => obind (f a) (fun b => obind (map_outcome f r) (fun bs => Ret (b :: bs)))
  end.

(** *** External calls *)

Section Primitives.
Context {L : Type}.

(** [process.env.NAME] *)
Definition getenv (name : string) : M L (option jstring) :=
  fun env l w => (Ret (process_env env name), l, w).

(** [fetch(url, init)] *)
Definition fetch (r : request) : M L response :=
  fun env l w => (fetch_answer env r, l, log_event (EFetch r) w).

(** [join(tmpdir(), name)] *)
Definition tmp_path (name : string) : M L jstring :=
  fun env l w => (Ret (os_tmpdir env ++ js "/" ++ js name), l, w).

(** [mkdtemp(prefix)]: creates the directory [prefix ++ suffix]. *)
Definition mkdtemp (prefix : jstring) : M L jstring :=
  fun env l w =>
    let w1 := log_event (EMkdtemp prefix) w in
    match mkdtemp_answer env prefix with
    | Ret suffix =>
        let d := prefix ++ suffix in
        (Ret d, l, {| fs := {[d]} ∪ fs w1; trace := trace w1 |})
    | Throw e => (Throw e, l, w1)
    end.

(** [simpleGit().clone(url, dir, args)]: a successful clone populates
    [dir]. *)
Definition clone (url dir : jstring) (args : list jstring) : M L unit :=
  fun env l w =>
    let w1 := log_event (EClone url dir args) w in
    match clone_answer env url dir args with
    | None =>
        (Ret tt, l, {| fs := {[dir ++ js "/.git"]} ∪ fs w1; trace := trace w1 |})
    | Some e => (Throw e, l, w1)
    end.

(** [simpleGit(dir).log(['-1'])], read at [latest?.hash]. *)
Definition git_log (dir : jstring) : M L (option jstring) :=
  fun env l w => (gitlog_answer env dir, l, log_event (EGitLog dir) w).

(** [execAsync(cmd, opts)] *)
Definition execAsync (cmd : jstring) (opts : exec_options)
  : M L (jstring * jstring) :=
  fun env l w => (exec_answer env cmd opts, l, log_event (EExec cmd opts) w).

(** [rm(dir, { recursive: true, force: true })]: when it succeeds,
    nothing at or below [dir] is left. *)
Definition rm (dir : jstring) : M L unit :=
  fun env l w =>
    let w1 := log_event (ERm dir) w in
    match rm_answer env dir with
    | None =>
        (Ret tt, l,
         {| fs := filter (fun p => under dir p = false) (fs w1);
            trace := trace w1 |})
    | Some e => (Throw e, l, w1)
    end.

(** [response.json()] *)
Definition response_json (r : response) : M L json :=
  match JSON_parse (body r) with
  | Some v => ret v
  | None => throw (Error (js "SyntaxError: Unexpected token in JSON"))
  end.

(** [parseJsonSafe(response)]: [null] when the body does not parse. *)
Definition parseJsonSafe (r : response) : M L json :=
  try_catch (response_json r) (fun _ => ret JNull).

End Primitives.

(** [parseJsonStringSafe(value)] *)
Definition parseJsonStringSafe (value : jstring) : json :=
  match JSON_parse value with
  | Some v => v
  | None => JNull
  end.

(** [JSON.parse(text)] *)
Definition JSON_parse_throw (text : jstring) : outcome json :=
  match JSON_parse text with
  | Some v => Ret v
  | None => Throw (Error (js "SyntaxError: Unexpected token in JSON"))
  end.

(** [s || d] on strings *)
Definition str_or (s d : jstring) : jstring :=
  match s with [] => d | _ => s end.

(** [o || d] for a string that may be [undefined] *)
Definition opt_str_or (o : option jstring) (d : jstring) : jstring :=
  match o with
  | Some s => str_or s d
  | None => d
  end.

Definition exec_default (dir : jstring) : exec_options :=
  {| cwd := Some dir; timeout := None; maxBuffer := None |}.

(** [Object.entries(v)] on a parsed value.  Members come in the order of
    the text, a repeated key once with its last value; the numeric-index
    reordering of JavaScript objects is not modelled. *)
Fixpoint own_props (seen : list jstring) (ms all : list (jstring * json))
  : list (jstring * json) :=
  match ms with
  | [] => []
  | (k, _) :: r =>
      if bool_decide (k ∈ seen) then own_props seen r all
      else (k, lookup_member k all) :: own_props (k :: seen) r all
  end.

Definition Object_entries (v : json) : outcome (list (jstring * json)) :=
  match v with
  | JUndefined | JNull =>
      Throw (Error (js "TypeError: Cannot convert undefined or null to object"))
  | JObj ms => Ret (own_props [] ms ms)
  | JArr items => Ret (imap (fun i x => (of_N (N.of_nat i), x)) items)
  | JStr s => Ret (imap (fun i c => (of_N (N.of_nat i), JStr [c])) s)
  | JBool _ | JNum _ => Ret []
  end.

(** [Object.values(v)] *)
Definition Object_values (v : json) : outcome (list json) :=
  obind (Object_entries v) (fun es => Ret (map snd es)).

(** ** Operations on an ephemeral clone (advanced tools) *)

Record OutdatedEntry : Type := {
  od_name : jstring;
  od_current : json;
  od_latest : json;
  od_type : jstring
}.

Record VulnerabilityEntry : Type := {
  vu_name : json;
  vu_severity : jstring;
  vu_description : json
}.

Record DependencyReport : Type := {
  outdated : list OutdatedEntry;
  vulnerabilities : list VulnerabilityEntry;
  summary : jstring
}.

Definition VALID_SEVERITIES : list jstring :=
  [js "critical"; js "high"; js "moderate"; js "low"].

(** The callback of [Object.entries(outdatedRecord).map]. *)
Definition outdated_entry (e : jstring * json) : outcome OutdatedEntry :=
  let (name, info) := e in
  obind (prop_strict "current" info) (fun current =>
  obind (prop_strict "latest" info) (fun latest =>
  obind (prop_strict "type" info) (fun type =>
  Ret {| od_name := name;
         od_current := coalesce current (JStr (js "unknown"));
         od_latest := coalesce latest (JStr (js "unknown"));
         od_type := match type with
                    | JStr t => if streq t (js "devDependencies")
                                then js "devDependencies" else js "dependencies"
                    | _ => js "dependencies"
                    end |}))).

(** [vulnerability.severity?.toLowerCase()], [None] for [undefined]. *)
Definition severity_candidate (vulnerability : json) : outcome (option jstring) :=
  obind (prop_strict "severity" vulnerability) (fun sev =>
  match sev with
  | JUndefined | JNull => Ret None
  | JStr s => Ret (Some (toLowerCase s))
  | _ => Throw (Error (js "TypeError: toLowerCase is not a function"))
  end).

(** The callback of [Object.values(...).map]. *)
Definition vulnerability_entry (vulnerability : json) : outcome VulnerabilityEntry :=
  obind (severity_candidate vulnerability) (fun severityCandidate =>
  let severity :=
    match severityCandidate with
    | Some c =>
        if negb (streq c []) && bool_decide (c ∈ VALID_SEVERITIES)
        then c else js "low"
    | None => js "low"
    end in
  Ret {| vu_name := coalesce (prop "name" vulnerability) (JStr (js "unknown"));
         vu_severity := severity;
         vu_description :=
           or_else (prop "title" vulnerability) (JStr (js "No description")) |}).

(** The body of the inner [try] of [checkDependencies]. *)
Definition dependency_report (tmpDir : jstring) : M (option jstring) DependencyReport :=
  out1 <- execAsync (js "npm outdated --json") (exec_default tmpDir) ;;
  outdatedRecord <- lift (JSON_parse_throw (str_or (fst out1) (js "{}"))) ;;
  out2 <- execAsync (js "npm audit --json") (exec_default tmpDir) ;;
  auditData <- lift (JSON_parse_throw (str_or (fst out2) (js "{}"))) ;;
  entries <- lift (Object_entries outdatedRecord) ;;
  outdatedList <- lift (map_outcome outdated_entry entries) ;;
  vulns <- lift (prop_strict "vulnerabilities" auditData) ;;
  values <- lift (Object_values (or_else vulns (JObj []))) ;;
  vulnerabilities <- lift (map_outcome vulnerability_entry values) ;;
  ret {| outdated := outdatedList;
         vulnerabilities := vulnerabilities;
         summary :=
           js "Found " ++ of_N (N.of_nat (length outdatedList))
           ++ js " outdated packages and "
           ++ of_N (N.of_nat (length vulnerabilities))
           ++ js " vulnerabilities" |}.

Definition no_manifest_report : DependencyReport :=
  {| outdated := [];
     vulnerabilities := [];
     summary := js "No package.json found or unable to check dependencies" |}.

(** [if (tmpDir) { await rm(tmpDir, { recursive: true, force: true }); }]
    of the [finally] blocks. *)
Definition release_workspace : M (option jstring) unit :=
  tmpDir <- get_local ;;
  match tmpDir with
  | Some (c :: d) => rm (c :: d)
  | Some [] | None => ret tt
  end.

(** The same inside [try { ... } catch (cleanupError) { console.error }]. *)
Definition release_workspace_logged : M (option jstring) unit :=
  tmpDir <- get_local ;;
  match tmpDir with
  | Some (c :: d) => try_catch (rm (c :: d)) (fun _ => ret tt)
  | Some [] | None => ret tt
  end.

(** [tmpDir = await mkdtemp(join(tmpdir(), name)); await git.clone(...)] *)
Definition acquire_workspace (name : string) (repoUrl : jstring)
    (args : list jstring) : M (option jstring) jstring :=
  prefix <- tmp_path name ;;
  tmpDir <- mkdtemp prefix ;;
  set_local (Some tmpDir) ;;;
  clone repoUrl tmpDir args ;;;
  ret tmpDir.

Definition checkDependencies (repoUrl : jstring)
  : M (option jstring) DependencyReport :=
  try_finally
    (tmpDir <- acquire_workspace "reposage-deps-" repoUrl [js "--depth"; js "1"] ;;
     try_catch (dependency_report tmpDir) (fun _ => ret no_manifest_report))
    release_workspace.

Record FormatResult : Type := {
  fmt_success : bool;
  filesFormatted : N;
  changes : list jstring
}.

Definition formatCode (repoUrl : jstring) : M (option jstring) FormatResult :=
  try_finally
    (tmpDir <- acquire_workspace "reposage-format-" repoUrl [js "--depth"; js "1"] ;;
     try_catch
       (execAsync (jsq "npx prettier --write '**/*.{ts,tsx,js,jsx,json,md}'")
          (exec_default tmpDir) ;;;
        ret {| fmt_success := true; filesFormatted := 0;
               changes := [js "Code formatted successfully"] |})
       (fun _ =>
          ret {| fmt_success := false; filesFormatted := 0;
                 changes := [js "Failed to format code"] |}))
    release_workspace.

Record LintFixResult : Type := {
  lint_success : bool;
  errorsFixed : N;
  remainingErrors : N;
  lint_message : jstring
}.

Definition fixLintErrors (repoUrl : jstring) : M (option jstring) LintFixResult :=
  try_finally
    (tmpDir <- acquire_workspace "reposage-lint-fix-" repoUrl [js "--depth"; js "1"] ;;
     try_catch
       (execAsync (js "npm run lint -- --fix || eslint . --fix") (exec_default tmpDir) ;;;
        ret {| lint_success := true; errorsFixed := 0; remainingErrors := 0;
               lint_message := js "Lint errors fixed successfully" |})
       (fun _ =>
          ret {| lint_success := false; errorsFixed := 0; remainingErrors := 0;
                 lint_message := js "Failed to fix lint errors" |}))
    release_workspace.

(** ** [encodeURIComponent] *)

Module Uri.

Definition unreserved (c : N) : bool :=
  is_digit c || ((65 <=? c) && (c <=? 90)) || ((97 <=? c) && (c <=? 122))
  || bool_decide (c ∈ [45; 95; 46; 33; 126; 42; 39; 40; 41]).

Definition hex_upper (d : N) : N := if d <? 10 then 48 + d else 55 + d.

Definition pct (b : N) : jstring := [37; hex_upper (b / 16); hex_upper (b mod 16)].

Definition URIError : js_error := Error (js "URIError: URI malformed").

(** UTF-8 percent-encoding of every code point outside the unreserved
    set; a lone surrogate raises [URIError]. *)
Fixpoint encodeURIComponent (s : jstring) : outcome jstring :=
  match s with
  | [] => Ret []
  | c :: r =>
      if unreserved c then
        match encodeURIComponent r with
        | Ret t => Ret (c :: t)
        | Throw e => Throw e
        end
      else if c <? 128 then
        match encodeURIComponent r with
        | Ret t => Ret (pct c ++ t)
        | Throw e => Throw e
        end
      else if c <? 2048 then
        match encodeURIComponent r with
        | Ret t => Ret (pct (192 + c / 64) ++ pct (128 + c mod 64) ++ t)
        | Throw e => Throw e
        end
      else if (55296 <=? c) && (c <=? 56319) then
        match r with
        | c2 :: r2 =>
            if (56320 <=? c2) && (c2 <=? 57343) then
              let cp := 65536 + (c - 55296) * 1024 + (c2 - 56320) in
              match encodeURIComponent r2 with
              | Ret t =>
                  Ret (pct (240 + cp / 262144) ++ pct (128 + (cp / 4096) mod 64)
                       ++ pct (128 + (cp / 64) mod 64) ++ pct (128 + cp mod 64) ++ t)
              | Throw e => Throw e
              end
            else Throw URIError
        | [] => Throw URIError
        end
      else if (56320 <=? c) && (c <=? 57343) then Throw URIError
      else
        match encodeURIComponent r with
        | Ret t =>
            Ret (pct (224 + c / 4096) ++ pct (128 + (c / 64) mod 64)
                 ++ pct (128 + c mod 64) ++ t)
        | Throw e => Throw e
        end
  end.

End Uri.
Import Uri.

(** ** Running tests and analysing a repository (core tools) *)

Record TestRunResult : Type := {
  passed : bool;
  totalTests : N;
  failedTests : N;
  errors : list jstring;
  (** [duration] is wall-clock time and is left out *)
  output : jstring
}.

(** [/(\d+)\s*failed/i] and [/(\d+)\s*passed/i] of the remote mode *)
Definition count_word_regex (word : string) : regex :=
  RSeq (RGroup 1 rdigits) (RSeq rspaces (rlit_i (js word))).

(** [(?:test(?:s)?|spec(?:s)?)] under the [i] flag *)
Definition test_or_spec : regex :=
  RAlt (RSeq (rlit_i (js "test")) (ropt (rchr_i 115)))
       (RSeq (rlit_i (js "spec")) (ropt (rchr_i 115))).

(** [/(\d+)\s*(?:test(?:s)?|spec(?:s)?)\s*failed/i] and its [passed] twin *)
Definition count_tests_regex (word : string) : regex :=
  RSeq (RGroup 1 rdigits)
    (RSeq rspaces (RSeq test_or_spec (RSeq rspaces (rlit_i (js word))))).

(** [/✖\s*(\d+)/] with mark U+2716, [/✔\s*(\d+)/] with mark U+2714 *)
Definition mark_regex (mark : N) : regex :=
  RSeq (rchr mark) (RSeq rspaces (RGroup 1 rdigits)).

Definition cross_mark : N := 10006.
Definition check_mark : N := 10004.

(** [/(\d+)\s*total/i] *)
Definition total_regex : regex := count_word_regex "total".

(** [a || b] on two match results *)
Definition match_or (a b : option captures) : option captures :=
  match a with
  | Some m => Some m
  | None => b
  end.

Definition local_failedMatch (output : jstring) : option captures :=
  match_or (search (count_tests_regex "failed") 1 output)
           (search (mark_regex cross_mark) 1 output).

Definition local_passedMatch (output : jstring) : option captures :=
  match_or (search (count_tests_regex "passed") 1 output)
           (search (mark_regex check_mark) 1 output).

Definition local_totalMatch (output : jstring) : option captures :=
  search total_regex 1 output.

(** [Number(m[1])]: the digits of group 1, as an exact natural number.
    A JavaScript number is a double; zero, positive and the order with
    zero are the same on both. *)
Definition match_number (m : captures) : N := digits_value (group 1 m).

(** The classification of a finished local test command. *)
Definition classify_local (output : jstring) : TestRunResult :=
  let failedTests :=
    match local_failedMatch output with Some m => match_number m | None => 0 end in
  let passedTests :=
    match local_passedMatch output with Some m => match_number m | None => 0 end in
  let totalTests :=
    match local_totalMatch output with
    | Some m => match_number m
    | None => failedTests + passedTests
    end in
  {| passed := (failedTests =? 0) && (0 <? totalTests);
     totalTests := totalTests;
     failedTests := failedTests;
     errors := if 0 <? failedTests
               then [of_N failedTests ++ js " test(s) failed"] else [];
     output := slice0 1000 output |}.

(** The classification of the output of a remote job. *)
Definition classify_remote (output : jstring) : TestRunResult :=
  let failedMatch := search (count_word_regex "failed") 1 output in
  let passedMatch := search (count_word_regex "passed") 1 output in
  let failedTests :=
    match failedMatch with
    | Some m => match_number m
    | None => if includes (js "fail") (toLowerCase output) then 1 else 0
    end in
  let totalTests :=
    match passedMatch with
    | Some m => match_number m + failedTests
    | None => if 0 <? failedTests then failedTests else 0
    end in
  {| passed := (failedTests =? 0) && includes (js "pass") (toLowerCase output);
     totalTests := totalTests;
     failedTests := failedTests;
     errors := if 0 <? failedTests
               then [js "Tests reported failures. Inspect job logs for details."]
               else [];
     output := output |}.

Definition failed_run (failed : N) (errs : list jstring) (out : jstring)
  : TestRunResult :=
  {| passed := false; totalTests := 0; failedTests := failed;
     errors := errs; output := out |}.

Definition ten_megabytes : N := 10 * 1024 * 1024.

Definition default_remote_test_command : jstring :=
  jsq "npm test --silent || pnpm test --silent || yarn test --silent || echo 'No tests'".

(** The remote branch of [runTests]. *)
Definition runTests_remote (repoUrl : jstring) (testCommandParam : option jstring)
  : M (option jstring) TestRunResult :=
  try_catch
    (envTestCmd <- getenv "TEST_COMMAND" ;;
     let testCmd :=
       opt_str_or testCommandParam
         (opt_str_or envTestCmd default_remote_test_command) in
     envMarket <- getenv "NOSANA_MARKET" ;;
     let market := opt_str_or envMarket [] in
     match market with
     | [] => throw (Error (js "NOSANA_ENABLED set but NOSANA_MARKET missing"))
     | _ :: _ =>
         let jobCmd :=
           jsq "nosana job post bash -lc 'git clone " ++ repoUrl
           ++ js " repo && cd repo && " ++ testCmd
           ++ jsq "' --wait --market " ++ market in
         out <- execAsync jobCmd
                  {| cwd := None; timeout := None; maxBuffer := Some ten_megabytes |} ;;
         let output :=
           join [10] (filter (fun s => s <> []) [fst out; snd out]) in
         ret (classify_remote output)
     end)
    (fun err => ret (failed_run 0 [message err] [])).

(** The local branch of [runTests], from the outer [try] on. *)
Definition runTests_local (repoUrlParam : jstring) (testCommandParam : option jstring)
  : M (option jstring) TestRunResult :=
  try_finally
    (try_catch
       (tmpDir <- acquire_workspace "reposage-test-" repoUrlParam
                    [js "--depth"; js "1"] ;;
        let testCmd :=
          opt_str_or testCommandParam (js "npm test || pnpm test || yarn test") in
        try_catch
          (out <- execAsync testCmd
                    {| cwd := Some tmpDir; timeout := Some 120000;
                       maxBuffer := Some ten_megabytes |} ;;
           ret (classify_local (fst out ++ snd out)))
          (fun testErr =>
             let output :=
               opt_str_or (err_stdout testErr) [] ++ opt_str_or (err_stderr testErr) [] in
             let errorMessage := str_or (message testErr) (js "Test execution failed") in
             ret (failed_run 1 [js "Test execution failed: " ++ errorMessage]
                    (slice0 1000 output))))
       (fun error =>
          ret (failed_run 0 [js "Failed to run tests: " ++ message error] [])))
    release_workspace_logged.

Definition runTests (repoUrlParam testCommandParam : option jstring)
  : M (option jstring) TestRunResult :=
  nosana <- getenv "NOSANA_ENABLED" ;;
  match nosana, repoUrlParam with
  | Some flag, Some (c :: u) =>
      if streq flag (js "true") then runTests_remote (c :: u) testCommandParam
      else runTests_local (c :: u) testCommandParam
  | _, Some (c :: u) => runTests_local (c :: u) testCommandParam
  | _, _ => ret (failed_run 0 [js "Repository URL is required to run tests"] [])
  end.

Inductive issue_type : Type :=
| test_failure | lint_error | type_error | build_error | security_issue.

Inductive issue_severity : Type := critical | high | medium | low.

Record CodeIssue : Type := {
  ci_type : issue_type;
  ci_severity : issue_severity;
  ci_message : jstring;
  ci_suggestion : option jstring
}.

Record RepoAnalysisResult : Type := {
  repoName : jstring;
  branch : json;
  lastCommit : jstring;
  issues : list CodeIssue;
  (** [timestamp] is wall-clock time and is left out *)
  testsPass : bool
}.

Definition lint_command : jstring :=
  jsq "npm run lint 2>&1 || pnpm lint 2>&1 || yarn lint 2>&1 || eslint . 2>&1 || echo 'No linter found'".

Definition mentions_error (line : jstring) : bool :=
  includes (js "error") line || includes [cross_mark] line.

(** The issues of a finished lint command. *)
Definition lint_issues (output : jstring) : list CodeIssue :=
  if mentions_error output then
    map (fun line =>
           {| ci_type := lint_error; ci_severity := medium;
              ci_message := trim line;
              ci_suggestion :=
                Some (js "Fix linting errors according to project ESLint configuration") |})
        (take 5 (filter (fun line => mentions_error line = true) (split_on 10 output)))
  else [].

(** The issues of a rejected lint command. *)
Definition lint_error_issues (lintErr : js_error) : list CodeIssue :=
  let out := opt_str_or (err_stdout lintErr) [] in
  let err := opt_str_or (err_stderr lintErr) [] in
  if negb (streq out []) || negb (streq err []) then
    if includes (js "error") (out ++ err) then
      [{| ci_type := lint_error; ci_severity := medium;
          ci_message := js "Linting errors detected";
          ci_suggestion := Some (js "Run lint command to see detailed errors") |}]
    else []
  else [].

(** [recentRuns.filter(run => run.conclusion === 'failure')] *)
Definition failed_runs (recentRuns : json) : outcome (list json) :=
  match recentRuns with
  | JArr runs =>
      obind
        (map_outcome (fun run =>
                 obind (prop_strict "conclusion" run) (fun c =>
                 Ret (run, match c with
                           | JStr s => streq s (js "failure")
                           | _ => false
                           end))) runs)
        (fun marked => Ret (map fst (filter (fun p => snd p = true) marked)))
  | _ => Throw (Error (js "TypeError: recentRuns.filter is not a function"))
  end.

Definition gh_headers (token : option jstring) : list (jstring * jstring) :=
  [(js "Accept", js "application/vnd.github+json");
   (js "User-Agent", js "reposage-agent")]
  ++ match token with
     | Some (c :: t) => [(js "Authorization", js "Bearer " ++ c :: t)]
     | _ => []
     end.

Definition GET (url : jstring) (headers : list (jstring * jstring)) : request :=
  {| req_method := js "GET"; req_url := url; req_headers := headers;
     req_body := None |}.

(** The CI check of [analyzeRepository]: the issues it adds, empty when
    no recent run failed or the check itself failed. *)
Definition ci_issues (ghBase : jstring) (headers : list (jstring * jstring))
    (targetBranch : json) : M (option jstring) (list CodeIssue) :=
  try_catch
    (encoded <- lift (encodeURIComponent (to_string targetBranch)) ;;
     runsResp <- fetch (GET (ghBase ++ js "/actions/runs?per_page=5&branch=" ++ encoded)
                          headers) ;;
     if ok runsResp then
       runsJson <- response_json runsResp ;;
       failedRuns <- lift (failed_runs
                             (or_else (prop "workflow_runs" runsJson) (JArr []))) ;;
       match failedRuns with
       | [] => ret []
       | _ :: _ =>
           ret [{| ci_type := test_failure; ci_severity := high;
                   ci_message :=
                     of_N (N.of_nat (length failedRuns))
                     ++ js " recent CI workflow(s) failed";
                   ci_suggestion :=
                     Some (js "Check GitHub Actions logs for failed test details") |}]
       end
     else ret [])
    (fun _ => ret []).

Definition analyzeRepository (repoUrl : jstring) (branchParam : option jstring)
  : M (option jstring) RepoAnalysisResult :=
  try_finally
    (try_catch
       (match search repo_url_regex 2 repoUrl with
        | None => throw (Error (js "Invalid GitHub URL format"))
        | Some repoMatch =>
            let repoName :=
              group 1 repoMatch ++ js "/" ++ replace (js ".git") [] (group 2 repoMatch) in
            let ghBase := js "https://api.github.com/repos/" ++ repoName in
            token <- getenv "GITHUB_TOKEN" ;;
            let ghHeaders := gh_headers token in
            repoResp <- fetch (GET ghBase ghHeaders) ;;
            if negb (ok repoResp) then
              throw (Error (js "Failed to fetch repo: " ++ of_N (status repoResp)
                            ++ js " " ++ statusText repoResp))
            else
              repoJson <- response_json repoResp ;;
              let targetBranch :=
                match branchParam with
                | Some (c :: b) => JStr (c :: b)
                | _ => or_else (prop "default_branch" repoJson) (JStr (js "main"))
                end in
              tmpDir <- acquire_workspace "reposage-" repoUrl
                          [js "--depth"; js "1"; js "--branch"; to_string targetBranch] ;;
              latest <- git_log tmpDir ;;
              let lastCommit :=
                match latest with
                | Some hash => str_or (slice0 7 hash) (js "unknown")
                | None => js "unknown"
                end in
              lintIssues <-
                try_catch
                  (out <- execAsync lint_command
                            {| cwd := Some tmpDir; timeout := Some 60000;
                               maxBuffer := Some ten_megabytes |} ;;
                   ret (lint_issues (fst out ++ snd out)))
                  (fun lintError => ret (lint_error_issues lintError)) ;;
              ciIssues <- ci_issues ghBase ghHeaders targetBranch ;;
              let issues := lintIssues ++ ciIssues in
              ret {| repoName := repoName;
                     branch := targetBranch;
                     lastCommit := lastCommit;
                     issues := issues;
                     testsPass :=
                       match ciIssues with [] => true | _ => false end
                       && match issues with [] => true | _ => false end |}
        end)
       (fun error =>
          ret {| repoName := js "unknown";
                 branch := JStr (opt_str_or branchParam (js "main"));
                 lastCommit := js "unknown";
                 issues :=
                   [{| ci_type := build_error; ci_severity := critical;
                       ci_message := js "Failed to analyze repository: " ++ message error;
                       ci_suggestion :=
                         Some (js "Check repository URL and access permissions") |}];
                 testsPass := false |}))
    release_workspace_logged.

(** ** Reading a file through the content API *)

Definition github_headers (token : jstring) : list (jstring * jstring) :=
  [(js "Authorization", js "Bearer " ++ token);
   (js "Accept", js "application/vnd.github+json");
   (js "X-GitHub-Api-Version", js "2022-11-28")].

Definition api_repo_url (repoName : jstring) : jstring :=
  js "https://api.github.com/repos/" ++ repoName.

(** [getDefaultBranch(repoName, token)]: [null] is [JNull]. *)
Definition getDefaultBranch (repoName token : jstring) : M unit json :=
  resp <- fetch (GET (api_repo_url repoName) (github_headers token)) ;;
  if negb (ok resp) then ret JNull
  else
    data <- response_json resp ;;
    ret (or_else (prop "default_branch" data) JNull).

(** [doesBranchExist(repoName, token, branch)] *)
Definition doesBranchExist (repoName token : jstring) (branch : json) : M unit bool :=
  encoded <- lift (encodeURIComponent (to_string branch)) ;;
  resp <- fetch (GET (api_repo_url repoName ++ js "/branches/" ++ encoded)
                   (github_headers token)) ;;
  ret (ok resp).

Record FileContent : Type := {
  content : jstring;
  path : jstring;
  size : json;
  encoding : jstring
}.

(** The candidates once the default branch is known: [def] is what
    [getDefaultBranch] returned, [JNull] also when it threw. *)
Definition branch_candidates (branch : option jstring) (def : json) : list json :=
  let explicit :=
    match branch with
    | Some (c :: b) => [JStr (c :: b)]
    | _ => []
    end in
  let with_default :=
    if truthy def && negb (existsb (same_value def) explicit)
    then explicit ++ [def] else explicit in
  match with_default with
  | [] => [JStr (js "main"); JStr (js "master")]
  | _ :: _ => with_default
  end.

Definition content_url (repoName filePath : jstring) (tryBranch : json) : jstring :=
  api_repo_url repoName ++ js "/contents/" ++ filePath ++ js "?ref="
  ++ to_string tryBranch.

Definition content_request (repoName filePath token : jstring) (tryBranch : json)
  : request :=
  GET (content_url repoName filePath tryBranch) (github_headers token).

(** [statusText], followed by the [message] of the error body if any. *)
Definition http_message (sep : string) (resp : response) (payload : json) : jstring :=
  let errorMessage := prop "message" payload in
  if truthy errorMessage
  then statusText resp ++ js sep ++ to_string errorMessage
  else statusText resp.

(** One iteration of the loop over [branchesToTry], without its [catch]:
    [inl] is the [return] of the function, [inr] the new [lastError]. *)
Definition try_branch (repoName filePath token : jstring) (tryBranch : json)
  : M unit (FileContent + js_error) :=
  response <- fetch (content_request repoName filePath token tryBranch) ;;
  payload <- parseJsonSafe response ;;
  if ok response then
    if negb (truthy payload)
    then throw (Error (js "Received empty response from GitHub"))
    else if isArray payload
    then throw (Error (js "Path '" ++ filePath ++ js "' is a directory, not a file"))
    else
      match prop "content" payload, prop "size" payload, prop "encoding" payload with
      | JStr content, JNum size, JStr encoding =>
          env <- ask ;;
          ret (inl {| content := base64_utf8 env content;
                      path := filePath;
                      size := JNum size;
                      encoding := encoding |})
      | _, _, _ => throw (Error (js "Unexpected response format from GitHub"))
      end
  else
    let maybeError := if isArray payload then JNull else payload in
    ret (inr (Error (js "Branch '" ++ to_string tryBranch ++ js "': "
                     ++ http_message " - " response maybeError))).

(** The loop: the first candidate that yields a file ends the function;
    otherwise the last error is kept. *)
Fixpoint try_branches (repoName filePath token : jstring)
    (branchesToTry : list json) (lastError : option js_error)
  : M unit (FileContent + option js_error) :=
  match branchesToTry with
  | [] => ret (inr lastError)
  | tryBranch :: rest =>
      r <- try_catch (try_branch repoName filePath token tryBranch)
             (fun error => ret (inr error)) ;;
      match r with
      | inl file => ret (inl file)
      | inr e => try_branches repoName filePath token rest (Some e)
      end
  end.

(** The diagnostic probe after the loop, with its [catch]. *)
Definition explain_branch (repoName filePath token : jstring)
    (branch : option jstring) (branchesToTry : list json) : M unit unit :=
  try_catch
    (let branchToExplain :=
       match branch with
       | Some (c :: b) => JStr (c :: b)
       | _ => default JUndefined (head branchesToTry)
       end in
     branchExists <- doesBranchExist repoName token branchToExplain ;;
     if negb branchExists
     then throw (Error (js "Failed to fetch file '" ++ filePath ++ js "' from "
                        ++ repoName ++ js ". Branch '" ++ to_string branchToExplain
                        ++ js "' not found."))
     else ret tt)
    (fun _ => ret tt).

Definition last_error_text (lastError : option js_error) : jstring :=
  match lastError with
  | Some e => message e
  | None => js "undefined"
  end.

Definition fetch_failed_message (repoName filePath : jstring)
    (lastError : option js_error) : jstring :=
  js "Failed to fetch file '" ++ filePath ++ js "' from " ++ repoName
  ++ js ". Last error: " ++ last_error_text lastError
  ++ js ". Path might not exist. Use list-repo-files to explore directories.".

Definition readFileFromRepo (repoUrl filePath : jstring) (branch : option jstring)
  : M unit FileContent :=
  ids <- lift (extractRepoIdentifiers repoUrl) ;;
  let repoName := owner ids ++ js "/" ++ repo ids in
  ghToken <- getenv "GITHUB_TOKEN" ;;
  match ghToken with
  | Some (c :: t) =>
      let ghToken := c :: t in
      def <- try_catch (getDefaultBranch repoName ghToken) (fun _ => ret JNull) ;;
      let branchesToTry := branch_candidates branch def in
      r <- try_branches repoName filePath ghToken branchesToTry None ;;
      match r with
      | inl file => ret file
      | inr lastError =>
          explain_branch repoName filePath ghToken branch branchesToTry ;;;
          throw (Error (fetch_failed_message repoName filePath lastError))
      end
  | _ => throw (Error (js "GITHUB_TOKEN not set"))
  end.

(** ** Pull-request helpers backed by the LLM *)

Definition POST (url : jstring) (headers : list (jstring * jstring)) (payload : json)
  : request :=
  {| req_method := js "POST"; req_url := url; req_headers := headers;
     req_body := Some payload |}.

(** [ghToken ? `Bearer ${ghToken}` : ''] *)
Definition bearer_or_empty (ghToken : jstring) : jstring :=
  match ghToken with
  | [] => []
  | _ :: _ => js "Bearer " ++ ghToken
  end.

Definition pr_read_headers (ghToken : jstring) : list (jstring * jstring) :=
  [(js "Authorization", bearer_or_empty ghToken);
   (js "Accept", js "application/vnd.github+json");
   (js "X-GitHub-Api-Version", js "2022-11-28")].

Definition pr_list_headers (ghToken : jstring) : list (jstring * jstring) :=
  [(js "Authorization", bearer_or_empty ghToken);
   (js "Accept", js "application/vnd.github+json")].

Definition diff_headers (ghToken : jstring) : list (jstring * jstring) :=
  [(js "Authorization", bearer_or_empty ghToken);
   (js "Accept", js "application/vnd.github.v3.diff")].

Definition write_headers (ghToken : jstring) : list (jstring * jstring) :=
  [(js "Authorization", js "Bearer " ++ ghToken);
   (js "Accept", js "application/vnd.github+json");
   (js "Content-Type", js "application/json")].

Definition pr_url (repoName : jstring) (prNumber : N) : jstring :=
  api_repo_url repoName ++ js "/pulls/" ++ of_N prNumber.

Definition openai_url : jstring := js "https://api.openai.com/v1/chat/completions".

Definition chat_messages (sys user : jstring) : json :=
  JArr [JObj [(js "role", JStr (js "system")); (js "content", JStr sys)];
        JObj [(js "role", JStr (js "user")); (js "content", JStr user)]].

(** The chat-completion request; [jsonMode] adds
    [response_format: { type: 'json_object' }]. *)
Definition openai_request (openaiKey openaiModel : jstring) (temperature : string)
    (jsonMode : bool) (sys user : jstring) : request :=
  POST openai_url
    [(js "Authorization", js "Bearer " ++ openaiKey);
     (js "Content-Type", js "application/json")]
    (JObj ([(js "model", JStr openaiModel);
            (js "temperature", JNum (js temperature))]
           ++ (if jsonMode
               then [(js "response_format", JObj [(js "type", JStr (js "json_object"))])]
               else [])
           ++ [(js "messages", chat_messages sys user)])).

Record llm_config : Type := {
  ghToken : jstring;
  openaiKey : jstring;
  openaiModel : jstring
}.

(** The reads of [process.env] that open every helper, and
    [if (!openaiKey) throw]. *)
Definition read_llm_config : M unit llm_config :=
  token <- getenv "GITHUB_TOKEN" ;;
  key <- getenv "OPENAI_API_KEY" ;;
  model <- getenv "OPENAI_MODEL_NAME" ;;
  match key with
  | Some (c :: k) =>
      ret {| ghToken := opt_str_or token [];
             openaiKey := c :: k;
             openaiModel := opt_str_or model (js "gpt-4o-mini") |}
  | _ => throw (Error (js "OPENAI_API_KEY not set"))
  end.

(** PR metadata read through [parseJsonSafe]. *)
Definition fetch_pr_meta_safe (repoName : jstring) (prNumber : N)
    (headers : list (jstring * jstring)) : M unit json :=
  prMetaResp <- fetch (GET (pr_url repoName prNumber) headers) ;;
  prMeta <- parseJsonSafe prMetaResp ;;
  if negb (ok prMetaResp) || negb (truthy prMeta)
  then throw (Error (js "Failed to fetch PR metadata: "
                     ++ http_message " - " prMetaResp prMeta))
  else ret prMeta.

(** [`${statusText}${m ? ` - ${m}` : ''}`] *)
Definition status_with (resp : response) (m : json) : jstring :=
  statusText resp ++ (if truthy m then js " - " ++ to_string m else []).

(** PR metadata read with [response.json()]. *)
Definition fetch_pr_meta (what : string) (repoName : jstring) (prNumber : N)
    (headers : list (jstring * jstring)) : M unit json :=
  prMetaResp <- fetch (GET (pr_url repoName prNumber) headers) ;;
  if negb (ok prMetaResp) then
    j <- parseJsonSafe prMetaResp ;;
    throw (Error (js what ++ status_with prMetaResp (prop "message" j)))
  else response_json prMetaResp.

(** [x?.choices?.[0]?.message?.content] *)
Definition chat_content (openaiJson : json) : json :=
  prop "content" (prop "message" (first_item (prop "choices" openaiJson))).

(** The chat call whose answer is read through [parseJsonSafe]. *)
Definition ask_openai_safe (req : request) : M unit json :=
  openaiResp <- fetch req ;;
  openaiJson <- parseJsonSafe openaiResp ;;
  if negb (ok openaiResp) || negb (truthy openaiJson)
  then throw (Error (js "OpenAI failed: "
                     ++ status_with openaiResp
                          (prop "message" (prop "error" openaiJson))))
  else ret openaiJson.

(** The chat call whose answer is read with [response.json()]. *)
Definition ask_openai (req : request) : M unit json :=
  openaiResp <- fetch req ;;
  if negb (ok openaiResp) then
    j <- parseJsonSafe openaiResp ;;
    throw (Error (js "OpenAI failed: "
                  ++ status_with openaiResp (prop "message" (prop "error" j))))
  else response_json openaiResp.

(** The result of the four comment-publishing helpers; [text] is the
    field [suggestions], [answer], [changelog] or [review]. *)
Record PublishedText : Type := {
  success : bool;
  text : json;
  model : jstring;
  publishedUrl : json
}.

(** The publication step of [aiImprovePullRequest], [aiAskPullRequest]
    and [aiDraftChangelog]: the value left in [publishedUrl]. *)
Definition publish_comment (publish : bool) (ghToken : jstring) (prMeta : json)
    (payload : json) : M unit json :=
  let comments_url := prop "comments_url" prMeta in
  if publish && negb (streq ghToken []) && truthy comments_url then
    pubResp <- fetch (POST (to_string comments_url) (write_headers ghToken)
                        (JObj [(js "body", payload)])) ;;
    pubJson <- parseJsonSafe pubResp ;;
    if ok pubResp then ret (prop "html_url" pubJson) else ret JUndefined
  else ret JUndefined.

(** The publication step of [aiReviewPullRequest], inside [try {} catch {}]. *)
Definition publish_review (publish : bool) (ghToken : jstring) (prMeta : json)
    (payload : json) : M unit json :=
  if publish && negb (streq ghToken []) then
    try_catch
      (commentsUrl <- lift (prop_strict "comments_url" prMeta) ;;
       pubResp <- fetch (POST (to_string commentsUrl) (write_headers ghToken)
                           (JObj [(js "body", payload)])) ;;
       if ok pubResp then
         pub <- parseJsonSafe pubResp ;;
         ret (prop "html_url" pub)
       else ret JUndefined)
      (fun _ => ret JUndefined)
  else ret JUndefined.

Definition lines (l : list jstring) : jstring := join [10] l.



Definition aiImprovePullRequest (repoUrl : jstring) (prNumber : N) (publish : bool)
  : M unit PublishedText :=
  ids <- lift (extractRepoIdentifiers repoUrl) ;;
  let repoName := owner ids ++ js "/" ++ repo ids in
  cfg <- read_llm_config ;;
  prMeta <- fetch_pr_meta_safe repoName prNumber (pr_read_headers (ghToken cfg)) ;;
  let diffUrl := prop "diff_url" prMeta in
  if negb (truthy diffUrl) then throw (Error (js "PR diff URL is missing"))
  else
    diffResp <- fetch (GET (to_string diffUrl) (diff_headers (ghToken cfg))) ;;
    if negb (ok diffResp)
    then throw (Error (js "Failed to fetch PR diff: " ++ statusText diffResp))
    else
      let diff := slice0 120000 (body diffResp) in
      let sys := js "You are an expert code reviewer. Return concise, actionable code suggestions with rationale and optional code snippets." in
      let user :=
        lines [js "Repository: " ++ repoName;
               js "PR #" ++ of_N prNumber ++ js ": "
                 ++ to_string (or_else (prop "title" prMeta) (JStr []));
               [];
               js "Unified diff (clipped):";
               js "```diff";
               diff;
               js "```";
               [];
               js "Output a concise markdown list of suggestions. For each item include:";
               js "- File (and line if inferable)";
               js "- What/Why";
               js "- Severity (low|medium|high)";
               js "- Suggested code snippet (when applicable)"] in
      openaiJson <- ask_openai_safe
                      (openai_request (openaiKey cfg) (openaiModel cfg) "0.2" false sys user) ;;
      let suggestions := or_else (chat_content openaiJson) (JStr []) in
      publishedUrl <- publish_comment publish (ghToken cfg) prMeta suggestions ;;
      ret {| success := true; text := suggestions; model := openaiModel cfg;
             publishedUrl := publishedUrl |}.

Definition aiAskPullRequest (repoUrl : jstring) (prNumber : N) (question : jstring)
    (publish : bool) : M unit PublishedText :=
  ids <- lift (extractRepoIdentifiers repoUrl) ;;
  let repoName := owner ids ++ js "/" ++ repo ids in
  cfg <- read_llm_config ;;
  prMeta <- fetch_pr_meta_safe repoName prNumber (pr_read_headers (ghToken cfg)) ;;
  let sys := js "You are an expert software engineer answering questions about a pull request precisely and concisely." in
  let user :=
    lines [js "Repository: " ++ repoName;
           js "PR #" ++ of_N prNumber ++ js ": "
             ++ to_string (or_else (prop "title" prMeta) (JStr []));
           [];
           js "PR description:";
           to_string (or_else (prop "body" prMeta) (JStr (js "(empty)")));
           [];
           js "Question: " ++ question] in
  openaiJson <- ask_openai_safe
                  (openai_request (openaiKey cfg) (openaiModel cfg) "0.2" false sys user) ;;
  let answer := or_else (chat_content openaiJson) (JStr []) in
  publishedUrl <- publish_comment publish (ghToken cfg) prMeta answer ;;
  ret {| success := true; text := answer; model := openaiModel cfg;
         publishedUrl := publishedUrl |}.

(** [commits.map((c) => `- ${c.commit?.message || ''}`).join('\n').slice(0, 4000)]
    on an array. *)
Definition commit_lines (commits : list json) : outcome jstring :=
  obind
    (map_outcome (fun c =>
             obind (prop_strict "commit" c) (fun inner =>
             Ret (js "- " ++ to_string (or_else (prop "message" inner) (JStr [])))))
       commits)
    (fun msgs => Ret (slice0 4000 (lines msgs))).

Definition aiDraftChangelog (repoUrl : jstring) (prNumber : N) (publish : bool)
  : M unit PublishedText :=
  ids <- lift (extractRepoIdentifiers repoUrl) ;;
  let repoName := owner ids ++ js "/" ++ repo ids in
  cfg <- read_llm_config ;;
  prMeta <- fetch_pr_meta_safe repoName prNumber (pr_read_headers (ghToken cfg)) ;;
  commitsResp <- fetch (GET (pr_url repoName prNumber ++ js "/commits")
                          (pr_list_headers (ghToken cfg))) ;;
  commitsJson <- (if ok commitsResp then parseJsonSafe commitsResp else ret JNull) ;;
  let commits := match commitsJson with JArr l => l | _ => [] end in
  commitMsgs <- lift (commit_lines commits) ;;
  let sys := js "You draft semantic, clean CHANGELOG entries." in
  let user :=
    lines [js "PR: " ++ to_string (or_else (prop "title" prMeta) (JStr []));
           [];
           js "Commit messages:";
           commitMsgs;
           [];
           js "Draft a CHANGELOG entry in markdown under sections (Added/Changed/Fixed/Removed). Keep concise."] in
  openaiJson <- ask_openai_safe
                  (openai_request (openaiKey cfg) (openaiModel cfg) "0.2" false sys user) ;;
  let changelog := or_else (chat_content openaiJson) (JStr []) in
  publishedUrl <- publish_comment publish (ghToken cfg) prMeta
                    (JStr (js "Proposed CHANGELOG entry:" ++ [10; 10] ++ to_string changelog)) ;;
  ret {| success := true; text := changelog; model := openaiModel cfg;
         publishedUrl := publishedUrl |}.

Definition TypeError (what : string) : js_error :=
  Error (js "TypeError: " ++ js what).

(** [a.slice(0, end)] on an array, for an integral [end]: a negative
    [end] counts from the end of the array. *)
Definition array_slice0 {A : Type} (end_ : Z) (l : list A) : list A :=
  let len := Z.of_nat (length l) in
  let final := if (end_ <? 0)%Z then Z.max (len + end_) 0 else Z.min end_ len in
  take (Z.to_nat final) l.

(** [(parsed.labels || []).slice(0, maxLabels).map((label) => label.trim())
      .filter((label) => label.length > 0)] *)
Definition label_list (maxLabels : Z) (parsed : json) : outcome (list jstring) :=
  match or_else (prop "labels" parsed) (JArr []) with
  | JArr items =>
      obind
        (map_outcome (fun label =>
                 match label with
                 | JStr s => Ret (trim s)
                 | _ => Throw (TypeError "label.trim is not a function")
                 end)
           (array_slice0 maxLabels items))
        (fun trimmed => Ret (filter (fun label => label <> []) trimmed))
  | _ => Throw (TypeError "map is not a function")
  end.

Definition labels_url (repoName : jstring) (prNumber : N) : jstring :=
  api_repo_url repoName ++ js "/issues/" ++ of_N prNumber ++ js "/labels".

Definition labels_payload (labels : list jstring) : json :=
  JObj [(js "labels", JArr (map JStr labels))].

Record LabelsResult : Type := {
  labels_success : bool;
  labels : list jstring
}.

Definition generateAndApplyLabels (repoUrl : jstring) (prNumber : N) (maxLabels : Z)
  : M unit LabelsResult :=
  ids <- lift (extractRepoIdentifiers repoUrl) ;;
  let repoName := owner ids ++ js "/" ++ repo ids in
  token <- getenv "GITHUB_TOKEN" ;;
  match token with
  | Some (c :: t) =>
      let ghToken := c :: t in
      cfg <- read_llm_config ;;
      prMeta <- fetch_pr_meta_safe repoName prNumber (github_headers ghToken) ;;
      let sys := jsq "You generate short, conventional repository labels for PRs. Output JSON {'labels': ['label1', ...]}. Prefer existing conventions: bug, enhancement, docs, tests, refactor, security, performance." in
      let user :=
        lines [js "PR title: " ++ to_string (or_else (prop "title" prMeta) (JStr []));
               js "PR description: " ++ to_string (or_else (prop "body" prMeta) (JStr []));
               js "Limit to " ++ (if (maxLabels <? 0)%Z then js "-" else [])
                 ++ of_N (Z.abs_N maxLabels) ++ js " labels."] in
      openaiJson <- ask_openai_safe
                      (openai_request (openaiKey cfg) (openaiModel cfg) "0" true sys user) ;;
      let contentStr := or_else (chat_content openaiJson) (JStr (js "{}")) in
      let parsed := or_else (parseJsonStringSafe (to_string contentStr)) (JObj []) in
      labels <- lift (label_list maxLabels parsed) ;;
      addResp <- fetch (POST (labels_url repoName prNumber) (write_headers ghToken)
                          (labels_payload labels)) ;;
      addJson <- parseJsonSafe addResp ;;
      if negb (ok addResp)
      then throw (Error (js "Failed to apply labels: " ++ http_message " - " addResp addJson))
      else ret {| labels_success := true; labels := labels |}
  | _ => throw (Error (js "GITHUB_TOKEN not set"))
  end.

(** [(commits || []).map(...)] on a value of any shape *)
Definition commit_lines_any (commits : json) : outcome jstring :=
  match or_else commits (JArr []) with
  | JArr l => commit_lines l
  | _ => Throw (TypeError "map is not a function")
  end.

Definition aiReviewPullRequest (repoUrl : jstring) (prNumber : N) (publish : bool)
  : M unit PublishedText :=
  ids <- lift (extractRepoIdentifiers repoUrl) ;;
  let repoName := owner ids ++ js "/" ++ repo ids in
  cfg <- read_llm_config ;;
  prMeta <- fetch_pr_meta "Failed to fetch PR meta: " repoName prNumber
              (pr_read_headers (ghToken cfg)) ;;
  commitsResp <- fetch (GET (pr_url repoName prNumber ++ js "/commits")
                          (pr_read_headers (ghToken cfg))) ;;
  commits <- (if ok commitsResp then response_json commitsResp else ret (JArr [])) ;;
  commitMsgs <- lift (commit_lines_any commits) ;;
  diffUrl <- lift (prop_strict "diff_url" prMeta) ;;
  diffResp <- fetch (GET (to_string diffUrl) (diff_headers (ghToken cfg))) ;;
  if negb (ok diffResp)
  then throw (Error (js "Failed to fetch PR diff: " ++ statusText diffResp))
  else
    let diff := slice0 120000 (body diffResp) in
    let sys := js "You are an expert senior code reviewer. Provide precise, actionable findings. Output concise markdown." in
    let user :=
      lines [js "Repository: " ++ repoName;
             js "PR #" ++ of_N prNumber ++ js ": "
               ++ to_string (or_else (prop "title" prMeta) (JStr []));
             js "Author: "
               ++ to_string (or_else (prop "login" (prop "user" prMeta)) (JStr []));
             [];
             js "Commit messages:";
             commitMsgs;
             [];
             js "Unified diff (clipped):";
             js "```diff";
             diff;
             js "```";
             [];
             js "Please produce:";
             js "- High-level summary";
             js "- Key issues (file, line if possible, what, why, severity)";
             js "- Security concerns, test coverage notes, and suggested improvements";
             js "- Final concise checklist"] in
    openaiData <- ask_openai
                    (openai_request (openaiKey cfg) (openaiModel cfg) "0.2" false sys user) ;;
    let reviewText := or_else (chat_content openaiData) (JStr []) in
    publishedUrl <- publish_review publish (ghToken cfg) prMeta reviewText ;;
    ret {| success := true; text := reviewText; model := openaiModel cfg;
           publishedUrl := publishedUrl |}.

(** [v.slice(0, n)] on a value: strings and arrays have [slice]. *)
Definition slice_value (n : N) (v : json) : outcome json :=
  match v with
  | JStr s => Ret (JStr (slice0 n s))
  | JArr l => Ret (JArr (take (N.to_nat n) l))
  | _ => Throw (TypeError "slice is not a function")
  end.

(** [v[0]], a [TypeError] on [null] and [undefined] *)
Definition first_item_strict (v : json) : outcome json :=
  if nullish v then Throw (TypeError "Cannot read properties of undefined")
  else Ret (first_item v).

(** The callback of [files.map] in [aiDescribePullRequest]. *)
Definition file_line (f : json) : outcome jstring :=
  obind (prop_strict "filename" f) (fun filename =>
  Ret (js "- " ++ to_string (or_else filename (JStr (js "unknown")))
       ++ js " (+" ++ to_string (or_else (prop "additions" f) (JNum (js "0")))
       ++ js "/-" ++ to_string (or_else (prop "deletions" f) (JNum (js "0")))
       ++ js ")")).

(** [(files || []).slice(0, 100).map(...).join('\n')] *)
Definition files_summary (files : json) : outcome jstring :=
  match or_else files (JArr []) with
  | JArr l => obind (map_outcome file_line (take 100 l)) (fun ls => Ret (lines ls))
  | _ => Throw (TypeError "map is not a function")
  end.

Definition PATCH (url : jstring) (headers : list (jstring * jstring)) (payload : json)
  : request :=
  {| req_method := js "PATCH"; req_url := url; req_headers := headers;
     req_body := Some payload |}.

Definition suggestion_comment (title description : json) : jstring :=
  js "Suggested Title:" ++ [10] ++ to_string title ++ [10; 10]
  ++ js "Suggested Description:" ++ [10; 10] ++ to_string description.

(** The publication step of [aiDescribePullRequest]: the final value of
    [published]. *)
Definition describe_publish (publish : bool) (ghToken prMetaUrl : jstring)
    (prMeta title description : json) : M unit bool :=
  if publish && negb (streq ghToken []) then
    try_catch
      (patchResp <- fetch (PATCH prMetaUrl (write_headers ghToken)
                             (JObj [(js "title", title); (js "body", description)])) ;;
       if ok patchResp then ret true
       else
         commentsUrl <- lift (prop_strict "comments_url" prMeta) ;;
         if truthy commentsUrl then
           fetch (POST (to_string commentsUrl) (write_headers ghToken)
                    (JObj [(js "body", JStr (suggestion_comment title description))])) ;;;
           ret false
         else ret false)
      (fun _ => ret false)
  else ret false.

Record Draft : Type := {
  draft_meta : json;
  draft_title : json;
  draft_description : json
}.

(** [aiDescribePullRequest] up to the publication step. *)
Definition describe_draft (repoName : jstring) (prNumber : N) (cfg : llm_config)
  : M unit Draft :=
  prMeta <- fetch_pr_meta "Failed to fetch PR: " repoName prNumber
              (pr_read_headers (ghToken cfg)) ;;
  filesResp <- fetch (GET (pr_url repoName prNumber ++ js "/files?per_page=100")
                        (pr_list_headers (ghToken cfg))) ;;
  files <- (if ok filesResp then response_json filesResp else ret (JArr [])) ;;
  filesSummary <- lift (files_summary files) ;;
  currentTitle <- lift (prop_strict "title" prMeta) ;;
  let sys := js "You are an expert PR author. Improve titles and descriptions. Be concise and informative." in
  let user :=
    lines [js "Repository: " ++ repoName;
           js "PR #" ++ of_N prNumber;
           js "Current title: " ++ to_string (or_else currentTitle (JStr []));
           [];
           js "Existing description:";
           to_string (or_else (prop "body" prMeta) (JStr (js "(empty)")));
           [];
           js "Changed files summary:";
           filesSummary;
           [];
           jsq "Produce JSON with keys {'title': string, 'description': string} where description includes:";
           js "- Summary";
           js "- Changes made";
           js "- Rationale";
           js "- Impact/risks";
           js "- Testing/validation notes";
           js "- Breaking changes (if any)"] in
  openaiData <- ask_openai
                  (openai_request (openaiKey cfg) (openaiModel cfg) "0.2" true sys user) ;;
  choices <- lift (prop_strict "choices" openaiData) ;;
  choice <- lift (first_item_strict choices) ;;
  msg <- lift (prop_strict "message" choice) ;;
  rawContent <- lift (prop_strict "content" msg) ;;
  let contentStr := or_else rawContent (JStr (js "{}")) in
  let parsed :=
    match JSON_parse (to_string contentStr) with
    | Some v => v
    | None => JObj []
    end in
  parsedTitle <- lift (prop_strict "title" parsed) ;;
  title <- lift (slice_value 256
                   (or_else (or_else parsedTitle (prop "title" prMeta)) (JStr []))) ;;
  description <- lift (slice_value 40000
                         (or_else (prop "description" parsed) (JStr []))) ;;
  ret {| draft_meta := prMeta; draft_title := title;
         draft_description := description |}.

Record DescribeResult : Type := {
  describe_success : bool;
  title : json;
  description : json;
  describe_model : jstring;
  published : bool
}.

Definition aiDescribePullRequest (repoUrl : jstring) (prNumber : N) (publish : bool)
  : M unit DescribeResult :=
  ids <- lift (extractRepoIdentifiers repoUrl) ;;
  let repoName := owner ids ++ js "/" ++ repo ids in
  cfg <- read_llm_config ;;
  draft <- describe_draft repoName prNumber cfg ;;
  published <- describe_publish publish (ghToken cfg) (pr_url repoName prNumber)
                 (draft_meta draft) (draft_title draft) (draft_description draft) ;;
  ret {| describe_success := true;
         title := draft_title draft;
         description := draft_description draft;
         describe_model := openaiModel cfg;
         published := published |}.

(** ** Directory listings and code search *)

Record DirectoryItem : Type := {
  item_name : jstring;
  item_path : jstring;
  item_type : jstring;
  (** [size], [None] for [undefined] *)
  item_size : option jstring
}.

(** The callback of [arrayItems.map] in [listFilesFromRepo]. *)
Definition directory_item (item : json) : outcome DirectoryItem :=
  obind (prop_strict "name" item) (fun name =>
  Ret {| item_name := match name with JStr s => s | _ => [] end;
         item_path := match prop "path" item with JStr s => s | _ => [] end;
         item_type := match prop "type" item with
                      | JStr t => if streq t (js "dir") then js "dir" else js "file"
                      | _ => js "file"
                      end;
         item_size := match prop "size" item with
                      | JNum n => Some n
                      | _ => None
                      end |}).

Definition listing_url (repoName path encodedBranch : jstring) : jstring :=
  api_repo_url repoName ++ js "/contents/" ++ path ++ js "?ref=" ++ encodedBranch.

Definition listFilesFromRepo (repoUrl path : jstring) (branch : option jstring)
  : M unit (list DirectoryItem) :=
  ids <- lift (extractRepoIdentifiers repoUrl) ;;
  let repoName := owner ids ++ js "/" ++ repo ids in
  ghToken <- getenv "GITHUB_TOKEN" ;;
  match ghToken with
  | Some (c :: t) =>
      let ghToken := c :: t in
      targetBranch <-
        match branch with
        | Some (b :: r) => ret (JStr (b :: r))
        | _ =>
            def <- getDefaultBranch repoName ghToken ;;
            ret (or_else def (JStr (js "main")))
        end ;;
      encoded <- lift (encodeURIComponent (to_string targetBranch)) ;;
      response <- fetch (GET (listing_url repoName path encoded)
                           (github_headers ghToken)) ;;
      payload <- parseJsonSafe response ;;
      if negb (ok response) || negb (truthy payload) then
        let message :=
          if isArray payload then statusText response
          else http_message " - " response payload in
        throw (Error (js "Failed to list path '" ++ str_or path (js "/")
                      ++ js "': " ++ message))
      else
        let arrayItems := match payload with JArr l => l | _ => [payload] end in
        lift (map_outcome directory_item arrayItems)
  | _ => throw (Error (js "GITHUB_TOKEN not set"))
  end.

(** [execute] of the [list-repo-files] tool *)
Definition listRepoFilesTool (repoUrl : jstring) (path branch : option jstring)
  : M unit (list DirectoryItem) :=
  listFilesFromRepo repoUrl (opt_str_or path []) branch.

Record SearchHit : Type := {
  hit_name : json;
  hit_path : json;
  hit_htmlUrl : json
}.

Definition search_hit (item : json) : SearchHit :=
  {| hit_name := coalesce (prop "name" item) (JStr []);
     hit_path := coalesce (prop "path" item) (JStr []);
     hit_htmlUrl := coalesce (prop "html_url" item) (JStr []) |}.

Definition code_search_url (encodedQuery : jstring) : jstring :=
  js "https://api.github.com/search/code?q=" ++ encodedQuery ++ js "&per_page=20".

Definition findFileInRepo (repoUrl query : jstring) : M unit (list SearchHit) :=
  ids <- lift (extractRepoIdentifiers repoUrl) ;;
  let repoName := owner ids ++ js "/" ++ repo ids in
  ghToken <- getenv "GITHUB_TOKEN" ;;
  match ghToken with
  | Some (c :: t) =>
      let ghToken := c :: t in
      let fullQuery := query ++ js " repo:" ++ repoName in
      encoded <- lift (encodeURIComponent fullQuery) ;;
      response <- fetch (GET (code_search_url encoded) (github_headers ghToken)) ;;
      payload <- parseJsonSafe response ;;
      if negb (ok response) || negb (truthy payload)
      then throw (Error (js "Search failed: " ++ http_message " - " response payload))
      else
        let items := match prop "items" payload with JArr l => l | _ => [] end in
        ret (map search_hit items)
  | _ => throw (Error (js "GITHUB_TOKEN not set"))
  end.

(** ** Issues, merges and workflows *)

Definition json_write_headers (ghToken : jstring) : list (jstring * jstring) :=
  [(js "Authorization", js "Bearer " ++ ghToken);
   (js "Accept", js "application/vnd.github+json");
   (js "Content-Type", js "application/json");
   (js "X-GitHub-Api-Version", js "2022-11-28")].

Definition PUT (url : jstring) (headers : list (jstring * jstring)) (payload : json)
  : request :=
  {| req_method := js "PUT"; req_url := url; req_headers := headers;
     req_body := Some payload |}.

(** [catch (error) { throw new Error(`${context}: ${error.message}`) }] *)
Definition with_context {A : Type} (context : jstring) (m : M unit A) : M unit A :=
  try_catch m (fun error => throw (Error (context ++ js ": " ++ message error))).

(** The opening of the token-guarded operations: coordinates, then
    [if (!ghToken) throw]. *)
Definition with_repo_token {A : Type} (repoUrl : jstring)
    (k : jstring -> jstring -> M unit A) : M unit A :=
  ids <- lift (extractRepoIdentifiers repoUrl) ;;
  let repoName := owner ids ++ js "/" ++ repo ids in
  ghToken <- getenv "GITHUB_TOKEN" ;;
  match ghToken with
  | Some (c :: t) => k repoName (c :: t)
  | _ => throw (Error (js "GITHUB_TOKEN not set"))
  end.

Record IssueCreated : Type := {
  issueNumber : json;
  issueUrl : json;
  issue_success : bool
}.

Definition issues_url (repoName : jstring) : jstring :=
  api_repo_url repoName ++ js "/issues".

Definition createGitHubIssue (repoUrl title body : jstring)
    (labels : option (list jstring)) : M unit IssueCreated :=
  with_repo_token repoUrl (fun repoName ghToken =>
    with_context (js "Failed to create issue on " ++ repoName)
      (response <- fetch (POST (issues_url repoName) (json_write_headers ghToken)
                            (JObj [(js "title", JStr title);
                                   (js "body", JStr body);
                                   (js "labels",
                                    JArr (map JStr (default [] labels)))])) ;;
       payload <- parseJsonSafe response ;;
       if negb (ok response) || negb (truthy payload)
       then throw (Error (js "Failed to create issue: "
                          ++ http_message ". " response payload))
       else ret {| issueNumber := coalesce (prop "number" payload) (JNum (js "0"));
                   issueUrl := coalesce (prop "html_url" payload) (JStr []);
                   issue_success := true |})).

Record CommentPosted : Type := {
  comment_success : bool;
  commentUrl : json
}.

Definition issue_url (repoName : jstring) (issueNumber : N) : jstring :=
  issues_url repoName ++ js "/" ++ of_N issueNumber.

Definition comment_request (repoName ghToken : jstring) (issueNumber : N)
    (comment : jstring) : request :=
  POST (issue_url repoName issueNumber ++ js "/comments") (json_write_headers ghToken)
    (JObj [(js "body", JStr comment)]).

Definition comment_context (repoName : jstring) (issueNumber : N) : jstring :=
  js "Failed to comment on issue #" ++ of_N issueNumber ++ js " in " ++ repoName.

Definition commentOnGitHubIssue (repoUrl : jstring) (issueNumber : N)
    (comment : jstring) : M unit CommentPosted :=
  with_repo_token repoUrl (fun repoName ghToken =>
    with_context (comment_context repoName issueNumber)
      (response <- fetch (comment_request repoName ghToken issueNumber comment) ;;
       payload <- parseJsonSafe response ;;
       if negb (ok response) || negb (truthy payload)
       then throw (Error (js "Failed to comment: "
                          ++ http_message ". " response payload))
       else ret {| comment_success := true;
                   commentUrl := coalesce (prop "html_url" payload) (JStr []) |})).

Record Done : Type := {
  done_success : bool;
  done_message : jstring
}.

Definition close_request (repoName ghToken : jstring) (issueNumber : N) : request :=
  PATCH (issue_url repoName issueNumber) (json_write_headers ghToken)
    (JObj [(js "state", JStr (js "closed"))]).

Definition close_context (repoName : jstring) (issueNumber : N) : jstring :=
  js "Failed to close issue #" ++ of_N issueNumber ++ js " in " ++ repoName.

Definition closeGitHubIssue (repoUrl : jstring) (issueNumber : N)
    (comment : option jstring) : M unit Done :=
  with_repo_token repoUrl (fun repoName ghToken =>
    with_context (close_context repoName issueNumber)
      (match comment with
       | Some (c :: text) =>
           commentOnGitHubIssue repoUrl issueNumber (c :: text) ;;; ret tt
       | _ => ret tt
       end ;;;
       response <- fetch (close_request repoName ghToken issueNumber) ;;
       payload <- parseJsonSafe response ;;
       if negb (ok response)
       then throw (Error (js "Failed to close issue: "
                          ++ http_message ". " response payload))
       else ret {| done_success := true;
                   done_message := js "Issue #" ++ of_N issueNumber
                                   ++ js " closed successfully" |})).

Record MergeResult : Type := {
  merge_success : bool;
  merged : json;
  sha : json;
  merge_message : json
}.

Definition merge_request (repoName ghToken : jstring) (prNumber : N)
    (mergeMethod : option jstring) : request :=
  PUT (pr_url repoName prNumber ++ js "/merge") (json_write_headers ghToken)
    (JObj [(js "merge_method", JStr (opt_str_or mergeMethod (js "merge")))]).

Definition merge_context (repoName : jstring) (prNumber : N) : jstring :=
  js "Failed to merge PR #" ++ of_N prNumber ++ js " in " ++ repoName.

Definition mergePullRequest (repoUrl : jstring) (prNumber : N)
    (mergeMethod : option jstring) : M unit MergeResult :=
  with_repo_token repoUrl (fun repoName ghToken =>
    with_context (merge_context repoName prNumber)
      (response <- fetch (merge_request repoName ghToken prNumber mergeMethod) ;;
       payload <- parseJsonSafe response ;;
       if negb (ok response) || negb (truthy payload)
       then throw (Error (js "Failed to merge PR: "
                          ++ http_message ". " response payload))
       else ret {| merge_success := true;
                   merged := coalesce (prop "merged" payload) (JBool false);
                   sha := coalesce (prop "sha" payload) (JStr []);
                   merge_message :=
                     or_else (prop "message" payload)
                       (JStr (js "PR merged successfully")) |})).

Definition dispatch_request (repoName ghToken workflowId : jstring)
    (branch : option jstring) (inputs : option (list (jstring * jstring))) : request :=
  POST (api_repo_url repoName ++ js "/actions/workflows/" ++ workflowId
        ++ js "/dispatches")
    (json_write_headers ghToken)
    (JObj [(js "ref", JStr (opt_str_or branch (js "main")));
           (js "inputs",
            JObj (map (fun kv => (fst kv, JStr (snd kv))) (default [] inputs)))]).

Definition triggerWorkflow (repoUrl workflowId : jstring) (branch : option jstring)
    (inputs : option (list (jstring * jstring))) : M unit Done :=
  with_repo_token repoUrl (fun repoName ghToken =>
    with_context (js "Failed to trigger workflow '" ++ workflowId ++ js "' in "
                  ++ repoName)
      (response <- fetch (dispatch_request repoName ghToken workflowId branch inputs) ;;
       payload <- parseJsonSafe response ;;
       if negb (ok response)
       then throw (Error (js "Failed to trigger workflow: "
                          ++ http_message ". " response payload))
       else ret {| done_success := true;
                   done_message := js "Workflow triggered successfully" |})).

Record WorkflowRun : Type := {
  wf_name : json;
  wf_status : json;
  wf_conclusion : json;
  wf_runNumber : json;
  wf_createdAt : json;
  wf_htmlUrl : json
}.

(** The callback of [workflowRuns.map]. *)
Definition workflow_run (run : json) : outcome WorkflowRun :=
  obind (prop_strict "name" run) (fun name =>
  Ret {| wf_name := coalesce name (JStr (js "Unknown"));
         wf_status := coalesce (prop "status" run) (JStr (js "unknown"));
         wf_conclusion := prop "conclusion" run;
         wf_runNumber := coalesce (prop "run_number" run) (JNum (js "0"));
         wf_createdAt := coalesce (prop "created_at" run) (JStr []);
         wf_htmlUrl := coalesce (prop "html_url" run) (JStr []) |}).

(** [workflow.conclusion === 'failure'] *)
Definition has_failed (workflow : WorkflowRun) : bool :=
  match wf_conclusion workflow with
  | JStr c => streq c (js "failure")
  | _ => false
  end.

Definition workflow_summary (workflows : list WorkflowRun) : jstring :=
  let failed := length (filter (fun wf => has_failed wf = true) workflows) in
  match workflows with
  | [] => js "No workflows found"
  | _ :: _ =>
      if (0 <? failed)%nat
      then of_N (N.of_nat failed) ++ js " workflow(s) failed out of "
           ++ of_N (N.of_nat (length workflows))
      else js "All " ++ of_N (N.of_nat (length workflows)) ++ js " workflows passing"
  end.

Record WorkflowStatus : Type := {
  workflows : list WorkflowRun;
  wf_summary : jstring
}.

Definition getWorkflowStatus (repoUrl : jstring) (branch : option jstring)
  : M unit WorkflowStatus :=
  with_repo_token repoUrl (fun repoName ghToken =>
    with_context (js "Failed to get workflow status for " ++ repoName)
      (let base := api_repo_url repoName ++ js "/actions/runs?per_page=10" in
       url <- match branch with
              | Some (c :: b) =>
                  encoded <- lift (encodeURIComponent (c :: b)) ;;
                  ret (base ++ js "&branch=" ++ encoded)
              | _ => ret base
              end ;;
       response <- fetch (GET url (github_headers ghToken)) ;;
       payload <- parseJsonSafe response ;;
       if negb (ok response) || negb (truthy payload)
       then throw (Error (js "Failed to fetch workflows: "
                          ++ http_message ". " response payload))
       else
         let workflowRuns :=
           match prop "workflow_runs" payload with JArr l => l | _ => [] end in
         workflows <- lift (map_outcome workflow_run workflowRuns) ;;
         ret {| workflows := workflows;
                wf_summary := workflow_summary workflows |})).

(** ** Issue search *)

Record IssueHit : Type := {
  ih_title : json;
  ih_url : json;
  ih_state : json;
  ih_repository : jstring;
  ih_summary : jstring
}.

(** [l.slice(-2)] *)
Definition last_two {A : Type} (l : list A) : list A :=
  drop (length l - 2) l.

(** The callback of [items.map] in [searchIssues]. *)
Definition issue_hit (item : json) : outcome IssueHit :=
  obind (prop_strict "title" item) (fun title =>
  match prop "repository_url" item with
  | JStr repository_url =>
      let repository := join (js "/") (last_two (split_on 47 repository_url)) in
      let summary :=
        match prop "body" item with
        | JUndefined | JNull => Ret (js "No description")
        | JStr b => Ret (str_or (slice0 200 b) (js "No description"))
        | _ => Throw (TypeError "substring is not a function")
        end in
      obind summary (fun summary =>
      Ret {| ih_title := title;
             ih_url := prop "html_url" item;
             ih_state := prop "state" item;
             ih_repository := repository;
             ih_summary := summary |})
  | _ => Throw (TypeError "split is not a function")
  end).

(** [data.items?.slice(0, 5).map(...) || []] *)
Definition issue_hits (data : json) : outcome (list IssueHit) :=
  obind (prop_strict "items" data) (fun items =>
  match items with
  | JUndefined | JNull => Ret []
  | JArr l => map_outcome issue_hit (take 5 l)
  | _ => Throw (TypeError "map is not a function")
  end).

Record IssueSearch : Type := {
  found_issues : list IssueHit;
  totalFound : json
}.

Definition issue_search_url (encodedQuery : jstring) : jstring :=
  js "https://api.github.com/search/issues?q=" ++ encodedQuery
  ++ js "&sort=reactions&per_page=5".

Definition searchIssues (query : jstring) (language : option jstring)
  : M unit IssueSearch :=
  try_catch
    (let searchQuery :=
       match language with
       | Some (c :: l) => query ++ js " language:" ++ c :: l
       | _ => query
       end in
     encoded <- lift (encodeURIComponent searchQuery) ;;
     token <- getenv "GITHUB_TOKEN" ;;
     response <- fetch (GET (issue_search_url encoded) (gh_headers token)) ;;
     if negb (ok response)
     then throw (Error (js "GitHub API error: " ++ statusText response))
     else
       data <- response_json response ;;
       issues <- lift (issue_hits data) ;;
       ret {| found_issues := issues;
              totalFound := or_else (prop "total_count" data) (JNum (js "0")) |})
    (fun _ => ret {| found_issues := []; totalFound := JNum (js "0") |}).

(** ** The tools that adapt their arguments *)

(** [publish === true] *)
Definition is_true (publish : option bool) : bool :=
  match publish with
  | Some true => true
  | _ => false
  end.

(** [execute] of the [generate-pr-labels] tool: [maxLabels ?? 3] *)
Definition generatePRLabelsTool (repoUrl : jstring) (prNumber : N)
    (maxLabels : option Z) : M unit LabelsResult :=
  generateAndApplyLabels repoUrl prNumber (default 3%Z maxLabels).

Definition aiReviewPRTool (repoUrl : jstring) (prNumber : N) (publish : option bool)
  : M unit PublishedText :=
  aiReviewPullRequest repoUrl prNumber (is_true publish).

Definition aiImprovePRTool (repoUrl : jstring) (prNumber : N) (publish : option bool)
  : M unit PublishedText :=
  aiImprovePullRequest repoUrl prNumber (is_true publish).

Definition aiAskPRTool (repoUrl : jstring) (prNumber : N) (question : jstring)
    (publish : option bool) : M unit PublishedText :=
  aiAskPullRequest repoUrl prNumber question (is_true publish).

Definition updateChangelogTool (repoUrl : jstring) (prNumber : N)
    (publish : option bool) : M unit PublishedText :=
  aiDraftChangelog repoUrl prNumber (is_true publish).

Definition aiDescribePRTool (repoUrl : jstring) (prNumber : N)
    (publish : option bool) : M unit DescribeResult :=
  aiDescribePullRequest repoUrl prNumber (is_true publish).

(** ** Concrete environments for the scenarios below *)

Module Scenario.

Definition http (code : N) (text : string) (payload : jstring) : outcome response :=
  Ret {| ok := (200 <=? code) && (code <? 300); status := code;
         statusText := js text; body := payload |}.

Definition network_error : js_error := Error (js "fetch failed").

(** Answers by method and URL; any other request fails in transport. *)
Fixpoint lookup_fetch (table : list (string * jstring * outcome response))
    (r : request) : outcome response :=
  match table with
  | [] => Throw network_error
  | (m, u, a) :: rest =>
      if streq (js m) (req_method r) && streq u (req_url r) then a
      else lookup_fetch rest r
  end.

Fixpoint lookup_var (vars : list (string * jstring)) (name : string)
  : option jstring :=
  match vars with
  | [] => None
  | (n, v) :: rest => if String.eqb n name then Some v else lookup_var rest name
  end.

(** The value of a base64 digit. *)
Definition sextet (c : N) : option N :=
  if (65 <=? c) && (c <=? 90) then Some (c - 65)
  else if (97 <=? c) && (c <=? 122) then Some (c - 71)
  else if (48 <=? c) && (c <=? 57) then Some (c + 4)
  else if c =? 43 then Some 62
  else if c =? 47 then Some 63
  else None.

(** The bytes that unbroken, padded base64 text stands for. *)
Fixpoint base64_bytes (s : jstring) : list N :=
  match s with
  | a :: b :: c :: d :: rest =>
      match sextet a, sextet b, sextet c, sextet d with
      | Some x, Some y, Some z, Some u =>
          (4 * x + y / 16) :: (16 * (y mod 16) + z / 4) :: (64 * (z mod 4) + u)
          :: base64_bytes rest
      | Some x, Some y, Some z, None => [4 * x + y / 16; 16 * (y mod 16) + z / 4]
      | Some x, Some y, None, _ => [4 * x + y / 16]
      | _, _, _, _ => []
      end
  | _ => []
  end.

(** [Buffer.from(text, 'base64').toString('utf-8')] on unbroken base64
    text that encodes ASCII, where every byte is one code unit; the
    payloads of the scenarios hold no other text. *)
Definition base64_ascii (text : jstring) : jstring := base64_bytes text.

Definition command_failed : js_error :=
  mkError (js "Command failed: npm") (Some []) (Some (js "npm error code ENOENT")).

(** A machine where [mkdtemp], [git clone] and [rm] work and every shell
    command fails, as [npm] does in a checkout without manifest. *)
Definition machine (vars : list (string * jstring))
    (table : list (string * jstring * outcome response)) : environment :=
  {| process_env := lookup_var vars;
     os_tmpdir := js "/tmp";
     fetch_answer := lookup_fetch table;
     mkdtemp_answer := fun _ => Ret (js "a1B2c3");
     clone_answer := fun _ _ _ => None;
     gitlog_answer := fun _ => Ret (Some (js "0123456789abcdef"));
     exec_answer := fun _ _ => Throw command_failed;
     rm_answer := fun _ => None;
     base64_utf8 := base64_ascii |}.

Definition empty_world : world := {| fs := ∅; trace := [] |}.

Definition tokens : list (string * jstring) :=
  [("GITHUB_TOKEN"%string, js "ghp_token"); ("OPENAI_API_KEY"%string, js "sk-key")].

Definition repo_url : jstring := js "https://github.com/o/r".
Definition readme : jstring := js "README.md".
Definition on_dev : option jstring := Some (js "dev").

(** The test command prints a summary line in the style of Jest. *)
Definition jest_machine : environment :=
  {| process_env := lookup_var [];
     os_tmpdir := js "/tmp";
     fetch_answer := lookup_fetch [];
     mkdtemp_answer := fun _ => Ret (js "a1B2c3");
     clone_answer := fun _ _ _ => None;
     gitlog_answer := fun _ => Ret (Some (js "0123456789abcdef"));
     exec_answer := fun _ _ => Ret (js "Tests: 5 passed, 5 total", []);
     rm_answer := fun _ => None;
     base64_utf8 := base64_ascii |}.



Definition file_json : jstring :=
  jsq "{'content':'IyBS','size':3,'encoding':'base64'}".

(** Explicit branch [dev], default branch [trunk]; the file exists only
    on [main]. *)
Definition trunk_machine : environment :=
  machine tokens
    [("GET"%string, js "https://api.github.com/repos/o/r",
      http 200 "OK" (jsq "{'default_branch':'trunk'}"));
     ("GET"%string, js "https://api.github.com/repos/o/r/contents/README.md?ref=dev",
      http 404 "Not Found" (jsq "{'message':'No commit found for the ref dev'}"));
     ("GET"%string, js "https://api.github.com/repos/o/r/contents/README.md?ref=trunk",
      http 404 "Not Found" (jsq "{'message':'Not Found'}"));
     ("GET"%string, js "https://api.github.com/repos/o/r/contents/README.md?ref=main",
      http 200 "OK" file_json);
     ("GET"%string, js "https://api.github.com/repos/o/r/branches/dev",
      http 200 "OK" (jsq "{'name':'dev'}"))].

(** The file exists on the default branch [main]. *)
Definition main_machine : environment :=
  machine tokens
    [("GET"%string, js "https://api.github.com/repos/o/r",
      http 200 "OK" (jsq "{'default_branch':'main'}"));
     ("GET"%string, js "https://api.github.com/repos/o/r/contents/README.md?ref=main",
      http 200 "OK" file_json)].

(** The branch [dev] does not exist. *)
Definition missing_branch_machine : environment :=
  machine tokens
    [("GET"%string, js "https://api.github.com/repos/o/r",
      http 404 "Not Found" (jsq "{'message':'Not Found'}"));
     ("GET"%string, js "https://api.github.com/repos/o/r/contents/README.md?ref=dev",
      http 404 "Not Found" (jsq "{'message':'No commit found for the ref dev'}"));
     ("GET"%string, js "https://api.github.com/repos/o/r/branches/dev",
      http 404 "Not Found" (jsq "{'message':'Branch not found'}"))].

Definition comments_url_7 : jstring :=
  js "https://api.github.com/repos/o/r/issues/7/comments".

(** Pull request 7 of [o/r]: metadata, diff, commits and changed files. *)
Definition pr_table : list (string * jstring * outcome response) :=
  [("GET"%string, js "https://api.github.com/repos/o/r/pulls/7",
    http 200 "OK" (jsq "{'title':'Fix crash','body':'Adds a test','diff_url':'https://github.com/o/r/pull/7.diff','comments_url':'https://api.github.com/repos/o/r/issues/7/comments'}"));
   ("GET"%string, js "https://github.com/o/r/pull/7.diff", http 200 "OK" (js "+ok"));
   ("GET"%string, js "https://api.github.com/repos/o/r/pulls/7/commits",
    http 200 "OK" (jsq "[{'commit':{'message':'fix crash'}}]"));
   ("GET"%string, js "https://api.github.com/repos/o/r/pulls/7/files?per_page=100",
    http 200 "OK" (jsq "[{'filename':'a.ts','additions':1,'deletions':2}]"))].

(** The model answers [text]; single quotes in [text] stand for double
    quotes. *)
Definition chat_answer (text : string) : string * jstring * outcome response :=
  ("POST"%string, openai_url,
   http 200 "OK"
     (jsq "{'choices':[{'message':{'content':'" ++ jsq text ++ jsq "'}}]}")).

(** The comment endpoint cannot be reached. *)
Definition offline_comments_machine : environment :=
  machine tokens (chat_answer "LGTM" :: pr_table).

(** The comment endpoint rejects the post. *)
Definition forbidden_comments_machine : environment :=
  machine tokens
    (("POST"%string, comments_url_7,
      http 403 "Forbidden" (jsq "{'message':'Resource not accessible'}"))
     :: chat_answer "LGTM" :: pr_table).

Definition lgtm : PublishedText :=
  {| success := true; text := JStr (js "LGTM"); model := js "gpt-4o-mini";
     publishedUrl := JUndefined |}.

Definition described : string :=
  "{\'title\':\'Fix the crash\',\'description\':\'Guards the null case\'}".

Definition forbidden_patch : string * jstring * outcome response :=
  ("PATCH"%string, js "https://api.github.com/repos/o/r/pulls/7",
   http 403 "Forbidden" (jsq "{'message':'Resource not accessible'}")).

(** The PATCH is rejected and the comment endpoint accepts. *)
Definition patch_forbidden_machine : environment :=
  machine tokens
    (forbidden_patch
     :: ("POST"%string, comments_url_7,
         http 201 "Created"
           (jsq "{'html_url':'https://github.com/o/r/pull/7#issuecomment-1'}"))
     :: chat_answer described :: pr_table).

(** The PATCH is rejected and the PR metadata carries no [comments_url]. *)
Definition no_comments_url_machine : environment :=
  machine tokens
    [("GET"%string, js "https://api.github.com/repos/o/r/pulls/7",
      http 200 "OK" (jsq "{'title':'Fix crash','body':'Adds a test'}"));
     ("GET"%string, js "https://api.github.com/repos/o/r/pulls/7/files?per_page=100",
      http 200 "OK" (jsq "[]"));
     chat_answer described;
     forbidden_patch].

(** The model proposes three labels; the labels endpoint accepts. *)
Definition labels_machine : environment :=
  machine tokens
    (chat_answer "{\'labels\':[\'bug\',\'docs\',\'tests\']}"
     :: ("POST"%string, js "https://api.github.com/repos/o/r/issues/7/labels",
         http 200 "OK" (jsq "[]"))
     :: pr_table).

End Scenario.

(** ** Vocabulary of the properties *)

(** Some recognised count pattern matches the combined output of a local
    test command. *)
Definition recognized (output : jstring) : bool :=
  bool_decide (is_Some (local_failedMatch output))
  || bool_decide (is_Some (local_passedMatch output))
  || bool_decide (is_Some (local_totalMatch output)).

(** The operations that acquire an ephemeral workspace. *)
Inductive workspace_op : Type :=
| CheckDependencies (repoUrl : jstring)
| FormatCode (repoUrl : jstring)
| FixLintErrors (repoUrl : jstring)
| RunTests (repoUrlParam testCommandParam : option jstring)
| AnalyzeRepository (repoUrl : jstring) (branchParam : option jstring).

(** The world an operation leaves behind, entered with [tmpDir = null]. *)
Definition world_after (op : workspace_op) (env : environment) (w : world) : world :=
  match op with
  | CheckDependencies u => snd (checkDependencies u env None w)
  | FormatCode u => snd (formatCode u env None w)
  | FixLintErrors u => snd (fixLintErrors u env None w)
  | RunTests u c => snd (runTests u c env None w)
  | AnalyzeRepository u b => snd (analyzeRepository u b env None w)
  end.

(** The external calls the operation made. *)
Definition calls_of (op : workspace_op) (env : environment) (w : world) : list event :=
  drop (length (trace w)) (trace (world_after op env w)).

(** [d] was created by a successful [mkdtemp] among [evs]. *)
Definition created (env : environment) (evs : list event) (d : jstring) : Prop :=
  exists prefix suffix,
    EMkdtemp prefix ∈ evs /\ mkdtemp_answer env prefix = Ret suffix
    /\ d = prefix ++ suffix.

(** Every directory created so far is the one held in [tmpDir]. *)
Definition tracked (env : environment) (l : option jstring) (evs : list event) : Prop :=
  forall d, created env evs d -> l = Some d /\ d <> [].

(** A computation that leaves [tmpDir] alone and never calls [mkdtemp]. *)
Definition quiet {A : Type} (m : M (option jstring) A) : Prop :=
  forall env l w,
    snd (fst (m env l w)) = l
    /\ fs (snd (m env l w)) = fs w
    /\ exists evs, trace (snd (m env l w)) = trace w ++ evs
                   /\ forall prefix, EMkdtemp prefix ∉ evs.

(** A computation that, entered with [tmpDir = null], keeps in [tmpDir]
    whatever directory it created. *)
Definition scoped {A : Type} (m : M (option jstring) A) : Prop :=
  forall env w,
    exists evs, trace (snd (m env None w)) = trace w ++ evs
                /\ tracked env (snd (fst (m env None w))) evs.

(** A computation that, entered with [tmpDir = null], ends by removing
    the directory it created, if any. *)
Definition cleans {A : Type} (m : M (option jstring) A) : Prop :=
  forall env w,
    exists evs, trace (snd (m env None w)) = trace w ++ evs
      /\ forall d, created env evs d ->
           last evs = Some (ERm d)
           /\ (rm_answer env d = None ->
               forall p, p ∈ fs (snd (m env None w)) -> under d p = false).

(** The directory of a dependency check whose [mkdtemp] drew [suffix]. *)
Definition deps_dir (env : environment) (suffix : jstring) : jstring :=
  (os_tmpdir env ++ js "/" ++ js "reposage-deps-") ++ suffix.

(** A computation all of whose external calls satisfy [P]. *)
Definition emits {L A : Type} (P : event -> Prop) (m : M L A) : Prop :=
  forall env l w, exists evs,
    trace (snd (m env l w)) = trace w ++ evs /\ Forall P evs.

(** The calls made between two worlds. *)
Definition new_calls (w w' : world) : list event :=
  drop (length (trace w)) (trace w').

(** Method and URL of the requests among [evs], in order. *)
Definition calls (evs : list event) : list (jstring * jstring) :=
  omap (fun e =>
          match e with
          | EFetch r => Some (req_method r, req_url r)
          | _ => None
          end) evs.

(** The labels a request carries in a body [{ labels: [...] }]. *)
Definition sent_labels (e : event) : option (list json) :=
  match e with
  | EFetch r =>
      match req_body r with
      | Some (JObj [(k, JArr ls)]) => if streq k (js "labels") then Some ls else None
      | _ => None
      end
  | _ => None
  end.

Definition good_label (v : json) : Prop :=
  exists s, v = JStr s /\ trim s = s /\ s <> [].

Definition within_cap (maxLabels : Z) (e : event) : Prop :=
  forall ls, sent_labels e = Some ls ->
    (Z.of_nat (length ls) <= maxLabels)%Z /\ Forall good_label ls.

(** What one iteration of the branch loop completes with; it does not
    depend on the world it starts in. *)
Definition branch_outcome (env : environment) (repoName filePath token : jstring)
    (b : json) : outcome (FileContent + js_error) :=
  fst (fst (try_branch repoName filePath token b env tt Scenario.empty_world)).

(** The file a candidate yields, when its content fetch succeeds. *)
Definition branch_file (env : environment) (repoName filePath token : jstring)
    (b : json) : option FileContent :=
  match branch_outcome env repoName filePath token b with
  | Ret (inl file) => Some file
  | _ => None
  end.

(** What the read of the default branch leaves in [def]. *)
Definition default_branch_seen (env : environment) (repoName token : jstring) : json :=
  match fst (fst (getDefaultBranch repoName token env tt Scenario.empty_world)) with
  | Ret v => v
  | Throw _ => JNull
  end.

Definition explicit_branch (branch : option jstring) : option jstring :=
  match branch with
  | Some (c :: b) => Some (c :: b)
  | _ => None
  end.

(** The candidate list of the code, case by case. *)
Definition amended_branch_candidates (branch : option jstring) (def : json)
  : list json :=
  match explicit_branch branch, truthy def with
  | Some b, true => if same_value def (JStr b) then [JStr b] else [JStr b; def]
  | Some b, false => [JStr b]
  | None, true => [def]
  | None, false => [JStr (js "main"); JStr (js "master")]
  end.




(** The file of the first candidate that yields one. *)
Fixpoint first_file (env : environment) (repoName filePath token : jstring)
    (cands : list json) : option FileContent :=
  match cands with
  | [] => None
  | c :: rest =>
      match branch_file env repoName filePath token c with
      | Some file => Some file
      | None => first_file env repoName filePath token rest
      end
  end.

(** The candidates up to and including the first that yields a file: all
    of them when none does. *)
Fixpoint tried (env : environment) (repoName filePath token : jstring)
    (cands : list json) : list json :=
  match cands with
  | [] => []
  | c :: rest =>
      match branch_file env repoName filePath token c with
      | Some _ => [c]
      | None => c :: tried env repoName filePath token rest
      end
  end.



(** ** Vocabulary for repository addresses *)

(** The string [s] has no code unit [c]. *)
Definition lacks (c : N) (s : jstring) : bool :=
  forallb (fun x => negb (x =? c)) s.

(** A path segment: not empty, no slash. *)
Definition segment (s : jstring) : bool :=
  match s with [] => false | _ => lacks 47 s end.

(** What may follow the repository name: nothing, or a path. *)
Definition opens_path (s : jstring) : bool :=
  match s with [] => true | c :: _ => c =? 47 end.
(** ** Vocabulary for the operations on GitHub and the LLM *)

(** What a run threw, if it threw. *)
Definition thrown {L A : Type} (r : outcome A * L * world) : option js_error :=
  match fst (fst r) with
  | Throw e => Some e
  | Ret _ => None
  end.

(** The operations addressed by a repository URL, with the arguments
    their tools pass on. *)
Inductive remote_op : Type :=
| ReadFile (filePath : jstring) (branch : option jstring)
| ListFiles (path branch : option jstring)
| FindFile (query : jstring)
| CreateIssue (title body : jstring) (labels : option (list jstring))
| CommentOnIssue (issueNumber : N) (comment : jstring)
| CloseIssue (issueNumber : N) (comment : option jstring)
| MergePR (prNumber : N) (mergeMethod : option jstring)
| TriggerWorkflow (workflowId : jstring) (branch : option jstring)
    (inputs : option (list (jstring * jstring)))
| WorkflowStatusOf (branch : option jstring)
| GenerateLabels (prNumber : N) (maxLabels : option Z)
| AiReview (prNumber : N) (publish : option bool)
| AiImprove (prNumber : N) (publish : option bool)
| AiAsk (prNumber : N) (question : jstring) (publish : option bool)
| UpdateChangelog (prNumber : N) (publish : option bool)
| AiDescribe (prNumber : N) (publish : option bool).

(** The error a run of the operation ends with, if any, and the world it
    leaves. *)
Definition run_remote (op : remote_op) (repoUrl : jstring) (env : environment)
    (w : world) : option js_error * world :=
  let run {A : Type} (m : M unit A) := (thrown (m env tt w), snd (m env tt w)) in
  match op with
  | ReadFile filePath branch => run (readFileFromRepo repoUrl filePath branch)
  | ListFiles path branch => run (listRepoFilesTool repoUrl path branch)
  | FindFile query => run (findFileInRepo repoUrl query)
  | CreateIssue title body labels => run (createGitHubIssue repoUrl title body labels)
  | CommentOnIssue n comment => run (commentOnGitHubIssue repoUrl n comment)
  | CloseIssue n comment => run (closeGitHubIssue repoUrl n comment)
  | MergePR n method => run (mergePullRequest repoUrl n method)
  | TriggerWorkflow id branch inputs => run (triggerWorkflow repoUrl id branch inputs)
  | WorkflowStatusOf branch => run (getWorkflowStatus repoUrl branch)
  | GenerateLabels n maxLabels => run (generatePRLabelsTool repoUrl n maxLabels)
  | AiReview n publish => run (aiReviewPRTool repoUrl n publish)
  | AiImprove n publish => run (aiImprovePRTool repoUrl n publish)
  | AiAsk n question publish => run (aiAskPRTool repoUrl n question publish)
  | UpdateChangelog n publish => run (updateChangelogTool repoUrl n publish)
  | AiDescribe n publish => run (aiDescribePRTool repoUrl n publish)
  end.

(** The operations that refuse to run without [GITHUB_TOKEN]. *)
Definition needs_token (op : remote_op) : bool :=
  match op with
  | AiReview _ _ | AiImprove _ _ | AiAsk _ _ _ | UpdateChangelog _ _
  | AiDescribe _ _ => false
  | _ => true
  end.

(** The operations that call the LLM. *)
Definition uses_llm (op : remote_op) : bool :=
  match op with
  | GenerateLabels _ _ | AiReview _ _ | AiImprove _ _ | AiAsk _ _ _
  | UpdateChangelog _ _ | AiDescribe _ _ => true
  | _ => false
  end.

(** A variable of [process.env] that is unset or empty. *)
Definition unset (env : environment) (name : string) : bool :=
  streq (opt_str_or (process_env env name) []) [].

(** The [publish] argument of the LLM helpers that can publish. *)
Definition publish_flag (op : remote_op) : option (option bool) :=
  match op with
  | AiReview _ p | AiImprove _ p | AiAsk _ _ p | UpdateChangelog _ p
  | AiDescribe _ p => Some p
  | _ => None
  end.

(** The operations that only look. *)
Definition read_op (op : remote_op) : bool :=
  match op with
  | ReadFile _ _ | ListFiles _ _ | FindFile _ | WorkflowStatusOf _ => true
  | _ => false
  end.

Definition is_get (e : event) : Prop :=
  match e with
  | EFetch r => req_method r = js "GET"
  | _ => False
  end.

(** A call that changes nothing on GitHub: a [GET], or the chat request
    to the LLM. *)
Definition changes_nothing (e : event) : Prop :=
  match e with
  | EFetch r => req_method r = js "GET" \/ req_url r = openai_url
  | _ => False
  end.
(** The context the operation puts in front of an error raised after its
    guards, for the repository [repoName]. *)
Definition op_context (op : remote_op) (repoName : jstring) : option jstring :=
  match op with
  | CreateIssue _ _ _ => Some (js "Failed to create issue on " ++ repoName)
  | CommentOnIssue n _ => Some (comment_context repoName n)
  | CloseIssue n _ => Some (close_context repoName n)
  | MergePR n _ => Some (merge_context repoName n)
  | TriggerWorkflow id _ _ =>
      Some (js "Failed to trigger workflow '" ++ id ++ js "' in " ++ repoName)
  | WorkflowStatusOf _ => Some (js "Failed to get workflow status for " ++ repoName)
  | _ => None
  end.

(** The operations that end with a write to GitHub. *)
Definition write_op (op : remote_op) : bool :=
  match op with
  | CreateIssue _ _ _ | CommentOnIssue _ _ | CloseIssue _ _ | MergePR _ _
  | TriggerWorkflow _ _ _ | GenerateLabels _ _ => true
  | _ => false
  end.

(** The request is answered with a 2xx status. *)
Definition answered_ok (env : environment) (r : request) : bool :=
  match fetch_answer env r with
  | Ret resp => ok resp
  | Throw _ => false
  end.

(** The request is answered with a 2xx status and a body that parses to a
    truthy value. *)
Definition accepted (env : environment) (r : request) : bool :=
  match fetch_answer env r with
  | Ret resp => ok resp && truthy (parseJsonStringSafe (body resp))
  | Throw _ => false
  end.

Definition is_write (e : event) : bool :=
  match e with
  | EFetch r => negb (streq (req_method r) (js "GET"))
  | _ => false
  end.

(** A computation that returns only after a call that was answered with
    a 2xx status and was not a [GET]. *)
Definition ends_accepted {L A : Type} (m : M L A) : Prop :=
  forall env l w a,
    fst (fst (m env l w)) = Ret a ->
    exists evs r,
      trace (snd (m env l w)) = trace w ++ evs ++ [EFetch r]
      /\ is_write (EFetch r) = true /\ answered_ok env r = true.
(** ** More environments *)

(** The merge of pull request 7 is refused. *)
Definition unmergeable_machine : environment :=
  Scenario.machine Scenario.tokens
    [("PUT"%string, js "https://api.github.com/repos/o/r/pulls/7/merge",
      Scenario.http 405 "Method Not Allowed"
        (jsq "{'message':'Pull Request is not mergeable'}"))].

(** Issue 3 accepts comments and can be closed. *)
Definition issue_machine : environment :=
  Scenario.machine Scenario.tokens
    [("POST"%string, js "https://api.github.com/repos/o/r/issues/3/comments",
      Scenario.http 201 "Created"
        (jsq "{'html_url':'https://github.com/o/r/issues/3#issuecomment-1'}"));
     ("PATCH"%string, js "https://api.github.com/repos/o/r/issues/3",
      Scenario.http 200 "OK" (jsq "{'state':'closed'}"))].

(** Issue 3 is locked: comments are refused, closing would work. *)
Definition locked_issue_machine : environment :=
  Scenario.machine Scenario.tokens
    [("POST"%string, js "https://api.github.com/repos/o/r/issues/3/comments",
      Scenario.http 403 "Forbidden" (jsq "{'message':'Issue is locked'}"));
     ("PATCH"%string, js "https://api.github.com/repos/o/r/issues/3",
      Scenario.http 200 "OK" (jsq "{'state':'closed'}"))].
(** [npm] reports one outdated package and two advisories, one of them
    with a severity outside the vocabulary. *)
Definition npm_machine : environment :=
  {| process_env := Scenario.lookup_var [];
     os_tmpdir := js "/tmp";
     fetch_answer := Scenario.lookup_fetch [];
     mkdtemp_answer := fun _ => Ret (js "a1B2c3");
     clone_answer := fun _ _ _ => None;
     gitlog_answer := fun _ => Ret None;
     exec_answer := fun cmd _ =>
       if streq cmd (js "npm outdated --json")
       then Ret (jsq "{'left-pad':{'current':'1.0.0','latest':'1.3.0','type':'optionalDependencies'}}", [])
       else Ret (jsq "{'vulnerabilities':{'a':{'name':'a','severity':'HIGH','title':'ReDoS'},'b':{'name':'b','severity':'info'}}}", []);
     rm_answer := fun _ => None;
     base64_utf8 := Scenario.base64_ascii |}.

Definition npm_report : DependencyReport :=
  {| outdated :=
       [{| od_name := js "left-pad"; od_current := JStr (js "1.0.0");
           od_latest := JStr (js "1.3.0"); od_type := js "dependencies" |}];
     vulnerabilities :=
       [{| vu_name := JStr (js "a"); vu_severity := js "high";
           vu_description := JStr (js "ReDoS") |};
        {| vu_name := JStr (js "b"); vu_severity := js "low";
           vu_description := JStr (js "No description") |}];
     summary := js "Found 1 outdated packages and 2 vulnerabilities" |}.
(** ** Vocabulary for results *)

(** A computation that never throws, and whose result satisfies [Q]. *)
Definition returns {L A : Type} (Q : A -> Prop) (m : M L A) : Prop :=
  forall env l w, exists a, fst (fst (m env l w)) = Ret a /\ Q a.

(** A computation whose result, when it returns, satisfies [Q]. *)
Definition ensures {L A : Type} (Q : A -> Prop) (m : M L A) : Prop :=
  forall env l w a, fst (fst (m env l w)) = Ret a -> Q a.

(** The verdict of a test report agrees with its counts and its errors. *)
Definition coherent (r : TestRunResult) : Prop :=
  (passed r = true -> failedTests r = 0 /\ errors r = [])
  /\ (failedTests r <> 0 -> passed r = false /\ errors r <> []).

(** An analysis that passes carries no issue; no analysis carries more
    than five lint issues and one CI issue. *)
Definition sound_analysis (r : RepoAnalysisResult) : Prop :=
  (testsPass r = true -> issues r = []) /\ (length (issues r) <= 6)%nat.

Definition DEPENDENCY_TYPES : list jstring :=
  [js "dependencies"; js "devDependencies"].

(** Every entry of a dependency report carries a type and a severity of
    the closed vocabularies. *)
Definition normalized (r : DependencyReport) : Prop :=
  Forall (fun o => od_type o ∈ DEPENDENCY_TYPES) (outdated r)
  /\ Forall (fun v => vu_severity v ∈ VALID_SEVERITIES) (vulnerabilities r).
(** ** Vocabulary for the formatter and the lint fixer *)

Inductive fixer : Type := Prettier | EslintFix.

Definition fixer_prefix (f : fixer) : string :=
  match f with
  | Prettier => "reposage-format-"
  | EslintFix => "reposage-lint-fix-"
  end.

Definition fixer_command (f : fixer) : jstring :=
  match f with
  | Prettier => jsq "npx prettier --write '**/*.{ts,tsx,js,jsx,json,md}'"
  | EslintFix => js "npm run lint -- --fix || eslint . --fix"
  end.

(** The [success] field of the result, or the exception of the run. *)
Definition run_fixer (f : fixer) (repoUrl : jstring) (env : environment) (w : world)
  : outcome bool :=
  match f with
  | Prettier =>
      match fst (fst (formatCode repoUrl env None w)) with
      | Ret r => Ret (fmt_success r)
      | Throw e => Throw e
      end
  | EslintFix =>
      match fst (fst (fixLintErrors repoUrl env None w)) with
      | Ret r => Ret (lint_success r)
      | Throw e => Throw e
      end
  end.

(** The command completed: [exec] did not reject. *)
Definition completes (env : environment) (cmd : jstring) (opts : exec_options) : bool :=
  match exec_answer env cmd opts with
  | Ret _ => true
  | Throw _ => false
  end.

Definition ITEM_TYPES : list jstring := [js "dir"; js "file"].

(** [v] is a string or an array of at most [n] elements. *)
Definition clipped (n : N) (v : json) : Prop :=
  match v with
  | JStr s => N.of_nat (length s) <= n
  | JArr l => N.of_nat (length l) <= n
  | _ => False
  end.

(** The directory [src] of [o/r] on branch [dev]: a file and a
    sub-directory. *)
Definition listing_machine : environment :=
  Scenario.machine Scenario.tokens
    [("GET"%string, js "https://api.github.com/repos/o/r/contents/src?ref=dev",
      Scenario.http 200 "OK"
        (jsq "[{'name':'index.ts','path':'src/index.ts','type':'file','size':120},{'name':'lib','path':'src/lib','type':'dir'},{'name':'mod','path':'src/mod','type':'submodule'}]"))].
(** ** Vocabulary for encoded query parameters *)

(** A UTF-16 code unit. *)
Definition code_unit (c : N) : bool := c <? 65536.

(** A character that cannot end or separate a query parameter: an
    unreserved one, or the percent sign of an escape. *)
Definition inert (c : N) : bool := unreserved c || (c =? 37).
(** A call to the network, as opposed to the shell, [git] and the disk. *)
Definition is_fetch (e : event) : Prop :=
  match e with
  | EFetch _ => True
  | _ => False
  end.

(** A call that is not a request. *)
Definition is_local (e : event) : Prop :=
  match e with
  | EFetch _ => False
  | _ => True
  end.

(** The operations on a clone that never look at GitHub. *)
Definition offline_op (op : workspace_op) : bool :=
  match op with
  | AnalyzeRepository _ _ => false
  | _ => true
  end.
(** A job posted to the remote market. *)
Definition is_job (e : event) : Prop :=
  match e with
  | EExec cmd _ => startsWith (js "nosana job post ") cmd = true
  | _ => False
  end.

(** Remote test runs are enabled and a market is configured. *)
Definition market_machine : environment :=
  {| process_env :=
       Scenario.lookup_var [("NOSANA_ENABLED"%string, js "true");
                            ("NOSANA_MARKET"%string, js "m1")];
     os_tmpdir := js "/tmp";
     fetch_answer := Scenario.lookup_fetch [];
     mkdtemp_answer := fun _ => Ret (js "a1B2c3");
     clone_answer := fun _ _ _ => None;
     gitlog_answer := fun _ => Ret None;
     exec_answer := fun _ _ => Ret (js "3 passed", []);
     rm_answer := fun _ => None;
     base64_utf8 := Scenario.base64_ascii |}.
(** A computation that returns only after a last call which stands in
    relation [R] to the result. *)
Definition ends_with {L A : Type} (R : A -> event -> Prop) (m : M L A) : Prop :=
  forall env l w a,
    fst (fst (m env l w)) = Ret a ->
    exists evs e, trace (snd (m env l w)) = trace w ++ evs ++ [e] /\ R a e.

(** The request carries exactly the labels of the result. *)
Definition applies (r : LabelsResult) (e : event) : Prop :=
  sent_labels e = Some (map JStr (labels r)).

(** A computation that makes at most [n] external calls. *)
Definition at_most {L A : Type} (n : nat) (m : M L A) : Prop :=
  forall env l w, exists evs,
    trace (snd (m env l w)) = trace w ++ evs /\ (length evs <= n)%nat.

(** The same operation as a dry run. *)
Definition dry_run_of (op : remote_op) : remote_op :=
  match op with
  | AiReview n _ => AiReview n None
  | AiImprove n _ => AiImprove n None
  | AiAsk n question _ => AiAsk n question None
  | UpdateChangelog n _ => UpdateChangelog n None
  | AiDescribe n _ => AiDescribe n None
  | other => other
  end.

(** The operations whose [finally] block removes the directory outside
    any [try], with the name of their directory. *)
Definition bare_cleanup (op : workspace_op) : option string :=
  match op with
  | CheckDependencies _ => Some "reposage-deps-"%string
  | FormatCode _ => Some "reposage-format-"%string
  | FixLintErrors _ => Some "reposage-lint-fix-"%string
  | RunTests _ _ | AnalyzeRepository _ _ => None
  end.

(** The error an operation on a clone ends with, if any, entered with
    [tmpDir = null]. *)
Definition failure_of (op : workspace_op) (env : environment) (w : world)
  : option js_error :=
  match op with
  | CheckDependencies u => thrown (checkDependencies u env None w)
  | FormatCode u => thrown (formatCode u env None w)
  | FixLintErrors u => thrown (fixLintErrors u env None w)
  | RunTests u c => thrown (runTests u c env None w)
  | AnalyzeRepository u b => thrown (analyzeRepository u b env None w)
  end.

Definition resource_busy : js_error :=
  Error (js "EBUSY: resource busy or locked, rmdir").

(** Every command succeeds, and the directory cannot be removed. *)
Definition busy_machine : environment :=
  {| process_env := Scenario.lookup_var [];
     os_tmpdir := js "/tmp";
     fetch_answer := Scenario.lookup_fetch [];
     mkdtemp_answer := fun _ => Ret (js "a1B2c3");
     clone_answer := fun _ _ _ => None;
     gitlog_answer := fun _ => Ret None;
     exec_answer := fun _ _ => Ret ([], []);
     rm_answer := fun _ => Some resource_busy;
     base64_utf8 := Scenario.base64_ascii |}.

(** The dispatch of workflow [ci.yml] is answered [204 No Content]. *)
Definition dispatch_machine : environment :=
  Scenario.machine Scenario.tokens
    [("POST"%string,
      js "https://api.github.com/repos/o/r/actions/workflows/ci.yml/dispatches",
      Scenario.http 204 "No Content" [])].

(** ** Environments of the file reads and of a checkout that stays *)


(** On [dev] the path is a directory, which the content API lists with
    status 200; on the default branch [main] it is a file. *)
Definition directory_machine : environment :=
  Scenario.machine Scenario.tokens
    [("GET"%string, js "https://api.github.com/repos/o/r",
      Scenario.http 200 "OK" (jsq "{'default_branch':'main'}"));
     ("GET"%string, js "https://api.github.com/repos/o/r/contents/README.md?ref=dev",
      Scenario.http 200 "OK" (jsq "[{'name':'a.md','path':'README.md/a.md','type':'file'}]"));
     ("GET"%string, js "https://api.github.com/repos/o/r/contents/README.md?ref=main",
      Scenario.http 200 "OK" Scenario.file_json)].

(** The branch [dev] does not exist, and the default branch [main] does
    not hold the file. *)
Definition absent_branch_machine : environment :=
  Scenario.machine Scenario.tokens
    [("GET"%string, js "https://api.github.com/repos/o/r",
      Scenario.http 200 "OK" (jsq "{'default_branch':'main'}"));
     ("GET"%string, js "https://api.github.com/repos/o/r/contents/README.md?ref=dev",
      Scenario.http 404 "Not Found" (jsq "{'message':'No commit found for the ref dev'}"));
     ("GET"%string, js "https://api.github.com/repos/o/r/contents/README.md?ref=main",
      Scenario.http 404 "Not Found" (jsq "{'message':'Not Found'}"));
     ("GET"%string, js "https://api.github.com/repos/o/r/branches/dev",
      Scenario.http 404 "Not Found" (jsq "{'message':'Branch not found'}"))].

(** A checkout without manifest that cannot be removed: [npm] fails and
    so does [rm]. *)
Definition locked_checkout_machine : environment :=
  {| process_env := Scenario.lookup_var [];
     os_tmpdir := js "/tmp";
     fetch_answer := Scenario.lookup_fetch [];
     mkdtemp_answer := fun _ => Ret (js "a1B2c3");
     clone_answer := fun _ _ _ => None;
     gitlog_answer := fun _ => Ret None;
     exec_answer := fun _ _ => Throw Scenario.command_failed;
     rm_answer := fun _ => Some resource_busy;
     base64_utf8 := Scenario.base64_ascii |}.

(** * Properties *)

(** Symbolic execution of a computation: the combinators and the external
    calls are unfolded, the answers of the environment stay. *)
Ltac run_comp :=
  cbv beta iota zeta delta
    [bind ret throw try_catch try_finally get_local set_local ask lift
     getenv fetch tmp_path mkdtemp clone git_log execAsync rm
     acquire_workspace release_workspace release_workspace_logged fst snd].

Lemma tmp_dir_cons (t : jstring) (name : string) (suffix : jstring) :
  exists c d, (t ++ js "/" ++ js name) ++ suffix = c :: d.
Proof.
  destruct t as [|c t]; [change (js "/") with [47]|]; cbn; eauto.
Qed.

Lemma EMkdtemp_inj (p q : jstring) : EMkdtemp p = EMkdtemp q -> p = q.
Proof. congruence. Qed.

(** ** Coordinates *)

Example extractRepoIdentifiers_clone_url :
  extractRepoIdentifiers (js "git@github.com/acme/widgets.git")
  = Ret {| owner := js "acme"; repo := js "widgets" |}.
Proof. vm_compute; reflexivity. Qed.

Example extractRepoIdentifiers_rejects_other_hosts :
  extractRepoIdentifiers (js "https://gitlab.com/acme/widgets")
  = Throw (Error (js "Invalid GitHub URL")).
Proof. vm_compute; reflexivity. Qed.

Example JSON_parse_nested :
  JSON_parse (jsq " { 'a' : [1, -2.5e3, true, null], 'b' : {'c' : 'x\ny'} } ")
  = Some (JObj [(js "a", JArr [JNum (js "1"); JNum (js "-2.5e3"); JBool true; JNull]);
                (js "b", JObj [(js "c", JStr (js "x" ++ [10] ++ js "y"))])]).
Proof. vm_compute; reflexivity. Qed.

Example JSON_parse_rejects_trailing_comma : JSON_parse (jsq "[1,]") = None.
Proof. vm_compute; reflexivity. Qed.

(** C8 (the code departs from the claim): for the clone URL of a
    user-pages repository, [extractRepoIdentifiers] removes the first
    [.git] it meets, the one inside [.github], and returns a [repo] that
    still ends in [.git]. *)
Theorem extractRepoIdentifiers_keeps_git_suffix :
  extractRepoIdentifiers (js "https://github.com/octo/octo.github.io.git")
  = Ret {| owner := js "octo"; repo := js "octohub.io.git" |}
  /\ endsWith (js ".git") (js "octohub.io.git") = true.
Proof. split; vm_compute; reflexivity. Qed.

(** ** Classification of a local test run *)

(** The patterns are heuristics: [1 failed] without the word [test] or
    [spec] is not a failure count. *)
Example classify_jest_summary :
  classify_local (js "Tests: 1 failed, 4 passed, 5 total")
  = {| passed := true; totalTests := 5; failedTests := 0; errors := [];
       output := js "Tests: 1 failed, 4 passed, 5 total" |}.
Proof. vm_compute; reflexivity. Qed.

Example classify_mocha_summary :
  classify_local (js "12 specs passed" ++ [10] ++ js "3 Tests  Failed")
  = {| passed := false; totalTests := 15; failedTests := 3;
       errors := [js "3 test(s) failed"];
       output := js "12 specs passed" ++ [10] ++ js "3 Tests  Failed" |}.
Proof. vm_compute; reflexivity. Qed.

Example classify_marks :
  classify_local ([check_mark] ++ js " 7" ++ [10; cross_mark] ++ js "0")
  = {| passed := true; totalTests := 7; failedTests := 0; errors := [];
       output := [check_mark] ++ js " 7" ++ [10; cross_mark] ++ js "0" |}.
Proof. vm_compute; reflexivity. Qed.

Example classify_unrecognized :
  recognized (js "all good, nothing to report") = false
  /\ passed (classify_local (js "all good, nothing to report")) = false.
Proof. split; vm_compute; reflexivity. Qed.

Lemma classify_local_passed (output : jstring) :
  passed (classify_local output) = true ->
  recognized output = true
  /\ failedTests (classify_local output) = 0
  /\ 0 < totalTests (classify_local output).
Proof.
  unfold classify_local, recognized; cbn [passed failedTests totalTests].
  destruct (local_failedMatch output) as [fm|] eqn:Hf;
    destruct (local_passedMatch output) as [pm|] eqn:Hp;
    destruct (local_totalMatch output) as [tm|] eqn:Ht;
    intros H; apply andb_true_iff in H as [H0 Hpos];
    apply N.eqb_eq in H0; apply N.ltb_lt in Hpos;
    repeat split; try assumption; try reflexivity.
  cbn in Hpos. lia.
Qed.

Lemma runTests_local_spec env w url cmd :
  exists r,
    fst (fst (runTests_local url cmd env None w)) = Ret r
    /\ (passed r = true ->
        failedTests r = 0 /\ 0 < totalTests r
        /\ exists c opts out,
             EExec c opts ∈ trace (snd (runTests_local url cmd env None w))
             /\ exec_answer env c opts = Ret out
             /\ recognized (fst out ++ snd out) = true
             /\ r = classify_local (fst out ++ snd out)).
Proof.
  unfold runTests_local. run_comp.
  destruct (mkdtemp_answer env _) as [suffix|e] eqn:Hmk.
  2:{ eexists; split; [reflexivity|]. cbn. discriminate. }
  destruct (tmp_dir_cons (os_tmpdir env) "reposage-test-" suffix) as (c & d & ->).
  destruct (clone_answer env _ _ _) as [e|] eqn:Hcl.
  { destruct (rm_answer env _); eexists; (split; [reflexivity|]); cbn; discriminate. }
  destruct (exec_answer env _ _) as [out|e] eqn:Hex.
  2:{ destruct (rm_answer env _); eexists; (split; [reflexivity|]); cbn; discriminate. }
  exists (classify_local (fst out ++ snd out)).
  split; [destruct (rm_answer env _); reflexivity|].
  intros Hp. apply classify_local_passed in Hp as (Hrec & Hf & Ht).
  repeat split; try assumption.
  eexists _, _, out. split; [|split; [exact Hex|split; [exact Hrec|reflexivity]]].
  destruct (rm_answer env _); cbn; set_solver.
Qed.

(** C9: a local test run always returns a result, and the result is
    classified as passed only when the test command completed, its
    combined output matched a recognised count pattern, the failure
    count is zero and the total is positive.  An output that matches no
    pattern is therefore never classified as passed. *)
Theorem local_test_run_classification (env : environment) (w : world)
    (repoUrlParam testCommandParam : option jstring) :
  process_env env "NOSANA_ENABLED" <> Some (js "true") ->
  exists r,
    fst (fst (runTests repoUrlParam testCommandParam env None w)) = Ret r
    /\ (passed r = true ->
        failedTests r = 0 /\ 0 < totalTests r
        /\ exists c opts out,
             EExec c opts
               ∈ trace (snd (runTests repoUrlParam testCommandParam env None w))
             /\ exec_answer env c opts = Ret out
             /\ recognized (fst out ++ snd out) = true
             /\ r = classify_local (fst out ++ snd out)).
Proof.
  intros Hlocal. unfold runTests, bind, getenv.
  destruct (process_env env "NOSANA_ENABLED") as [flag|];
    destruct repoUrlParam as [[|c u]|];
    try (eexists; split; [reflexivity|]; cbn; discriminate);
    try apply runTests_local_spec.
  unfold streq. case_bool_decide as Hflag; [subst flag; congruence|].
  apply runTests_local_spec.
Qed.

Lemma local_test_run_witness :
  exists r,
    fst (fst (runTests (Some Scenario.repo_url) None Scenario.jest_machine None
                Scenario.empty_world)) = Ret r
    /\ (passed r = true ->
        failedTests r = 0 /\ 0 < totalTests r
        /\ exists c opts out,
             EExec c opts
               ∈ trace (snd (runTests (Some Scenario.repo_url) None
                               Scenario.jest_machine None Scenario.empty_world))
             /\ exec_answer Scenario.jest_machine c opts = Ret out
             /\ recognized (fst out ++ snd out) = true
             /\ r = classify_local (fst out ++ snd out)).
Proof.
  apply (local_test_run_classification Scenario.jest_machine Scenario.empty_world
           (Some Scenario.repo_url) None).
  vm_compute. discriminate.
Defined.

(** ** Ephemeral workspaces *)

Section Quiet.
Context {A B : Type}.
Implicit Types (m : M (option jstring) A) (k : A -> M (option jstring) B).

Lemma quiet_intro m :
  (forall env l w, exists o evs,
      m env l w = (o, l, {| fs := fs w; trace := trace w ++ evs |})
      /\ forall prefix, EMkdtemp prefix ∉ evs) ->
  quiet m.
Proof.
  intros H env l w. destruct (H env l w) as (o & evs & -> & Hno).
  cbn. eauto.
Qed.

Lemma quiet_ret (a : A) : quiet (ret a).
Proof.
  apply quiet_intro; intros env l [f t]. exists (Ret a), [].
  rewrite app_nil_r. split; [reflexivity|]. intros p Hp. inversion Hp.
Qed.

Lemma quiet_throw (e : js_error) : quiet (throw e : M (option jstring) A).
Proof.
  apply quiet_intro; intros env l [f t]. exists (Throw e), [].
  rewrite app_nil_r. split; [reflexivity|]. intros p Hp. inversion Hp.
Qed.

Lemma quiet_lift (o : outcome A) : quiet (lift o).
Proof.
  apply quiet_intro; intros env l [f t]. exists o, [].
  rewrite app_nil_r. split; [reflexivity|]. intros p Hp. inversion Hp.
Qed.

Lemma quiet_bind m k : quiet m -> (forall a, quiet (k a)) -> quiet (bind m k).
Proof.
  intros Hm Hk env l w. unfold bind.
  destruct (Hm env l w) as (Hl & Hfs & evs & Ht & Hno).
  destruct (m env l w) as [[[a|e] l1] w1]; cbn in *; subst l1.
  - destruct (Hk a env l w1) as (Hl' & Hfs' & evs' & Ht' & Hno').
    split; [exact Hl'|]. split; [congruence|].
    exists (evs ++ evs'). rewrite Ht', Ht, app_assoc. split; [reflexivity|].
    intros p Hp. apply elem_of_app in Hp as [Hp|Hp]; [eapply Hno|eapply Hno']; eauto.
  - eauto.
Qed.
End Quiet.

Section QuietMore.
Context {A : Type}.
Implicit Types (m : M (option jstring) A).

Lemma quiet_try_catch m h : quiet m -> (forall e, quiet (h e)) -> quiet (try_catch m h).
Proof.
  intros Hm Hh env l w. unfold try_catch.
  destruct (Hm env l w) as (Hl & Hfs & evs & Ht & Hno).
  destruct (m env l w) as [[[a|e] l1] w1]; cbn in *; subst l1.
  - eauto.
  - destruct (Hh e env l w1) as (Hl' & Hfs' & evs' & Ht' & Hno').
    split; [exact Hl'|]. split; [congruence|].
    exists (evs ++ evs'). rewrite Ht', Ht, app_assoc. split; [reflexivity|].
    intros p Hp. apply elem_of_app in Hp as [Hp|Hp]; [eapply Hno|eapply Hno']; eauto.
Qed.
End QuietMore.

Lemma quiet_event {A : Type} (answer : environment -> outcome A) (e : event) :
  (forall prefix, e <> EMkdtemp prefix) ->
  quiet (fun env l w => (answer env, l, log_event e w)).
Proof.
  intros He. apply quiet_intro; intros env l w. exists (answer env), [e].
  split; [reflexivity|]. intros p Hp. apply list_elem_of_singleton in Hp. eapply He; eauto.
Qed.

Lemma quiet_getenv name : quiet (getenv name).
Proof.
  apply quiet_intro; intros env l [f t]. exists (Ret (process_env env name)), [].
  rewrite app_nil_r. split; [reflexivity|]. intros p Hp. inversion Hp.
Qed.

Lemma quiet_fetch r : quiet (fetch r).
Proof. apply (quiet_event (fun env => fetch_answer env r)). discriminate. Qed.

Lemma quiet_execAsync cmd opts : quiet (execAsync cmd opts).
Proof. apply (quiet_event (fun env => exec_answer env cmd opts)). discriminate. Qed.

Lemma quiet_git_log dir : quiet (git_log dir).
Proof. apply (quiet_event (fun env => gitlog_answer env dir)). discriminate. Qed.

Lemma quiet_response_json r : quiet (response_json r).
Proof. unfold response_json. destruct (JSON_parse _); [apply quiet_ret|apply quiet_throw]. Qed.

Create HintDb quiet.
#[local] Hint Resolve quiet_ret quiet_throw quiet_lift quiet_getenv quiet_fetch
  quiet_execAsync quiet_git_log quiet_response_json : quiet.

Ltac quiet_step :=
  match goal with
  | |- quiet (bind _ _) => apply quiet_bind; [|intros ?]
  | |- quiet (try_catch _ _) => apply quiet_try_catch; [|intros ?]
  | |- quiet (if ?b then _ else _) => destruct b
  | |- quiet (match ?x with _ => _ end) => destruct x
  | |- quiet _ => solve [auto with quiet]
  | |- quiet _ => progress cbv zeta
  end.

Lemma quiet_dependency_report d : quiet (dependency_report d).
Proof. unfold dependency_report. repeat quiet_step. Qed.

Lemma quiet_ci_issues b h t : quiet (ci_issues b h t).
Proof. unfold ci_issues. repeat quiet_step. Qed.

Lemma quiet_runTests_remote u c : quiet (runTests_remote u c).
Proof. unfold runTests_remote. repeat quiet_step. Qed.

Lemma created_app env evs evs' d :
  created env (evs ++ evs') d -> created env evs d \/ created env evs' d.
Proof.
  intros (p & s & Hin & Hans & ->). apply elem_of_app in Hin as [Hin|Hin];
    [left|right]; exists p, s; auto.
Qed.

Lemma not_created env evs d :
  (forall prefix, EMkdtemp prefix ∉ evs) -> ~ created env evs d.
Proof. intros Hno (p & s & Hin & _). eapply Hno; eauto. Qed.

Lemma scoped_quiet {A} (m : M (option jstring) A) : quiet m -> scoped m.
Proof.
  intros Hm env w. destruct (Hm env None w) as (Hl & _ & evs & Ht & Hno).
  exists evs. split; [exact Ht|]. intros d Hd. destruct (not_created _ _ _ Hno Hd).
Qed.

Lemma scoped_acquire_workspace name url args :
  scoped (acquire_workspace name url args).
Proof.
  intros env w. unfold acquire_workspace. run_comp.
  destruct (mkdtemp_answer env _) as [suffix|e] eqn:Hmk.
  - destruct (tmp_dir_cons (os_tmpdir env) name suffix) as (c & t & Hd).
    assert (Htr : forall evs,
               (forall prefix, EMkdtemp prefix ∈ evs ->
                               prefix = os_tmpdir env ++ js "/" ++ js name) ->
               tracked env (Some ((os_tmpdir env ++ js "/" ++ js name) ++ suffix)) evs).
    { intros evs Hevs d (p & s & Hin & Hans & ->). apply Hevs in Hin as ->.
      rewrite Hmk in Hans. injection Hans as <-. split; [reflexivity|].
      rewrite Hd. discriminate. }
    destruct (clone_answer env _ _ _); unfold log_event; cbn [trace fs];
      rewrite <- app_assoc; (eexists; split; [reflexivity|]); apply Htr;
      intros p Hp; apply elem_of_app in Hp as [Hp|Hp];
      apply list_elem_of_singleton in Hp; congruence.
  - unfold log_event; cbn [trace fs]. eexists; split; [reflexivity|].
    intros d (p & s & Hin & Hans & ->).
    apply list_elem_of_singleton, EMkdtemp_inj in Hin as ->.
    rewrite Hmk in Hans. discriminate.
Qed.

Lemma scoped_bind_l {A B} (m : M (option jstring) A) (k : A -> M (option jstring) B) :
  quiet m -> (forall a, scoped (k a)) -> scoped (bind m k).
Proof.
  intros Hm Hk env w. unfold bind.
  destruct (Hm env None w) as (Hl & _ & evs & Ht & Hno).
  destruct (m env None w) as [[[a|e] l1] w1]; cbn in *; subst l1.
  - destruct (Hk a env w1) as (evs' & Ht' & Htr).
    exists (evs ++ evs'). rewrite Ht', Ht, app_assoc. split; [reflexivity|].
    intros d Hd. apply created_app in Hd as [Hd|Hd]; [|auto].
    destruct (not_created _ _ _ Hno Hd).
  - exists evs. split; [exact Ht|]. intros d Hd. destruct (not_created _ _ _ Hno Hd).
Qed.

Lemma scoped_bind_r {A B} (m : M (option jstring) A) (k : A -> M (option jstring) B) :
  scoped m -> (forall a, quiet (k a)) -> scoped (bind m k).
Proof.
  intros Hm Hk env w. unfold bind.
  destruct (Hm env w) as (evs & Ht & Htr).
  destruct (m env None w) as [[[a|e] l1] w1]; cbn in *.
  - destruct (Hk a env l1 w1) as (Hl & _ & evs' & Ht' & Hno). rewrite Hl.
    exists (evs ++ evs'). rewrite Ht', Ht, app_assoc. split; [reflexivity|].
    intros d Hd. apply created_app in Hd as [Hd|Hd]; [auto|].
    destruct (not_created _ _ _ Hno Hd).
  - eauto.
Qed.

Lemma scoped_try_catch {A} (m : M (option jstring) A) h :
  scoped m -> (forall e, quiet (h e)) -> scoped (try_catch m h).
Proof.
  intros Hm Hh env w. unfold try_catch.
  destruct (Hm env w) as (evs & Ht & Htr).
  destruct (m env None w) as [[[a|e] l1] w1]; cbn in *.
  - eauto.
  - destruct (Hh e env l1 w1) as (Hl & _ & evs' & Ht' & Hno). rewrite Hl.
    exists (evs ++ evs'). rewrite Ht', Ht, app_assoc. split; [reflexivity|].
    intros d Hd. apply created_app in Hd as [Hd|Hd]; [auto|].
    destruct (not_created _ _ _ Hno Hd).
Qed.

Lemma cleans_quiet {A} (m : M (option jstring) A) : quiet m -> cleans m.
Proof.
  intros Hm env w. destruct (Hm env None w) as (_ & _ & evs & Ht & Hno).
  exists evs. split; [exact Ht|]. intros d Hd. destruct (not_created _ _ _ Hno Hd).
Qed.

Lemma cleans_getenv_bind {A} name (k : option jstring -> M (option jstring) A) :
  (forall v, cleans (k v)) -> cleans (bind (getenv name) k).
Proof. intros Hk env w. apply Hk. Qed.

(** Both [finally] blocks act alike on the world. *)
Lemma release_after {A} (m : M (option jstring) A) (release : M (option jstring) unit) :
  (forall env l w,
      snd (release env l w) =
      match l with
      | Some (c :: d) =>
          match rm_answer env (c :: d) with
          | None => {| fs := filter (fun p => under (c :: d) p = false) (fs w);
                       trace := trace w ++ [ERm (c :: d)] |}
          | Some _ => log_event (ERm (c :: d)) w
          end
      | _ => w
      end) ->
  scoped m -> cleans (try_finally m release).
Proof.
  intros Hrel Hm env w. unfold try_finally.
  destruct (Hm env w) as (evs & Ht & Htr).
  destruct (m env None w) as [[o l1] w1]; cbn in *.
  specialize (Hrel env l1 w1).
  destruct (release env l1 w1) as [[[[]|e] l2] w2]; cbn in *; subst w2.
  all: destruct l1 as [[|c d0]|].
  all: try (exists evs; split; [exact Ht|]; intros d Hd;
            apply Htr in Hd as [Hd Hne]; congruence).
  all: exists (evs ++ [ERm (c :: d0)]).
  all: split; [destruct (rm_answer env (c :: d0)); cbn; rewrite Ht, app_assoc; reflexivity|].
  all: intros d Hd; apply created_app in Hd as [Hd|Hd];
    [|destruct Hd as (p & s & Hin & _); apply list_elem_of_singleton in Hin; discriminate].
  all: apply Htr in Hd as [Hd _]; injection Hd as <-.
  all: split; [apply last_snoc|].
  all: intros Hrm p Hp; rewrite Hrm in Hp; cbn in Hp.
  all: apply elem_of_filter in Hp as [Hp _]; exact Hp.
Qed.

Lemma cleans_release_workspace {A} (m : M (option jstring) A) :
  scoped m -> cleans (try_finally m release_workspace).
Proof.
  apply release_after. intros env l w. unfold release_workspace. run_comp.
  destruct l as [[|c d]|]; try reflexivity.
  destruct (rm_answer env (c :: d)); reflexivity.
Qed.

Lemma cleans_release_workspace_logged {A} (m : M (option jstring) A) :
  scoped m -> cleans (try_finally m release_workspace_logged).
Proof.
  apply release_after. intros env l w. unfold release_workspace_logged. run_comp.
  destruct l as [[|c d]|]; try reflexivity.
  destruct (rm_answer env (c :: d)); reflexivity.
Qed.

Lemma cleans_checkDependencies u : cleans (checkDependencies u).
Proof.
  apply cleans_release_workspace, scoped_bind_r; [apply scoped_acquire_workspace|].
  intros d. apply quiet_try_catch; [apply quiet_dependency_report|intros; apply quiet_ret].
Qed.

Lemma cleans_formatCode u : cleans (formatCode u).
Proof.
  apply cleans_release_workspace, scoped_bind_r; [apply scoped_acquire_workspace|].
  intros d. repeat quiet_step.
Qed.

Lemma cleans_fixLintErrors u : cleans (fixLintErrors u).
Proof.
  apply cleans_release_workspace, scoped_bind_r; [apply scoped_acquire_workspace|].
  intros d. repeat quiet_step.
Qed.

Lemma cleans_runTests u c : cleans (runTests u c).
Proof.
  unfold runTests. apply cleans_getenv_bind. intros nosana.
  assert (Hlocal : forall url, cleans (runTests_local url c)).
  { intros url. apply cleans_release_workspace_logged, scoped_try_catch.
    - apply scoped_bind_r; [apply scoped_acquire_workspace|].
      intros d. repeat quiet_step.
    - intros e. apply quiet_ret. }
  destruct nosana as [flag|], u as [[|c0 u]|];
    try (apply cleans_quiet, quiet_ret); try apply Hlocal.
  destruct (streq flag (js "true")); [|apply Hlocal].
  apply cleans_quiet, quiet_runTests_remote.
Qed.

Lemma cleans_analyzeRepository u b : cleans (analyzeRepository u b).
Proof.
  apply cleans_release_workspace_logged, scoped_try_catch; [|intros; apply quiet_ret].
  destruct (search repo_url_regex 2 u) as [m|]; [|apply scoped_quiet, quiet_throw].
  apply scoped_bind_l; [apply quiet_getenv|]. intros token.
  apply scoped_bind_l; [apply quiet_fetch|]. intros repoResp.
  destruct (negb (ok repoResp)); [apply scoped_quiet, quiet_throw|].
  apply scoped_bind_l; [apply quiet_response_json|]. intros repoJson.
  apply scoped_bind_r; [apply scoped_acquire_workspace|].
  intros d. repeat quiet_step. apply quiet_ci_issues.
Qed.

(** C1: whichever operation acquires a workspace (dependency check,
    format, lint-fix, test run, repository analysis), if [mkdtemp]
    created a directory during the operation, then the last external
    call of the operation is the recursive forced removal of exactly that
    directory, on every exit path; and when that removal succeeds no path
    at or below the directory exists when the operation returns. *)
Theorem workspace_removed_on_every_exit (op : workspace_op) (env : environment)
    (w : world) (prefix suffix : jstring) :
  EMkdtemp prefix ∈ calls_of op env w ->
  mkdtemp_answer env prefix = Ret suffix ->
  last (calls_of op env w) = Some (ERm (prefix ++ suffix))
  /\ (rm_answer env (prefix ++ suffix) = None ->
      forall p, p ∈ fs (world_after op env w) -> under (prefix ++ suffix) p = false).
Proof.
  intros Hin Hans.
  assert (Hc : exists evs, trace (world_after op env w) = trace w ++ evs
             /\ forall d, created env evs d ->
                  last evs = Some (ERm d)
                  /\ (rm_answer env d = None ->
                      forall p, p ∈ fs (world_after op env w) -> under d p = false)).
  { destruct op; cbn [world_after].
    - apply cleans_checkDependencies.
    - apply cleans_formatCode.
    - apply cleans_fixLintErrors.
    - apply cleans_runTests.
    - apply cleans_analyzeRepository. }
  destruct Hc as (evs & Ht & Hc). unfold calls_of in *.
  rewrite Ht, drop_app_length in *. apply Hc. exists prefix, suffix. auto.
Qed.

Lemma workspace_removed_witness :
  last (calls_of (RunTests (Some Scenario.repo_url) None) Scenario.jest_machine
          Scenario.empty_world)
  = Some (ERm (js "/tmp/reposage-test-" ++ js "a1B2c3"))
  /\ (rm_answer Scenario.jest_machine (js "/tmp/reposage-test-" ++ js "a1B2c3") = None ->
      forall p,
        p ∈ fs (world_after (RunTests (Some Scenario.repo_url) None)
                  Scenario.jest_machine Scenario.empty_world) ->
        under (js "/tmp/reposage-test-" ++ js "a1B2c3") p = false).
Proof.
  apply (workspace_removed_on_every_exit (RunTests (Some Scenario.repo_url) None)
           Scenario.jest_machine Scenario.empty_world
           (js "/tmp/reposage-test-") (js "a1B2c3")).
  - unfold calls_of, world_after.
    assert (H : trace (snd (runTests (Some Scenario.repo_url) None Scenario.jest_machine
                             None Scenario.empty_world))
                = EMkdtemp (js "/tmp/reposage-test-")
                  :: drop 1 (trace (snd (runTests (Some Scenario.repo_url) None
                                           Scenario.jest_machine None
                                           Scenario.empty_world))))
      by (vm_compute; reflexivity).
    rewrite H. cbn [Scenario.empty_world trace length drop]. apply list_elem_of_here.
  - reflexivity.
Defined.

(** ** The dependency check *)

Lemma acquire_workspace_run name url args env w :
  acquire_workspace name url args env None w =
  let prefix := os_tmpdir env ++ js "/" ++ js name in
  match mkdtemp_answer env prefix with
  | Ret suffix =>
      let d := prefix ++ suffix in
      match clone_answer env url d args with
      | None =>
          (Ret d, Some d,
           {| fs := {[d ++ js "/.git"]} ∪ ({[d]} ∪ fs w);
              trace := (trace w ++ [EMkdtemp prefix]) ++ [EClone url d args] |})
      | Some e =>
          (Throw e, Some d,
           {| fs := {[d]} ∪ fs w;
              trace := (trace w ++ [EMkdtemp prefix]) ++ [EClone url d args] |})
      end
  | Throw e => (Throw e, None, log_event (EMkdtemp prefix) w)
  end.
Proof.
  unfold acquire_workspace. run_comp.
  destruct (mkdtemp_answer env _); [|reflexivity].
  destruct (clone_answer env _ _ _); reflexivity.
Qed.

Lemma release_workspace_run env c d w :
  release_workspace env (Some (c :: d)) w =
  match rm_answer env (c :: d) with
  | None => (Ret tt, Some (c :: d),
             {| fs := filter (fun p => under (c :: d) p = false) (fs w);
                trace := trace w ++ [ERm (c :: d)] |})
  | Some e => (Throw e, Some (c :: d), log_event (ERm (c :: d)) w)
  end.
Proof. unfold release_workspace. run_comp. destruct (rm_answer env _); reflexivity. Qed.

Lemma dependency_report_fails d env l w :
  (exists e, exec_answer env (js "npm outdated --json") (exec_default d) = Throw e)
  \/ (exists e, exec_answer env (js "npm audit --json") (exec_default d) = Throw e) ->
  exists e w', dependency_report d env l w = (Throw e, l, w').
Proof.
  intros H. unfold dependency_report. run_comp.
  destruct (exec_answer env (js "npm outdated --json") _) as [out1|e1] eqn:H1; [|eauto].
  destruct H as [[e He]|[e He]]; [discriminate|].
  destruct (JSON_parse_throw _); [|eauto].
  rewrite He. eauto.
Qed.

(** When the clone succeeded and [npm outdated] or [npm audit] fails, as
    they do in a checkout without manifest, and the removal of the
    workspace succeeds, the dependency check returns [outdated: []],
    [vulnerabilities: []] and a non-empty summary. *)
Theorem no_manifest_yields_empty_report (env : environment) (w : world)
    (repoUrl suffix : jstring) :
  mkdtemp_answer env (os_tmpdir env ++ js "/" ++ js "reposage-deps-") = Ret suffix ->
  clone_answer env repoUrl (deps_dir env suffix) [js "--depth"; js "1"] = None ->
  (exists e, exec_answer env (js "npm outdated --json")
               (exec_default (deps_dir env suffix)) = Throw e)
  \/ (exists e, exec_answer env (js "npm audit --json")
                  (exec_default (deps_dir env suffix)) = Throw e) ->
  rm_answer env (deps_dir env suffix) = None ->
  exists report,
    fst (fst (checkDependencies repoUrl env None w)) = Ret report
    /\ outdated report = []
    /\ vulnerabilities report = []
    /\ summary report <> [].
Proof.
  intros Hmk Hcl Hex Hrm. exists no_manifest_report.
  split; [|repeat split; discriminate].
  unfold checkDependencies, try_finally, bind. rewrite acquire_workspace_run.
  cbv zeta. rewrite Hmk. fold (deps_dir env suffix). rewrite Hcl.
  unfold try_catch.
  edestruct (dependency_report_fails (deps_dir env suffix)) as (e & w' & ->); [exact Hex|].
  unfold ret.
  destruct (tmp_dir_cons (os_tmpdir env) "reposage-deps-" suffix) as (c & t & Hd).
  unfold deps_dir in *. rewrite Hd in *.
  rewrite release_workspace_run, Hrm. reflexivity.
Qed.

Lemma no_manifest_witness :
  exists report,
    fst (fst (checkDependencies Scenario.repo_url (Scenario.machine [] []) None
                Scenario.empty_world)) = Ret report
    /\ outdated report = []
    /\ vulnerabilities report = []
    /\ summary report <> [].
Proof.
  apply (no_manifest_yields_empty_report (Scenario.machine [] []) Scenario.empty_world
           Scenario.repo_url (js "a1B2c3")).
  - reflexivity.
  - reflexivity.
  - left. exists Scenario.command_failed. reflexivity.
  - reflexivity.
Defined.


(** C7 (the code departs from the claim): [checkDependencies] removes the
    directory in a [finally] block outside any [try].  In a checkout
    without manifest that cannot be removed, [npm outdated] fails, the
    inner [catch] prepares the empty report, and the error of [rm]
    replaces it: the dependency check raises.  On the same machine
    [runTests], whose [finally] block guards the removal, returns its
    report. *)
Theorem no_manifest_report_is_lost_to_cleanup :
  let r := checkDependencies Scenario.repo_url locked_checkout_machine None Scenario.empty_world in
  exec_answer locked_checkout_machine (js "npm outdated --json")
    (exec_default (js "/tmp/reposage-deps-a1B2c3"))
  = Throw Scenario.command_failed
  /\ fst (fst r) = Throw resource_busy
  /\ trace (snd r)
     = [EMkdtemp (js "/tmp/reposage-deps-");
        EClone Scenario.repo_url (js "/tmp/reposage-deps-a1B2c3") [js "--depth"; js "1"];
        EExec (js "npm outdated --json") (exec_default (js "/tmp/reposage-deps-a1B2c3"));
        ERm (js "/tmp/reposage-deps-a1B2c3")]
  /\ (forall tmpDir,
        fst (fst (try_catch (dependency_report (js "/tmp/reposage-deps-a1B2c3"))
                    (fun _ => ret no_manifest_report) locked_checkout_machine tmpDir
                    Scenario.empty_world))
        = Ret no_manifest_report)
  /\ fst (fst (runTests (Some Scenario.repo_url) None locked_checkout_machine None Scenario.empty_world))
     = Ret (failed_run 1 [js "Test execution failed: Command failed: npm"]
              (js "npm error code ENOENT")).
Proof.
  cbv zeta. repeat split; try (intros tmpDir); vm_compute; reflexivity.
Qed.



(** ** Reading a file *)

Lemma includes_app p a b : includes p (a ++ p ++ b) = true.
Proof.
  assert (Hs : forall p b, startsWith p (p ++ b) = true).
  { clear. induction p as [|c p IH]; intros b; [reflexivity|]. cbn.
    rewrite N.eqb_refl, IH. reflexivity. }
  induction a as [|c a IH]; cbn [app].
  - destruct (p ++ b) eqn:E; cbn; rewrite <- ?E, Hs; reflexivity.
  - cbn. rewrite IH. apply orb_true_r.
Qed.

Lemma includes_suffix p a : includes p (a ++ p) = true.
Proof. rewrite <- (app_nil_r p) at 2. apply includes_app. Qed.

Import Scenario.

Lemma branch_candidates_amended branch def :
  branch_candidates branch def = amended_branch_candidates branch def.
Proof.
  unfold branch_candidates, amended_branch_candidates, explicit_branch.
  destruct branch as [[|c b]|]; cbn [existsb]; destruct (truthy def) eqn:Hd;
    cbn; try reflexivity; try (destruct def; try discriminate; reflexivity).
  rewrite orb_false_r. destruct (same_value def (JStr (c :: b))); reflexivity.
Qed.

Lemma try_branch_run repoName filePath token b env w :
  try_branch repoName filePath token b env tt w =
  (branch_outcome env repoName filePath token b, tt,
   log_event (EFetch (content_request repoName filePath token b)) w).
Proof.
  unfold branch_outcome, try_branch, parseJsonSafe, response_json. run_comp.
  destruct (fetch_answer env _) as [resp|e]; [|reflexivity].
  destruct (JSON_parse (body resp)) as [payload|]; cbn [fst snd].
  all: destruct (ok resp); [|reflexivity].
  all: repeat match goal with
         | |- context [if ?c then _ else _] => destruct c; try reflexivity
         | |- context [match prop ?k ?v with _ => _ end] => destruct (prop k v); try reflexivity
         end.
Qed.

Lemma try_branches_first_success env repoName filePath token pre b post file lastError w :
  Forall (fun c => branch_file env repoName filePath token c = None) pre ->
  branch_file env repoName filePath token b = Some file ->
  try_branches repoName filePath token (pre ++ b :: post) lastError env tt w =
  (Ret (inl file), tt,
   {| fs := fs w;
      trace := trace w ++ map (fun c => EFetch (content_request repoName filePath token c))
                            (pre ++ [b]) |}).
Proof.
  intros Hpre Hb. revert lastError w.
  induction Hpre as [|c pre Hc Hpre IH]; intros lastError w; cbn [app try_branches].
  - unfold bind, try_catch. rewrite try_branch_run.
    unfold branch_file in Hb. destruct (branch_outcome _ _ _ _ b) as [[f|e]|e];
      try discriminate. injection Hb as ->. reflexivity.
  - unfold bind, try_catch. rewrite try_branch_run.
    unfold branch_file in Hc.
    destruct (branch_outcome _ _ _ _ c) as [[f|e]|e]; try discriminate;
      unfold ret; rewrite IH; unfold log_event; cbn [fs trace map];
      rewrite <- app_assoc; reflexivity.
Qed.

Lemma getDefaultBranch_run repoName token env w :
  try_catch (getDefaultBranch repoName token) (fun _ => ret JNull) env tt w =
  (Ret (default_branch_seen env repoName token), tt,
   log_event (EFetch (GET (api_repo_url repoName) (github_headers token))) w).
Proof.
  unfold default_branch_seen, getDefaultBranch, response_json. run_comp.
  destruct (fetch_answer env _) as [resp|e]; [|reflexivity].
  destruct (negb (ok resp)); [reflexivity|].
  destruct (JSON_parse (body resp)); reflexivity.
Qed.





(** What is tried is the list up to its first readable candidate. *)
Lemma tried_up_to_first_file env repoName filePath token pre b post file :
  Forall (fun c => branch_file env repoName filePath token c = None) pre ->
  branch_file env repoName filePath token b = Some file ->
  tried env repoName filePath token (pre ++ b :: post) = pre ++ [b]
  /\ first_file env repoName filePath token (pre ++ b :: post) = Some file.
Proof.
  intros Hpre Hb. induction Hpre as [|c pre Hc Hpre [IH1 IH2]]; cbn [app tried first_file].
  - rewrite Hb. auto.
  - rewrite Hc, IH1, IH2. auto.
Qed.




(** A candidate answered with status 200 and a directory listing does
    not end the call: it counts as failed and the next one is asked. *)
Example directory_answer_is_a_failure :
  let r := readFileFromRepo repo_url readme on_dev directory_machine tt empty_world in
  fetch_answer directory_machine
    (content_request (js "o/r") readme (js "ghp_token") (JStr (js "dev")))
  = http 200 "OK" (jsq "[{'name':'a.md','path':'README.md/a.md','type':'file'}]")
  /\ branch_outcome directory_machine (js "o/r") readme (js "ghp_token") (JStr (js "dev"))
     = Throw (Error (js "Path 'README.md' is a directory, not a file"))
  /\ fst (fst r)
     = Ret {| content := js "# R"; path := readme; size := JNum (js "3");
              encoding := js "base64" |}
  /\ trace (snd r)
     = [EFetch (GET (api_repo_url (js "o/r")) (github_headers (js "ghp_token")));
        EFetch (content_request (js "o/r") readme (js "ghp_token") (JStr (js "dev")));
        EFetch (content_request (js "o/r") readme (js "ghp_token") (JStr (js "main")))].
Proof. cbv zeta. repeat split; vm_compute; reflexivity. Qed.

Lemma explain_branch_returns repoName filePath token branch cands env w :
  fst (fst (explain_branch repoName filePath token branch cands env tt w)) = Ret tt.
Proof.
  unfold explain_branch, doesBranchExist. run_comp.
  destruct (encodeURIComponent _); [|reflexivity].
  destruct (fetch_answer env _) as [resp|e]; [|reflexivity].
  destruct (negb (ok resp)); reflexivity.
Qed.

Lemma branch_candidates_nonempty branch def : branch_candidates branch def <> [].
Proof.
  rewrite branch_candidates_amended. unfold amended_branch_candidates.
  destruct (explicit_branch branch), (truthy def); try discriminate.
  destruct (same_value _ _); discriminate.
Qed.

Lemma try_branches_all_fail env repoName filePath token cands lastError w :
  Forall (fun c => branch_file env repoName filePath token c = None) cands ->
  exists e w',
    try_branches repoName filePath token cands lastError env tt w = (Ret (inr e), tt, w')
    /\ (cands <> [] -> exists err, e = Some err).
Proof.
  intros Hall. revert lastError w.
  induction Hall as [|c cands Hc Hall IH]; intros lastError w; cbn [try_branches].
  - unfold ret. eexists _, _. split; [reflexivity|]. congruence.
  - unfold bind, try_catch. rewrite try_branch_run.
    unfold branch_file in Hc.
    destruct (branch_outcome _ _ _ _ c) as [[f|e]|e]; try discriminate; unfold ret.
    all: destruct (IH (Some e) (log_event (EFetch (content_request repoName filePath token c)) w))
      as (e' & w' & Hrun & Hsome); rewrite Hrun; eexists _, _; (split; [reflexivity|]).
    all: intros _; destruct cands as [|c' cands]; [|apply Hsome; discriminate].
    all: cbn in Hrun; injection Hrun as <- _; eauto.
Qed.

(** When no candidate yields a file the call fails, whatever the probe
    answers, with the message that carries the last per-branch error. *)
Lemma read_file_failure_carries_last_error env w repoUrl filePath branch ids token :
  let repoName := owner ids ++ js "/" ++ repo ids in
  extractRepoIdentifiers repoUrl = Ret ids ->
  process_env env "GITHUB_TOKEN" = Some token ->
  token <> [] ->
  Forall (fun c => branch_file env repoName filePath token c = None)
    (branch_candidates branch (default_branch_seen env repoName token)) ->
  exists err,
    fst (fst (readFileFromRepo repoUrl filePath branch env tt w))
    = Throw (Error (fetch_failed_message repoName filePath (Some err)))
    /\ includes (message err) (fetch_failed_message repoName filePath (Some err)) = true.
Proof.
  intros repoName Hids Htok Hne Hall.
  unfold readFileFromRepo. rewrite Hids.
  unfold bind at 1, lift at 1. fold repoName.
  unfold bind at 1, getenv at 1. rewrite Htok.
  destruct token as [|c t]; [congruence|].
  unfold bind at 1. rewrite getDefaultBranch_run.
  unfold bind at 1.
  edestruct (try_branches_all_fail env repoName filePath (c :: t)) as (e & w' & -> & Hsome);
    [exact Hall|].
  destruct (Hsome (branch_candidates_nonempty _ _)) as [err ->].
  exists err. split.
  - unfold bind.
    pose proof (explain_branch_returns repoName filePath (c :: t) branch
                  (branch_candidates branch (default_branch_seen env repoName (c :: t)))
                  env w') as Hex.
    destruct (explain_branch _ _ _ _ _ env tt w') as [[o l] w'']. cbn in Hex. subst o.
    reflexivity.
  - unfold fetch_failed_message, last_error_text. rewrite !app_assoc.
    rewrite <- app_assoc. apply includes_app.
Qed.

(** C3 (the code departs from the claim): the diagnostic probe runs, and
    when it finds the branch missing the error naming the branch is
    raised inside a [try] whose own [catch] discards it, so
    [explain_branch] always completes normally.  Asked for a file on the
    branch [dev], which does not exist, of a repository whose default
    branch [main] does not hold the file, the call probes [dev], is
    answered 404, and fails with the error of the last candidate,
    [main]: the message does not mention [dev] at all. *)
Theorem missing_branch_is_not_named :
  (forall env w repoName filePath token branch cands,
      fst (fst (explain_branch repoName filePath token branch cands env tt w)) = Ret tt)
  /\ let r := readFileFromRepo repo_url readme on_dev absent_branch_machine tt empty_world in
     fst (fst r)
     = Throw (Error (js "Failed to fetch file 'README.md' from o/r. Last error: Branch 'main': Not Found - Not Found. Path might not exist. Use list-repo-files to explore directories."))
     /\ trace (snd r)
        = [EFetch (GET (js "https://api.github.com/repos/o/r")
                     (github_headers (js "ghp_token")));
           EFetch (GET (js "https://api.github.com/repos/o/r/contents/README.md?ref=dev")
                     (github_headers (js "ghp_token")));
           EFetch (GET (js "https://api.github.com/repos/o/r/contents/README.md?ref=main")
                     (github_headers (js "ghp_token")));
           EFetch (GET (js "https://api.github.com/repos/o/r/branches/dev")
                     (github_headers (js "ghp_token")))]
     /\ fetch_answer absent_branch_machine
          (GET (js "https://api.github.com/repos/o/r/branches/dev")
             (github_headers (js "ghp_token")))
        = http 404 "Not Found" (jsq "{'message':'Branch not found'}")
     /\ match fst (fst r) with
        | Throw e => includes (js "dev") (message e)
        | Ret _ => true
        end = false.
Proof.
  split; [intros; apply explain_branch_returns|].
  vm_compute. repeat split; reflexivity.
Qed.

(** ** Publication *)

(** The publication step of the review never throws; the shared step of
    the other three helpers returns on an HTTP rejection and throws on a
    transport error. *)
Lemma publish_review_returns publish token prMeta payload env w :
  exists url, fst (fst (publish_review publish token prMeta payload env tt w)) = Ret url.
Proof.
  unfold publish_review, parseJsonSafe, response_json. run_comp.
  destruct (publish && negb (streq token [])); [|eauto].
  destruct (prop_strict "comments_url" prMeta); [|eauto].
  destruct (fetch_answer env _) as [resp|e]; [|eauto].
  destruct (ok resp); [|eauto].
  destruct (JSON_parse (body resp)); eauto.
Qed.

Lemma publish_comment_rejected publish token prMeta payload env w resp :
  fetch_answer env (POST (to_string (prop "comments_url" prMeta)) (write_headers token)
                      (JObj [(js "body", payload)])) = Ret resp ->
  ok resp = false ->
  fst (fst (publish_comment publish token prMeta payload env tt w)) = Ret JUndefined.
Proof.
  intros Hpost Hok. unfold publish_comment, parseJsonSafe, response_json. run_comp.
  destruct (publish && negb (streq token []) && truthy (prop "comments_url" prMeta));
    [|reflexivity].
  rewrite Hpost, Hok. destruct (JSON_parse (body resp)); reflexivity.
Qed.

Lemma publish_comment_transport_error token prMeta payload env w e :
  token <> [] ->
  truthy (prop "comments_url" prMeta) = true ->
  fetch_answer env (POST (to_string (prop "comments_url" prMeta)) (write_headers token)
                      (JObj [(js "body", payload)])) = Throw e ->
  fst (fst (publish_comment true token prMeta payload env tt w)) = Throw e.
Proof.
  intros Hne Hurl Hpost. unfold publish_comment. run_comp.
  destruct token as [|c t]; [congruence|].
  rewrite Hurl. change (true && negb (streq (c :: t) []) && true) with true.
  cbv beta iota. rewrite Hpost. reflexivity.
Qed.

(** C4 (the code departs from the claim): when the post of the comment
    fails in transport, [aiImprovePullRequest], [aiAskPullRequest] and
    [aiDraftChangelog] fail with the transport error and the generated
    text is lost; only [aiReviewPullRequest], whose publication step sits
    in a [try], returns the text with [publishedUrl] absent.  An HTTP
    rejection of the post is harmless in all of them (shown here for
    [aiImprovePullRequest]). *)
Theorem publish_transport_error_fails_operation :
  fst (fst (aiImprovePullRequest repo_url 7 true offline_comments_machine tt empty_world))
  = Throw network_error
  /\ fst (fst (aiAskPullRequest repo_url 7 (js "Why?") true offline_comments_machine tt empty_world))
     = Throw network_error
  /\ fst (fst (aiDraftChangelog repo_url 7 true offline_comments_machine tt empty_world))
     = Throw network_error
  /\ fst (fst (aiReviewPullRequest repo_url 7 true offline_comments_machine tt empty_world))
     = Ret lgtm
  /\ fst (fst (aiImprovePullRequest repo_url 7 true forbidden_comments_machine tt empty_world))
     = Ret lgtm.
Proof. vm_compute. repeat split; reflexivity. Qed.

(** C5, as stated, fails: when the PR metadata carries no [comments_url],
    a rejected PATCH is followed by no comment at all; the operation
    still reports success. *)
Lemma no_comment_without_comments_url :
  let r := aiDescribePullRequest repo_url 7 true no_comments_url_machine tt empty_world in
  fst (fst r)
  = Ret {| describe_success := true; title := JStr (js "Fix the crash");
           description := JStr (js "Guards the null case");
           describe_model := js "gpt-4o-mini"; published := false |}
  /\ calls (trace (snd r))
     = [(js "GET", js "https://api.github.com/repos/o/r/pulls/7");
        (js "GET", js "https://api.github.com/repos/o/r/pulls/7/files?per_page=100");
        (js "POST", openai_url);
        (js "PATCH", js "https://api.github.com/repos/o/r/pulls/7")]
  /\ comments_url_7 ∉ map snd (calls (trace (snd r))).
Proof.
  cbv zeta. split; [vm_compute; reflexivity|].
  split; [vm_compute; reflexivity|].
  intros H. apply list_elem_of_In in H. vm_compute in H.
  repeat destruct H as [H|H]; try discriminate H. exact H.
Qed.

Lemma describe_publish_fallback env w token prMetaUrl prMeta title description resp :
  token <> [] ->
  fetch_answer env (PATCH prMetaUrl (write_headers token)
                      (JObj [(js "title", title); (js "body", description)])) = Ret resp ->
  ok resp = false ->
  truthy (prop "comments_url" prMeta) = true ->
  describe_publish true token prMetaUrl prMeta title description env tt w =
  (Ret false, tt,
   {| fs := fs w;
      trace := trace w ++
        [EFetch (PATCH prMetaUrl (write_headers token)
                   (JObj [(js "title", title); (js "body", description)]));
         EFetch (POST (to_string (prop "comments_url" prMeta)) (write_headers token)
                   (JObj [(js "body", JStr (suggestion_comment title description))]))] |}).
Proof.
  intros Hne Hpatch Hok Hurl. unfold describe_publish.
  destruct token as [|c t]; [congruence|].
  change (true && negb (streq (c :: t) [])) with true. cbv iota.
  run_comp. rewrite Hpatch, Hok.
  assert (Hn : nullish prMeta = false) by (destruct prMeta; cbn in *; congruence).
  unfold prop_strict. rewrite Hn, Hurl. unfold log_event; cbn [fs trace].
  rewrite <- app_assoc.
  destruct (fetch_answer env (POST _ _ _)); reflexivity.
Qed.

(** C5 (amended): when [aiDescribePullRequest] is called with
    [publish = true] and a write token, the PATCH of title and body is
    rejected, and the PR metadata carries a non-empty [comments_url], the
    operation posts to that URL one comment whose body contains the
    suggested title and the suggested description, and returns
    [success: true] with [published: false], whatever becomes of that
    post. *)
Theorem describe_falls_back_to_comment (env : environment) (w w1 : world)
    (repoUrl : jstring) (prNumber : N) (ids : GitHubRepoIdentifiers)
    (cfg : llm_config) (draft : Draft) (resp : response) :
  let repoName := owner ids ++ js "/" ++ repo ids in
  let patch :=
    PATCH (pr_url repoName prNumber) (write_headers (ghToken cfg))
      (JObj [(js "title", draft_title draft); (js "body", draft_description draft)]) in
  let comment := suggestion_comment (draft_title draft) (draft_description draft) in
  extractRepoIdentifiers repoUrl = Ret ids ->
  read_llm_config env tt w = (Ret cfg, tt, w) ->
  ghToken cfg <> [] ->
  describe_draft repoName prNumber cfg env tt w = (Ret draft, tt, w1) ->
  fetch_answer env patch = Ret resp ->
  ok resp = false ->
  truthy (prop "comments_url" (draft_meta draft)) = true ->
  aiDescribePullRequest repoUrl prNumber true env tt w =
  (Ret {| describe_success := true;
          title := draft_title draft;
          description := draft_description draft;
          describe_model := openaiModel cfg;
          published := false |}, tt,
   {| fs := fs w1;
      trace := trace w1 ++
        [EFetch patch;
         EFetch (POST (to_string (prop "comments_url" (draft_meta draft)))
                   (write_headers (ghToken cfg))
                   (JObj [(js "body", JStr comment)]))] |})
  /\ includes (to_string (draft_title draft)) comment = true
  /\ includes (to_string (draft_description draft)) comment = true.
Proof.
  intros repoName patch comment Hids Hcfg Hne Hdraft Hpatch Hok Hurl.
  split; [|split].
  - unfold aiDescribePullRequest. rewrite Hids.
    unfold bind at 1, lift at 1. fold repoName.
    unfold bind at 1. rewrite Hcfg.
    unfold bind at 1. rewrite Hdraft.
    unfold bind at 1.
    rewrite (describe_publish_fallback _ _ _ _ _ _ _ resp Hne Hpatch Hok Hurl).
    reflexivity.
  - unfold comment, suggestion_comment.
    rewrite (app_assoc (js "Suggested Title:") [10]). apply includes_app.
  - unfold comment, suggestion_comment.
    rewrite !app_assoc. apply includes_suffix.
Qed.

Lemma describe_falls_back_witness :
  exists result w',
    aiDescribePullRequest repo_url 7 true patch_forbidden_machine tt empty_world
    = (Ret result, tt, w')
    /\ published result = false /\ describe_success result = true
    /\ calls (drop 3 (trace w'))
       = [(js "PATCH", js "https://api.github.com/repos/o/r/pulls/7");
          (js "POST", comments_url_7)].
Proof.
  eexists _, _. split.
  - refine (proj1 (describe_falls_back_to_comment patch_forbidden_machine empty_world _
              repo_url 7 {| owner := js "o"; repo := js "r" |} _ _ _ _ _ _ _ _ _ _)).
    + vm_compute; reflexivity.
    + vm_compute; reflexivity.
    + vm_compute; discriminate.
    + vm_compute; reflexivity.
    + vm_compute; reflexivity.
    + vm_compute; reflexivity.
    + vm_compute; reflexivity.
  - vm_compute. repeat split; reflexivity.
Defined.

(** ** Labels *)

Lemma trimStart_split s : exists sp, s = sp ++ trimStart s.
Proof.
  induction s as [|c s [sp IH]]; [exists []; reflexivity|]. cbn.
  destruct (is_space c); [exists (c :: sp); cbn; congruence|exists []; reflexivity].
Qed.

Lemma trimStart_head s :
  match trimStart s with
  | [] => True
  | c :: _ => is_space c = false
  end.
Proof.
  induction s as [|c s IH]; [exact I|]. cbn.
  destruct (is_space c) eqn:Hc; [exact IH|exact Hc].
Qed.

Lemma trimStart_fixed s :
  match s with [] => True | c :: _ => is_space c = false end -> trimStart s = s.
Proof. destruct s as [|c s]; [reflexivity|]. cbn. intros ->. reflexivity. Qed.

Lemma trimStart_idemp s : trimStart (trimStart s) = trimStart s.
Proof. apply trimStart_fixed, trimStart_head. Qed.

Lemma trim_idemp s : trim (trim s) = trim s.
Proof.
  unfold trim, trimEnd.
  set (a := trimStart s). set (b := trimStart (rev a)).
  assert (Hb : trimStart (rev b) = rev b).
  { apply trimStart_fixed.
    destruct (trimStart_split (rev a)) as [sp Hsp]. fold b in Hsp.
    apply (f_equal (@rev N)) in Hsp. rewrite rev_involutive, rev_app_distr in Hsp.
    pose proof (trimStart_head s) as Ha. fold a in Ha. rewrite Hsp in Ha.
    destruct (rev b); [exact I|exact Ha]. }
  rewrite Hb, rev_involutive. unfold b. rewrite trimStart_idemp. reflexivity.
Qed.

Lemma omap_Ret {A B} (f : A -> outcome B) l bs :
  map_outcome f l = Ret bs -> Forall2 (fun a b => f a = Ret b) l bs.
Proof.
  revert bs. induction l as [|a l IH]; intros bs; cbn.
  - intros [= <-]. constructor.
  - destruct (f a) as [b|e] eqn:Hfa; [|discriminate]. cbn.
    destruct (map_outcome f l) as [bs'|e]; [|discriminate]. cbn.
    intros [= <-]. constructor; auto.
Qed.

Lemma array_slice0_length {A} (n : Z) (l : list A) :
  (0 <= n)%Z -> (Z.of_nat (length (array_slice0 n l)) <= n)%Z.
Proof.
  intros Hn. unfold array_slice0.
  destruct (Z.ltb_spec n 0); [lia|]. rewrite length_take. lia.
Qed.

Lemma label_list_capped maxLabels parsed labels :
  (0 <= maxLabels)%Z ->
  label_list maxLabels parsed = Ret labels ->
  (Z.of_nat (length labels) <= maxLabels)%Z
  /\ Forall (fun s => trim s = s /\ s <> []) labels.
Proof.
  intros Hn. unfold label_list.
  destruct (or_else _ _) as [| | | | |items|]; try discriminate.
  destruct (map_outcome _ _) as [trimmed|] eqn:Hom; [|discriminate]. cbn.
  intros [= <-]. apply omap_Ret in Hom.
  pose proof (array_slice0_length maxLabels items Hn) as Hlen.
  apply Forall2_length in Hom as Hl. split.
  - apply Z.le_trans with (Z.of_nat (length trimmed)); [|lia].
    apply Nat2Z.inj_le, length_filter.
  - apply Forall_forall. intros s Hs. apply list_elem_of_filter in Hs as [Hne Hs].
    split; [|exact Hne].
    apply list_elem_of_lookup_1 in Hs as [i Hi].
    eapply Forall2_lookup_r in Hom as (v & _ & Hv); [|exact Hi].
    destruct v; try discriminate. injection Hv as <-. apply trim_idemp.
Qed.

Section Emits.
Context {L : Type} (P : event -> Prop).

Lemma emits_silent {A} (m : M L A) :
  (forall env l w, trace (snd (m env l w)) = trace w) -> emits P m.
Proof.
  intros H env l w. exists []. rewrite app_nil_r. split; [apply H|constructor].
Qed.

Lemma emits_ret {A} (a : A) : emits P (ret a : M L A).
Proof. apply emits_silent. reflexivity. Qed.

Lemma emits_throw {A} e : emits P (throw e : M L A).
Proof. apply emits_silent. reflexivity. Qed.

Lemma emits_lift {A} (o : outcome A) : emits P (lift o : M L A).
Proof. apply emits_silent. reflexivity. Qed.

Lemma emits_getenv name : emits P (getenv name : M L _).
Proof. apply emits_silent. reflexivity. Qed.

Lemma emits_bind {A B} (m : M L A) (k : A -> M L B) :
  emits P m -> (forall a, emits P (k a)) -> emits P (bind m k).
Proof.
  intros Hm Hk env l w. unfold bind.
  destruct (Hm env l w) as (evs & Ht & HP).
  destruct (m env l w) as [[[a|e] l1] w1]; cbn in *; [|eauto].
  destruct (Hk a env l1 w1) as (evs' & Ht' & HP').
  exists (evs ++ evs'). rewrite Ht', Ht, app_assoc. split; [reflexivity|].
  apply Forall_app; auto.
Qed.

(** The continuation of a pure step only runs on its result. *)
Lemma emits_bind_lift {A B} (o : outcome A) (k : A -> M L B) :
  (forall a, o = Ret a -> emits P (k a)) -> emits P (bind (lift o) k).
Proof.
  intros Hk. destruct o as [a|e].
  - intros env l w. apply (Hk a eq_refl).
  - apply emits_silent. reflexivity.
Qed.

Lemma emits_try_catch {A} (m : M L A) h :
  emits P m -> (forall e, emits P (h e)) -> emits P (try_catch m h).
Proof.
  intros Hm Hh env l w. unfold try_catch.
  destruct (Hm env l w) as (evs & Ht & HP).
  destruct (m env l w) as [[[a|e] l1] w1]; cbn in *; [eauto|].
  destruct (Hh e env l1 w1) as (evs' & Ht' & HP').
  exists (evs ++ evs'). rewrite Ht', Ht, app_assoc. split; [reflexivity|].
  apply Forall_app; auto.
Qed.

Lemma emits_fetch r : P (EFetch r) -> emits P (fetch r : M L _).
Proof.
  intros HP env l w. exists [EFetch r]. split; [reflexivity|].
  constructor; [exact HP|constructor].
Qed.

Lemma emits_response_json r : emits P (response_json r : M L _).
Proof.
  unfold response_json. destruct (JSON_parse _); [apply emits_ret|apply emits_throw].
Qed.

Lemma emits_parseJsonSafe r : emits P (parseJsonSafe r : M L _).
Proof.
  apply emits_try_catch; [apply emits_response_json|intros; apply emits_ret].
Qed.
End Emits.

Create HintDb emits.
#[local] Hint Resolve emits_ret emits_throw emits_lift emits_getenv
  emits_response_json emits_parseJsonSafe : emits.

Ltac emits_step :=
  match goal with
  | |- emits _ (bind (lift _) _) => apply emits_bind_lift; intros ? ?
  | |- emits _ (bind _ _) => apply emits_bind; [|intros ?]
  | |- emits _ (try_catch _ _) => apply emits_try_catch; [|intros ?]
  | |- emits _ (fetch _) => apply emits_fetch
  | |- emits _ (if ?b then _ else _) => destruct b
  | |- emits _ (match ?x with _ => _ end) => destruct x
  | |- emits _ _ => solve [auto with emits]
  | |- emits _ _ => progress cbv zeta
  end.

Lemma within_cap_no_labels maxLabels e : sent_labels e = None -> within_cap maxLabels e.
Proof. intros H ls Hls. congruence. Qed.

Lemma within_cap_openai maxLabels key mdl temp jm sys user :
  within_cap maxLabels (EFetch (openai_request key mdl temp jm sys user)).
Proof. apply within_cap_no_labels. destruct jm; reflexivity. Qed.

Lemma emits_read_llm_config P : emits P read_llm_config.
Proof. unfold read_llm_config. repeat emits_step. Qed.

Lemma emits_fetch_pr_meta_safe maxLabels repoName prNumber headers :
  emits (within_cap maxLabels) (fetch_pr_meta_safe repoName prNumber headers).
Proof.
  unfold fetch_pr_meta_safe. repeat emits_step.
  apply within_cap_no_labels. reflexivity.
Qed.

Lemma emits_ask_openai_safe maxLabels key mdl temp jm sys user :
  emits (within_cap maxLabels) (ask_openai_safe (openai_request key mdl temp jm sys user)).
Proof. unfold ask_openai_safe. repeat emits_step. apply within_cap_openai. Qed.

Lemma generateAndApplyLabels_emits repoUrl prNumber maxLabels :
  (0 <= maxLabels)%Z ->
  emits (within_cap maxLabels) (generateAndApplyLabels repoUrl prNumber maxLabels).
Proof.
  intros Hn. unfold generateAndApplyLabels.
  apply emits_bind; [apply emits_lift|intros ids].
  apply emits_bind; [apply emits_getenv|intros [[|c t]|]]; try apply emits_throw.
  apply emits_bind; [apply emits_read_llm_config|intros cfg].
  apply emits_bind; [apply emits_fetch_pr_meta_safe|intros prMeta].
  cbv zeta.
  apply emits_bind; [apply emits_ask_openai_safe|intros openaiJson].
  apply emits_bind_lift. intros labels Hlabels.
  apply label_list_capped in Hlabels as [Hlen Hgood]; [|exact Hn].
  repeat emits_step.
  all: intros ls Hls; cbn in Hls; injection Hls as <-.
  all: rewrite length_map; split; [exact Hlen|].
  all: apply Forall_fmap; eapply Forall_impl; [exact Hgood|].
  all: intros s [Ht Hne]; exists s; auto.
Qed.

(** C6, as stated, fails: a negative [maxLabels] makes [slice] count from
    the end of the array, so that with [maxLabels = -1] and three
    proposed labels two labels are sent, more than [maxLabels]. *)
Lemma negative_cap_sends_labels :
  let r := generateAndApplyLabels repo_url 7 (-1) labels_machine tt empty_world in
  last (trace (snd r))
  = Some (EFetch (POST (labels_url (js "o/r") 7) (write_headers (js "ghp_token"))
                    (labels_payload [js "bug"; js "docs"])))
  /\ sent_labels (EFetch (POST (labels_url (js "o/r") 7) (write_headers (js "ghp_token"))
                            (labels_payload [js "bug"; js "docs"])))
     = Some [JStr (js "bug"); JStr (js "docs")]
  /\ ~ within_cap (-1)
        (EFetch (POST (labels_url (js "o/r") 7) (write_headers (js "ghp_token"))
                   (labels_payload [js "bug"; js "docs"]))).
Proof.
  cbv zeta. split; [vm_compute; reflexivity|]. split; [reflexivity|].
  intros H. destruct (H _ eq_refl) as [Hlen _]. cbn in Hlen. lia.
Qed.

(** C6 (amended): for a non-negative [maxLabels], every request of label
    generation that carries labels carries at most [maxLabels] of them,
    each one a trimmed, non-empty string; and with [maxLabels = 2] and the
    model answer [{"labels":["bug","docs","tests"]}] exactly
    [["bug"; "docs"]] is sent to the labels endpoint and returned. *)
Theorem labels_sent_within_cap (env : environment) (w : world)
    (repoUrl : jstring) (prNumber : N) (maxLabels : Z) :
  (0 <= maxLabels)%Z ->
  (forall e ls,
      e ∈ new_calls w (snd (generateAndApplyLabels repoUrl prNumber maxLabels env tt w)) ->
      sent_labels e = Some ls ->
      (Z.of_nat (length ls) <= maxLabels)%Z /\ Forall good_label ls)
  /\ (let r := generateAndApplyLabels repo_url 7 2 labels_machine tt empty_world in
      fst (fst r) = Ret {| labels_success := true; labels := [js "bug"; js "docs"] |}
      /\ omap sent_labels (trace (snd r)) = [[JStr (js "bug"); JStr (js "docs")]]
      /\ last (trace (snd r))
         = Some (EFetch (POST (labels_url (js "o/r") 7) (write_headers (js "ghp_token"))
                           (labels_payload [js "bug"; js "docs"])))).
Proof.
  intros Hn. split.
  - intros e ls He Hls.
    destruct (generateAndApplyLabels_emits repoUrl prNumber maxLabels Hn env tt w)
      as (evs & Ht & HP).
    unfold new_calls in He. rewrite Ht, drop_app_length in He.
    rewrite Forall_forall in HP. exact (HP e He ls Hls).
  - cbv zeta. vm_compute. repeat split; reflexivity.
Qed.

Lemma labels_sent_witness :
  (0 <= 2)%Z
  /\ forall e ls,
       e ∈ new_calls empty_world
             (snd (generateAndApplyLabels repo_url 7 2 labels_machine tt empty_world)) ->
       sent_labels e = Some ls ->
       (Z.of_nat (length ls) <= 2)%Z /\ Forall good_label ls.
Proof.
  split; [lia|].
  apply (labels_sent_within_cap labels_machine empty_world repo_url 7 2). lia.
Defined.

(** * Further properties *)

(** ** The matcher on literals and greedy runs *)

Lemma startsWith_app (p s : jstring) : startsWith p (p ++ s) = true.
Proof.
  induction p as [|c p IH]; [reflexivity|]. cbn. rewrite N.eqb_refl, IH. reflexivity.
Qed.

Lemma startsWith_includes (p s : jstring) : startsWith p s = true -> includes p s = true.
Proof. intros H. destruct s; cbn; rewrite H; reflexivity. Qed.

Lemma includes_cons (p : jstring) (c : N) (s : jstring) :
  includes p (c :: s) = false -> includes p s = false.
Proof. cbn. intros H. apply orb_false_iff in H as [_ H]. exact H. Qed.

Lemma rmatch_rlit (p s : jstring) (caps : captures) (k : cont) :
  rmatch (rlit p) s caps k
  = if startsWith p s then k (drop (length p) s) caps else None.
Proof.
  revert s. induction p as [|c p IH]; intros s; [destruct s; reflexivity|].
  destruct s as [|b s]; [reflexivity|].
  cbn [rlit rmatch rchr startsWith length drop]. rewrite N.eqb_sym.
  destruct (b =? c); [apply IH|reflexivity].
Qed.

(** A pattern that opens with a literal finds nothing in a string that
    does not contain the literal. *)
Lemma search_literal_absent (p : jstring) (r : regex) (n : nat) (s : jstring) :
  includes p s = false -> search (RSeq (rlit p) r) n s = None.
Proof.
  induction s as [|c s IH]; intros H.
  - cbn [search rmatch]. rewrite rmatch_rlit.
    destruct (startsWith p []) eqn:Hs; [|reflexivity].
    apply startsWith_includes in Hs. congruence.
  - cbn [search rmatch]. rewrite rmatch_rlit.
    destruct (startsWith p (c :: s)) eqn:Hs.
    + apply startsWith_includes in Hs. congruence.
    + apply IH. eapply includes_cons, H.
Qed.

(** A greedy run over a character class takes the whole run when the
    continuation accepts what follows. *)
Lemma rmatch_star_run (p : N -> bool) (a b : jstring) (caps : captures) (k : cont)
    (x : jstring * captures) :
  Forall (fun c => p c = true) a ->
  match b with [] => True | c :: _ => p c = false end ->
  k b caps = Some x ->
  rmatch (RStar (RSet p)) (a ++ b) caps k = Some x.
Proof.
  intros Ha Hb Hk. cbn [rmatch].
  generalize (Nat.le_refl (length (a ++ b))).
  generalize (length (a ++ b)) at 2 3 as fuel.
  intros fuel Hfuel. rewrite length_app in Hfuel.
  assert (Hlen : (length a <= fuel)%nat) by lia. clear Hfuel.
  revert fuel Hlen. induction Ha as [|c a Hc Ha IH]; intros fuel Hlen.
  - destruct fuel as [|fuel]; [exact Hk|]. cbn [app].
    destruct b as [|c b]; [exact Hk|]. rewrite Hb. exact Hk.
  - destruct fuel as [|fuel]; [cbn in Hlen; lia|]. cbn [app]. rewrite Hc.
    cbn [length]. rewrite (proj2 (Nat.ltb_lt _ _) (Nat.lt_succ_diag_r _)).
    rewrite IH; [reflexivity|]. cbn in Hlen. lia.
Qed.

Lemma rmatch_plus_run (p : N -> bool) (c : N) (a b : jstring) (caps : captures)
    (k : cont) (x : jstring * captures) :
  Forall (fun c => p c = true) (c :: a) ->
  match b with [] => True | c :: _ => p c = false end ->
  k b caps = Some x ->
  rmatch (rplus (RSet p)) (c :: a ++ b) caps k = Some x.
Proof.
  intros Ha Hb Hk. apply Forall_cons in Ha as [Hc Ha].
  unfold rplus. cbn [rmatch]. rewrite Hc.
  apply (rmatch_star_run p a b caps k x Ha Hb Hk).
Qed.

(** ** Coordinates, continued *)

Lemma lacks_run (c : N) (s : jstring) :
  lacks c s = true -> Forall (fun x => negb (x =? c) = true) s.
Proof.
  intros H. apply Forall_forall. intros x Hx. unfold lacks in H.
  rewrite forallb_forall in H. apply H, list_elem_of_In, Hx.
Qed.

Lemma segment_inv (s : jstring) :
  segment s = true -> exists c s', s = c :: s' /\ lacks 47 (c :: s') = true.
Proof. destruct s as [|c s']; [discriminate|]. intros H. exists c, s'. auto. Qed.

Lemma opens_path_inv (s : jstring) :
  opens_path s = true ->
  match s with [] => True | c :: _ => negb (c =? 47) = false end.
Proof. destruct s as [|c s]; [auto|]. cbn. intros ->. reflexivity. Qed.

Lemma rmatch_RSeq r1 r2 s caps k :
  rmatch (RSeq r1 r2) s caps k = rmatch r1 s caps (fun s1 c1 => rmatch r2 s1 c1 k).
Proof. reflexivity. Qed.

Lemma rmatch_RGroup i r s caps k :
  rmatch (RGroup i r) s caps k
  = rmatch r s caps
      (fun s1 c1 => k s1 (<[i := Some (take (length s - length s1)%nat s)]> c1)).
Proof. reflexivity. Qed.

Lemma rmatch_RSet_cons p c s caps k :
  rmatch (RSet p) (c :: s) caps k = if p c then k s caps else None.
Proof. reflexivity. Qed.

Lemma take_app_minus (a b : jstring) :
  take (length (a ++ b) - length b)%nat (a ++ b) = a.
Proof.
  rewrite length_app, Nat.add_sub. apply take_app_length.
Qed.

Lemma repo_url_regex_match (o r rest : jstring) :
  segment o = true -> segment r = true -> opens_path rest = true ->
  rmatch (RGroup 0 repo_url_regex) (js "github.com/" ++ o ++ js "/" ++ r ++ rest)
    (replicate 3 None) (fun s' c => Some (s', c))
  = Some (rest, [Some (js "github.com/" ++ o ++ js "/" ++ r); Some o; Some r]).
Proof.
  intros (co & o' & -> & Hso)%segment_inv (cr & r' & -> & Hsr)%segment_inv Hrest.
  unfold repo_url_regex.
  rewrite rmatch_RGroup, rmatch_RSeq, rmatch_rlit, startsWith_app, drop_app_length.
  rewrite rmatch_RSeq, rmatch_RGroup.
  change ((co :: o') ++ js "/" ++ (cr :: r') ++ rest)
    with (co :: o' ++ 47 :: (cr :: r') ++ rest).
  apply rmatch_plus_run.
  - apply lacks_run, Hso.
  - reflexivity.
  - rewrite rmatch_RSeq. unfold rchr. rewrite rmatch_RSet_cons, N.eqb_refl.
    rewrite rmatch_RGroup. cbn [app].
    apply rmatch_plus_run.
    + apply lacks_run, Hsr.
    + apply opens_path_inv, Hrest.
    + f_equal. f_equal.
      change (cr :: r' ++ rest) with ((cr :: r') ++ rest).
      rewrite (take_app_minus (cr :: r') rest).
      change (co :: o' ++ 47 :: (cr :: r') ++ rest)
        with ((co :: o') ++ 47 :: (cr :: r') ++ rest).
      rewrite (take_app_minus (co :: o') (47 :: (cr :: r') ++ rest)).
      replace (js "github.com/" ++ (co :: o') ++ 47 :: (cr :: r') ++ rest)
        with ((js "github.com/" ++ (co :: o') ++ js "/" ++ cr :: r') ++ rest)
        by (rewrite <- !app_assoc; reflexivity).
      rewrite take_app_minus. reflexivity.
Qed.

Lemma startsWith_length (p s : jstring) :
  startsWith p s = true -> (length p <= length s)%nat.
Proof.
  revert s. induction p as [|c p IH]; intros [|b s] H; cbn in *; try lia; try discriminate.
  apply andb_true_iff in H as [_ H]. apply IH in H. lia.
Qed.

(** The leftmost match skips a prefix in which the first character of
    the pattern's opening literal does not occur. *)
Lemma search_skip_prefix (c0 : N) (p : jstring) (r : regex) (n : nat)
    (pre s : jstring) :
  lacks c0 pre = true ->
  search (RSeq (rlit (c0 :: p)) r) n (pre ++ s)
  = search (RSeq (rlit (c0 :: p)) r) n s.
Proof.
  induction pre as [|c pre IH]; intros H; [reflexivity|].
  cbn [lacks forallb] in H. apply andb_true_iff in H as [Hc H].
  cbn [app search]. rewrite rmatch_RGroup, rmatch_RSeq, rmatch_rlit.
  cbn [startsWith]. rewrite N.eqb_sym. destruct (c =? c0); [discriminate|].
  cbn [andb]. apply IH, H.
Qed.

Lemma replace_absent (p rep s : jstring) :
  includes p s = false -> replace p rep s = s.
Proof.
  induction s as [|c s IH]; cbn [includes replace]; intros H;
    apply orb_false_iff in H as [-> H]; [reflexivity|].
  rewrite IH by exact H. reflexivity.
Qed.

Lemma startsWith_app_long (p s t : jstring) :
  (length p <= length s)%nat -> startsWith p (s ++ t) = startsWith p s.
Proof.
  revert s. induction p as [|a p IH]; intros [|b s] H; cbn in *; try lia; try reflexivity.
  rewrite IH by lia. reflexivity.
Qed.

(** [".git"] cannot begin inside a name that does not contain it and end
    inside a [".git"] appended to that name. *)
Lemma dot_git_no_overlap (c : N) (s : jstring) :
  includes (js ".git") (c :: s) = false ->
  startsWith (js ".git") ((c :: s) ++ js ".git") = false.
Proof.
  intros H. cbn [includes] in H. apply orb_false_iff in H as [H _].
  destruct s as [|c1 [|c2 [|c3 s]]];
    [| | |rewrite startsWith_app_long
       by (change (js ".git") with [46; 103; 105; 116]; cbn [length]; lia);
     exact H];
    clear H; change (js ".git") with [46; 103; 105; 116];
    cbn [startsWith app].
  - destruct (46 =? c); reflexivity.
  - destruct (46 =? c), (103 =? c1); reflexivity.
  - destruct (46 =? c), (103 =? c1), (105 =? c2); reflexivity.
Qed.

Lemma replace_dot_git_suffix (s : jstring) :
  includes (js ".git") s = false -> replace (js ".git") [] (s ++ js ".git") = s.
Proof.
  induction s as [|c s IH]; intros H; [reflexivity|].
  pose proof (dot_git_no_overlap c s H) as Hs.
  cbn [app] in *. cbn [replace]. rewrite Hs.
  rewrite IH; [reflexivity|]. eapply includes_cons, H.
Qed.

Lemma lacks_app (c : N) (a b : jstring) :
  lacks c (a ++ b) = lacks c a && lacks c b.
Proof. apply forallb_app. Qed.

Lemma segment_app (a b : jstring) :
  segment a = true -> lacks 47 b = true -> segment (a ++ b) = true.
Proof.
  destruct a as [|c a]; [discriminate|]. cbn [app segment].
  change (c :: a ++ b) with ((c :: a) ++ b). rewrite lacks_app.
  intros -> ->. reflexivity.
Qed.

Lemma search_repo_url (scheme o r rest : jstring) :
  lacks 103 scheme = true -> segment o = true -> segment r = true ->
  opens_path rest = true ->
  search repo_url_regex 2 (scheme ++ js "github.com/" ++ o ++ js "/" ++ r ++ rest)
  = Some [Some (js "github.com/" ++ o ++ js "/" ++ r); Some o; Some r].
Proof.
  intros Hscheme Ho Hr Hrest. unfold repo_url_regex.
  change (js "github.com/") with (103 :: js "ithub.com/") at 1.
  rewrite search_skip_prefix by exact Hscheme.
  change (103 :: js "ithub.com/") with (js "github.com/").
  pose proof (repo_url_regex_match o r rest Ho Hr Hrest) as Hm.
  unfold repo_url_regex in Hm.
  destruct (js "github.com/" ++ o ++ js "/" ++ r ++ rest) eqn:E;
    cbn [search]; rewrite Hm; reflexivity.
Qed.

(** X1: a URL that does not contain [github.com/] is rejected by
    [extractRepoIdentifiers] with the error [Invalid GitHub URL]. *)
Theorem url_without_host_is_rejected (repoUrl : jstring) :
  includes (js "github.com/") repoUrl = false ->
  extractRepoIdentifiers repoUrl = Throw (Error (js "Invalid GitHub URL")).
Proof.
  intros H. unfold extractRepoIdentifiers, repo_url_regex.
  rewrite search_literal_absent by exact H. reflexivity.
Qed.

Lemma url_without_host_is_rejected_witness :
  includes (js "github.com/") (js "https://gitlab.com/octo/hub") = false /\
  extractRepoIdentifiers (js "https://gitlab.com/octo/hub")
  = Throw (Error (js "Invalid GitHub URL")).
Proof.
  split; [reflexivity|].
  apply (url_without_host_is_rejected (js "https://gitlab.com/octo/hub")).
  reflexivity.
Defined.

(** X2: round trip of the coordinates.  For an owner and a repository
    name that are non-empty and free of slashes, the name not containing
    [.git], the address [<scheme>github.com/<owner>/<name>] resolves to
    exactly that owner and name, with or without a [.git] suffix, and
    whatever path follows; [scheme] is any prefix without the letter [g]. *)
Theorem extractRepoIdentifiers_round_trip (scheme o r tail : jstring) :
  lacks 103 scheme = true -> segment o = true -> segment r = true ->
  includes (js ".git") r = false ->
  opens_path tail = true ->
  extractRepoIdentifiers (scheme ++ js "github.com/" ++ o ++ js "/" ++ r ++ tail)
  = Ret {| owner := o; repo := r |} /\
  extractRepoIdentifiers
    (scheme ++ js "github.com/" ++ o ++ js "/" ++ (r ++ js ".git") ++ tail)
  = Ret {| owner := o; repo := r |}.
Proof.
  intros Hscheme Ho Hr Hgit Htail. unfold extractRepoIdentifiers. split.
  - rewrite search_repo_url by assumption. unfold group.
    cbn [lookup list_lookup mjoin option_join default].
    rewrite replace_absent by exact Hgit. reflexivity.
  - rewrite search_repo_url; [|assumption|assumption| |assumption].
    + unfold group. cbn. rewrite replace_dot_git_suffix by exact Hgit. reflexivity.
    + apply segment_app; [exact Hr|reflexivity].
Qed.

Lemma extractRepoIdentifiers_round_trip_witness :
  (lacks 103 (js "https://") = true /\ segment (js "octo") = true /\
   segment (js "hub") = true /\ includes (js ".git") (js "hub") = false /\
   opens_path (js "/pull/7") = true) /\
  extractRepoIdentifiers (js "https://github.com/octo/hub/pull/7")
  = Ret {| owner := js "octo"; repo := js "hub" |} /\
  extractRepoIdentifiers (js "https://github.com/octo/hub.git/pull/7")
  = Ret {| owner := js "octo"; repo := js "hub" |}.
Proof.
  split; [repeat split; reflexivity|].
  apply (extractRepoIdentifiers_round_trip (js "https://") (js "octo") (js "hub")
           (js "/pull/7")); reflexivity.
Defined.
(** ** Guards of the remote operations *)

Lemma bind_lift_Throw {L A B} (e : js_error) (k : A -> M L B) env l w :
  bind (lift (Throw e)) k env l w = (Throw e, l, w).
Proof. reflexivity. Qed.

Lemma bind_lift_Ret {L A B} (a : A) (k : A -> M L B) env l w :
  bind (lift (Ret a)) k env l w = k a env l w.
Proof. reflexivity. Qed.

Lemma with_repo_token_invalid {A} repoUrl (k : jstring -> jstring -> M unit A) e env w :
  extractRepoIdentifiers repoUrl = Throw e ->
  with_repo_token repoUrl k env tt w = (Throw e, tt, w).
Proof. intros H. unfold with_repo_token. rewrite H. reflexivity. Qed.

Ltac unfold_remote :=
  unfold run_remote, listRepoFilesTool, generatePRLabelsTool, aiReviewPRTool,
    aiImprovePRTool, aiAskPRTool, updateChangelogTool, aiDescribePRTool,
    readFileFromRepo, listFilesFromRepo, findFileInRepo, createGitHubIssue,
    commentOnGitHubIssue, closeGitHubIssue, mergePullRequest, triggerWorkflow,
    getWorkflowStatus, generateAndApplyLabels, aiReviewPullRequest,
    aiImprovePullRequest, aiAskPullRequest, aiDraftChangelog,
    aiDescribePullRequest, with_repo_token.

(** X3: on a URL that [extractRepoIdentifiers] rejects, every operation
    addressed by a repository URL throws that very error and makes no
    external call. *)
Theorem invalid_url_stops_every_operation (op : remote_op) (repoUrl : jstring)
    (e : js_error) (env : environment) (w : world) :
  extractRepoIdentifiers repoUrl = Throw e ->
  run_remote op repoUrl env w = (Some e, w).
Proof.
  intros H. destruct op; unfold_remote; rewrite H; reflexivity.
Qed.

Lemma invalid_url_stops_witness :
  extractRepoIdentifiers (js "https://github.com/octo") = Throw (Error (js "Invalid GitHub URL"))
  /\ run_remote (MergePR 7 None) (js "https://github.com/octo") (machine tokens []) empty_world
     = (Some (Error (js "Invalid GitHub URL")), empty_world).
Proof.
  split; [reflexivity|].
  apply (invalid_url_stops_every_operation (MergePR 7 None) (js "https://github.com/octo")).
  reflexivity.
Defined.

Lemma unset_inv env name :
  unset env name = true ->
  process_env env name = None \/ process_env env name = Some [].
Proof.
  unfold unset. destruct (process_env env name) as [[|c s]|]; auto. discriminate.
Qed.

(** X4: with [GITHUB_TOKEN] unset or empty, every operation that
    requires the token throws [GITHUB_TOKEN not set] before any external
    call. *)
Theorem missing_token_stops_operation (op : remote_op) (repoUrl : jstring)
    (ids : GitHubRepoIdentifiers) (env : environment) (w : world) :
  extractRepoIdentifiers repoUrl = Ret ids ->
  needs_token op = true ->
  unset env "GITHUB_TOKEN" = true ->
  run_remote op repoUrl env w = (Some (Error (js "GITHUB_TOKEN not set")), w).
Proof.
  intros Hids Hop Htok. apply unset_inv in Htok.
  destruct op; try discriminate Hop; unfold_remote; rewrite Hids;
    unfold thrown; run_comp; destruct Htok as [-> | ->]; reflexivity.
Qed.

Lemma missing_token_witness :
  (extractRepoIdentifiers repo_url = Ret {| owner := js "o"; repo := js "r" |}
   /\ needs_token (CloseIssue 3 None) = true
   /\ unset (machine [] []) "GITHUB_TOKEN" = true)
  /\ run_remote (CloseIssue 3 None) repo_url (machine [] []) empty_world
     = (Some (Error (js "GITHUB_TOKEN not set")), empty_world).
Proof.
  split; [repeat split; reflexivity|].
  apply (missing_token_stops_operation (CloseIssue 3 None) repo_url
           {| owner := js "o"; repo := js "r" |}); reflexivity.
Defined.

(** X5: with [OPENAI_API_KEY] unset or empty, every operation that calls
    the LLM throws [OPENAI_API_KEY not set] before any external call (label
    generation checks the GitHub token first). *)
Theorem missing_llm_key_stops_operation (op : remote_op) (repoUrl : jstring)
    (ids : GitHubRepoIdentifiers) (env : environment) (w : world) :
  extractRepoIdentifiers repoUrl = Ret ids ->
  uses_llm op = true ->
  (needs_token op = true -> unset env "GITHUB_TOKEN" = false) ->
  unset env "OPENAI_API_KEY" = true ->
  run_remote op repoUrl env w = (Some (Error (js "OPENAI_API_KEY not set")), w).
Proof.
  intros Hids Hop Htok Hkey. apply unset_inv in Hkey.
  destruct op; try discriminate Hop; unfold_remote; rewrite Hids;
    unfold thrown, read_llm_config; run_comp.
  1: { specialize (Htok eq_refl). unfold unset in Htok.
       destruct (process_env env "GITHUB_TOKEN") as [[|c t]|]; try discriminate Htok.
       destruct Hkey as [-> | ->]; reflexivity. }
  all: destruct Hkey as [-> | ->]; reflexivity.
Qed.

Lemma missing_llm_key_witness :
  (extractRepoIdentifiers repo_url = Ret {| owner := js "o"; repo := js "r" |}
   /\ uses_llm (GenerateLabels 7 None) = true
   /\ (needs_token (GenerateLabels 7 None) = true ->
       unset (machine [("GITHUB_TOKEN"%string, js "ghp_token")] []) "GITHUB_TOKEN" = false)
   /\ unset (machine [("GITHUB_TOKEN"%string, js "ghp_token")] []) "OPENAI_API_KEY" = true)
  /\ run_remote (GenerateLabels 7 None) repo_url
       (machine [("GITHUB_TOKEN"%string, js "ghp_token")] []) empty_world
     = (Some (Error (js "OPENAI_API_KEY not set")), empty_world).
Proof.
  split; [repeat split; reflexivity|].
  apply (missing_llm_key_stops_operation (GenerateLabels 7 None) repo_url
           {| owner := js "o"; repo := js "r" |}); reflexivity.
Defined.
(** ** What the read-only paths never do *)

Lemma emits_new_calls {L A} (P : event -> Prop) (m : M L A) env l w :
  emits P m -> Forall P (new_calls w (snd (m env l w))).
Proof.
  intros H. destruct (H env l w) as (evs & Ht & HP).
  unfold new_calls. rewrite Ht, drop_app_length. exact HP.
Qed.

Ltac emits_auto :=
  repeat emits_step;
  try solve [left; reflexivity | right; reflexivity | reflexivity].

Lemma emits_ask_openai P req :
  P (EFetch req) -> emits P (ask_openai req).
Proof. intros HP. unfold ask_openai. repeat emits_step. exact HP. Qed.

Lemma emits_ask_openai_safe_any P req :
  P (EFetch req) -> emits P (ask_openai_safe req).
Proof. intros HP. unfold ask_openai_safe. repeat emits_step. exact HP. Qed.

Lemma changes_nothing_openai key mdl temp jm sys user :
  changes_nothing (EFetch (openai_request key mdl temp jm sys user)).
Proof. right. reflexivity. Qed.

Lemma changes_nothing_GET url headers : changes_nothing (EFetch (GET url headers)).
Proof. left. reflexivity. Qed.

Lemma emits_fetch_pr_meta_safe_get repoName prNumber headers :
  emits changes_nothing (fetch_pr_meta_safe repoName prNumber headers).
Proof. unfold fetch_pr_meta_safe. emits_auto. Qed.

Lemma emits_fetch_pr_meta_get what repoName prNumber headers :
  emits changes_nothing (fetch_pr_meta what repoName prNumber headers).
Proof. unfold fetch_pr_meta. emits_auto. Qed.

Lemma dry_review repoUrl n : emits changes_nothing (aiReviewPullRequest repoUrl n false).
Proof.
  unfold aiReviewPullRequest.
  apply emits_bind_lift; intros ids _.
  apply emits_bind; [apply emits_read_llm_config|intros cfg].
  apply emits_bind; [apply emits_fetch_pr_meta_get|intros prMeta].
  apply emits_bind; [apply emits_fetch, changes_nothing_GET|intros commitsResp].
  apply emits_bind; [destruct (ok commitsResp); auto with emits|intros commits].
  apply emits_bind_lift; intros commitMsgs _.
  apply emits_bind_lift; intros diffUrl _.
  apply emits_bind; [apply emits_fetch, changes_nothing_GET|intros diffResp].
  destruct (negb (ok diffResp)); [apply emits_throw|]. cbv zeta.
  apply emits_bind; [apply emits_ask_openai, changes_nothing_openai|intros openaiData].
  apply emits_bind; [apply emits_ret|intros u; apply emits_ret].
Qed.

Lemma dry_improve repoUrl n : emits changes_nothing (aiImprovePullRequest repoUrl n false).
Proof.
  unfold aiImprovePullRequest.
  apply emits_bind_lift; intros ids _.
  apply emits_bind; [apply emits_read_llm_config|intros cfg].
  apply emits_bind; [apply emits_fetch_pr_meta_safe_get|intros prMeta]. cbv zeta.
  destruct (negb (truthy _)); [apply emits_throw|].
  apply emits_bind; [apply emits_fetch, changes_nothing_GET|intros diffResp].
  destruct (negb (ok diffResp)); [apply emits_throw|].
  apply emits_bind; [apply emits_ask_openai_safe_any, changes_nothing_openai|intros openaiJson].
  apply emits_bind; [apply emits_ret|intros u; apply emits_ret].
Qed.

Lemma dry_ask repoUrl n q : emits changes_nothing (aiAskPullRequest repoUrl n q false).
Proof.
  unfold aiAskPullRequest.
  apply emits_bind_lift; intros ids _.
  apply emits_bind; [apply emits_read_llm_config|intros cfg].
  apply emits_bind; [apply emits_fetch_pr_meta_safe_get|intros prMeta]. cbv zeta.
  apply emits_bind; [apply emits_ask_openai_safe_any, changes_nothing_openai|intros openaiJson].
  apply emits_bind; [apply emits_ret|intros u; apply emits_ret].
Qed.

Lemma dry_changelog repoUrl n : emits changes_nothing (aiDraftChangelog repoUrl n false).
Proof.
  unfold aiDraftChangelog.
  apply emits_bind_lift; intros ids _.
  apply emits_bind; [apply emits_read_llm_config|intros cfg].
  apply emits_bind; [apply emits_fetch_pr_meta_safe_get|intros prMeta].
  apply emits_bind; [apply emits_fetch, changes_nothing_GET|intros commitsResp].
  apply emits_bind; [destruct (ok commitsResp); auto with emits|intros commitsJson].
  cbv zeta. apply emits_bind_lift; intros commitMsgs _.
  apply emits_bind; [apply emits_ask_openai_safe_any, changes_nothing_openai|intros openaiJson].
  apply emits_bind; [apply emits_ret|intros u; apply emits_ret].
Qed.

Lemma emits_describe_draft repoName n cfg :
  emits changes_nothing (describe_draft repoName n cfg).
Proof.
  unfold describe_draft.
  apply emits_bind; [apply emits_fetch_pr_meta_get|intros prMeta].
  apply emits_bind; [apply emits_fetch, changes_nothing_GET|intros filesResp].
  apply emits_bind; [destruct (ok filesResp); auto with emits|intros files].
  apply emits_bind_lift; intros filesSummary _.
  apply emits_bind_lift; intros currentTitle _. cbv zeta.
  apply emits_bind; [apply emits_ask_openai, changes_nothing_openai|intros openaiData].
  repeat (apply emits_bind_lift; intros ? _).
  apply emits_ret.
Qed.

Lemma dry_describe repoUrl n : emits changes_nothing (aiDescribePullRequest repoUrl n false).
Proof.
  unfold aiDescribePullRequest.
  apply emits_bind_lift; intros ids _.
  apply emits_bind; [apply emits_read_llm_config|intros cfg].
  apply emits_bind; [apply emits_describe_draft|intros draft].
  apply emits_bind; [apply emits_ret|intros u; apply emits_ret].
Qed.

(** X6: a dry run changes nothing.  Unless [publish] is exactly [true],
    the five LLM tools that can publish only send [GET] requests and the
    chat request to the LLM. *)
Theorem dry_run_changes_nothing (op : remote_op) (publish : option bool)
    (repoUrl : jstring) (env : environment) (w : world) :
  publish_flag op = Some publish ->
  is_true publish = false ->
  Forall changes_nothing (new_calls w (snd (run_remote op repoUrl env w))).
Proof.
  intros Hop Hf.
  destruct op; try discriminate Hop; injection Hop as ->;
    unfold run_remote, aiReviewPRTool, aiImprovePRTool, aiAskPRTool,
      updateChangelogTool, aiDescribePRTool;
    cbn [snd]; rewrite Hf; apply emits_new_calls.
  - apply dry_review.
  - apply dry_improve.
  - apply dry_ask.
  - apply dry_changelog.
  - apply dry_describe.
Qed.

Lemma dry_run_witness :
  (publish_flag (AiDescribe 7 None) = Some None /\ is_true None = false)
  /\ Forall changes_nothing
       (new_calls empty_world
          (snd (run_remote (AiDescribe 7 None) repo_url patch_forbidden_machine
                  empty_world))).
Proof.
  split; [split; reflexivity|].
  apply (dry_run_changes_nothing (AiDescribe 7 None) None repo_url
           patch_forbidden_machine empty_world); reflexivity.
Defined.

Lemma is_get_GET url headers : is_get (EFetch (GET url headers)).
Proof. reflexivity. Qed.

Lemma emits_getDefaultBranch repoName token :
  emits is_get (getDefaultBranch repoName token).
Proof. unfold getDefaultBranch. emits_auto. Qed.

Lemma emits_doesBranchExist repoName token b :
  emits is_get (doesBranchExist repoName token b).
Proof. unfold doesBranchExist. emits_auto. Qed.

Lemma emits_ask {L} P : emits P (ask : M L environment).
Proof. apply emits_silent. reflexivity. Qed.

Lemma emits_try_branch repoName filePath token b :
  emits is_get (try_branch repoName filePath token b).
Proof.
  unfold try_branch.
  apply emits_bind; [apply emits_fetch, is_get_GET|intros response].
  apply emits_bind; [apply emits_parseJsonSafe|intros payload].
  destruct (ok response); [|apply emits_ret].
  destruct (negb (truthy payload)); [apply emits_throw|].
  destruct (isArray payload); [apply emits_throw|].
  destruct (prop "content" payload), (prop "size" payload), (prop "encoding" payload);
    try apply emits_throw.
  apply emits_bind; [apply emits_ask|intros e; apply emits_ret].
Qed.

Lemma emits_try_branches repoName filePath token bs lastError :
  emits is_get (try_branches repoName filePath token bs lastError).
Proof.
  revert lastError. induction bs as [|b bs IH]; intros lastError; cbn [try_branches].
  - apply emits_ret.
  - apply emits_bind.
    + apply emits_try_catch; [apply emits_try_branch|intros; apply emits_ret].
    + intros [file|e]; [apply emits_ret|apply IH].
Qed.

Lemma emits_readFileFromRepo repoUrl filePath branch :
  emits is_get (readFileFromRepo repoUrl filePath branch).
Proof.
  unfold readFileFromRepo.
  apply emits_bind_lift; intros ids _. cbv zeta.
  apply emits_bind; [apply emits_getenv|intros [[|c t]|]]; try apply emits_throw.
  apply emits_bind.
  { apply emits_try_catch; [apply emits_getDefaultBranch|intros; apply emits_ret]. }
  intros def. apply emits_bind; [apply emits_try_branches|intros [file|lastError]].
  - apply emits_ret.
  - apply emits_bind; [|intros; apply emits_throw].
    unfold explain_branch. apply emits_try_catch; [|intros; apply emits_ret].
    cbv zeta. apply emits_bind; [apply emits_doesBranchExist|intros ex].
    destruct (negb ex); [apply emits_throw|apply emits_ret].
Qed.

Lemma emits_listFilesFromRepo repoUrl path branch :
  emits is_get (listFilesFromRepo repoUrl path branch).
Proof.
  unfold listFilesFromRepo.
  apply emits_bind_lift; intros ids _. cbv zeta.
  apply emits_bind; [apply emits_getenv|intros [[|c t]|]]; try apply emits_throw.
  apply emits_bind.
  { destruct branch as [[|b r]|]; try apply emits_ret.
    all: apply emits_bind; [apply emits_getDefaultBranch|intros; apply emits_ret]. }
  intros targetBranch. apply emits_bind_lift; intros encoded _.
  apply emits_bind; [apply emits_fetch, is_get_GET|intros response].
  apply emits_bind; [apply emits_parseJsonSafe|intros payload].
  destruct (_ || _); [apply emits_throw|apply emits_lift].
Qed.

Lemma emits_findFileInRepo repoUrl query : emits is_get (findFileInRepo repoUrl query).
Proof.
  unfold findFileInRepo.
  apply emits_bind_lift; intros ids _. cbv zeta.
  apply emits_bind; [apply emits_getenv|intros [[|c t]|]]; try apply emits_throw.
  apply emits_bind_lift; intros encoded _.
  apply emits_bind; [apply emits_fetch, is_get_GET|intros response].
  apply emits_bind; [apply emits_parseJsonSafe|intros payload].
  destruct (_ || _); [apply emits_throw|apply emits_ret].
Qed.

Lemma emits_with_context {A} P ctx (m : M unit A) :
  emits P m -> emits P (with_context ctx m).
Proof. intros H. apply emits_try_catch; [exact H|intros; apply emits_throw]. Qed.

Lemma emits_with_repo_token {A} P repoUrl (k : jstring -> jstring -> M unit A) :
  (forall repoName ghToken, emits P (k repoName ghToken)) ->
  emits P (with_repo_token repoUrl k).
Proof.
  intros H. unfold with_repo_token.
  apply emits_bind_lift; intros ids _. cbv zeta.
  apply emits_bind; [apply emits_getenv|intros [[|c t]|]]; try apply emits_throw.
  apply H.
Qed.

Lemma emits_getWorkflowStatus repoUrl branch :
  emits is_get (getWorkflowStatus repoUrl branch).
Proof.
  unfold getWorkflowStatus. apply emits_with_repo_token. intros repoName ghToken.
  apply emits_with_context. cbv zeta.
  apply emits_bind.
  { destruct branch as [[|b r]|]; try apply emits_ret.
    apply emits_bind_lift; intros; apply emits_ret. }
  intros url. apply emits_bind; [apply emits_fetch, is_get_GET|intros response].
  apply emits_bind; [apply emits_parseJsonSafe|intros payload].
  destruct (_ || _); [apply emits_throw|].
  apply emits_bind_lift; intros; apply emits_ret.
Qed.

(** X7: reading a file, listing a directory, searching code and reading
    the workflow status only ever send [GET] requests. *)
Theorem read_operations_only_get (op : remote_op) (repoUrl : jstring)
    (env : environment) (w : world) :
  read_op op = true ->
  Forall is_get (new_calls w (snd (run_remote op repoUrl env w))).
Proof.
  intros Hop.
  destruct op; try discriminate Hop; unfold run_remote, listRepoFilesTool;
    cbn [snd]; apply emits_new_calls.
  - apply emits_readFileFromRepo.
  - apply emits_listFilesFromRepo.
  - apply emits_findFileInRepo.
  - apply emits_getWorkflowStatus.
Qed.

Lemma read_operations_witness :
  read_op (ReadFile readme on_dev) = true
  /\ Forall is_get
       (new_calls empty_world
          (snd (run_remote (ReadFile readme on_dev) repo_url trunk_machine empty_world))).
Proof.
  split; [reflexivity|].
  apply (read_operations_only_get (ReadFile readme on_dev) repo_url trunk_machine
           empty_world); reflexivity.
Defined.
(** ** Issues, merges and workflow dispatch *)

Lemma with_context_throws {A} ctx (m : M unit A) env l w e :
  fst (fst (with_context ctx m env l w)) = Throw e ->
  startsWith (ctx ++ js ": ") (message e) = true.
Proof.
  unfold with_context, try_catch, throw.
  destruct (m env l w) as [[[a|e0] l1] w1]; cbn [fst]; [discriminate|].
  intros H.
  assert (He : e = Error (ctx ++ js ": " ++ message e0)) by congruence.
  rewrite He. unfold Error. cbn [message]. rewrite (app_assoc ctx).
  apply startsWith_app.
Qed.

Lemma with_repo_token_run {A} repoUrl (k : jstring -> jstring -> M unit A)
    ids c t env w :
  extractRepoIdentifiers repoUrl = Ret ids ->
  process_env env "GITHUB_TOKEN" = Some (c :: t) ->
  with_repo_token repoUrl k env tt w
  = k (owner ids ++ js "/" ++ repo ids) (c :: t) env tt w.
Proof.
  intros Hids Htok. unfold with_repo_token. rewrite Hids. run_comp.
  rewrite Htok. reflexivity.
Qed.

Lemma thrown_Some {L A} (r : outcome A * L * world) e :
  thrown r = Some e -> fst (fst r) = Throw e.
Proof. unfold thrown. destruct (fst (fst r)); congruence. Qed.

Lemma unset_false env name :
  unset env name = false -> exists c t, process_env env name = Some (c :: t).
Proof.
  unfold unset. destruct (process_env env name) as [[|c t]|]; try discriminate; eauto.
Qed.

(** X8: once the URL and the token are accepted, every error of the
    issue, merge and workflow operations starts with the context of the
    operation, which names the repository. *)
Theorem failure_names_operation_and_repository (op : remote_op)
    (repoUrl : jstring) (ids : GitHubRepoIdentifiers) (context : jstring)
    (env : environment) (w : world) (e : js_error) :
  extractRepoIdentifiers repoUrl = Ret ids ->
  unset env "GITHUB_TOKEN" = false ->
  op_context op (owner ids ++ js "/" ++ repo ids) = Some context ->
  fst (run_remote op repoUrl env w) = Some e ->
  startsWith (context ++ js ": ") (message e) = true.
Proof.
  intros Hids (c & t & Htok)%unset_false Hctx He.
  destruct op; try discriminate Hctx; injection Hctx as <-;
    cbn [run_remote fst] in He; apply thrown_Some in He;
    unfold createGitHubIssue, commentOnGitHubIssue, closeGitHubIssue,
      mergePullRequest, triggerWorkflow, getWorkflowStatus in He;
    rewrite (with_repo_token_run _ _ ids c t env w Hids Htok) in He;
    eapply with_context_throws, He.
Qed.

Lemma failure_names_operation_witness :
  (extractRepoIdentifiers repo_url = Ret {| owner := js "o"; repo := js "r" |}
   /\ unset unmergeable_machine "GITHUB_TOKEN" = false
   /\ op_context (MergePR 7 None) (js "o" ++ js "/" ++ js "r")
      = Some (js "Failed to merge PR #7 in o/r")
   /\ fst (run_remote (MergePR 7 None) repo_url unmergeable_machine empty_world)
      = Some (Error (js "Failed to merge PR #7 in o/r: Failed to merge PR: Method Not Allowed. Pull Request is not mergeable")))
  /\ startsWith (js "Failed to merge PR #7 in o/r" ++ js ": ")
       (message (Error (js "Failed to merge PR #7 in o/r: Failed to merge PR: Method Not Allowed. Pull Request is not mergeable")))
     = true.
Proof.
  split; [repeat split; reflexivity|].
  apply (failure_names_operation_and_repository (MergePR 7 None) repo_url
           {| owner := js "o"; repo := js "r" |} (js "Failed to merge PR #7 in o/r")
           unmergeable_machine empty_world
           (Error (js "Failed to merge PR #7 in o/r: Failed to merge PR: Method Not Allowed. Pull Request is not mergeable")));
    reflexivity.
Defined.

Lemma parseJsonSafe_run {L} (r : response) env (l : L) w :
  parseJsonSafe r env l w = (Ret (parseJsonStringSafe (body r)), l, w).
Proof.
  unfold parseJsonSafe, response_json, parseJsonStringSafe, try_catch.
  destruct (JSON_parse (body r)); reflexivity.
Qed.

(** One step of a run whose external answers are case-split. *)
Ltac answer_step :=
  match goal with
  | |- context [parseJsonSafe ?r ?env ?l ?w] => rewrite (parseJsonSafe_run r env l w)
  | |- context [match fetch_answer ?env ?r with _ => _ end] =>
      destruct (fetch_answer env r) eqn:?
  | |- context [ok ?a] => is_var a; destruct (ok a) eqn:?
  | |- context [truthy (parseJsonStringSafe ?x)] =>
      destruct (truthy (parseJsonStringSafe x)) eqn:?
  end; cbv beta iota; cbn [negb orb andb].

Ltac trace_done :=
  unfold new_calls; cbn [trace snd fst]; rewrite <- ?app_assoc;
  rewrite ?drop_app_length; try reflexivity.

(** X9: closing an issue with a comment posts the comment first, and
    sends the closing [PATCH] only when the comment was accepted; without a
    comment the [PATCH] is the only request. *)
Theorem close_comments_before_closing (repoUrl : jstring) (issueNumber : N)
    (comment : option jstring) (ids : GitHubRepoIdentifiers) (c0 : N) (t0 : jstring)
    (env : environment) (w : world) :
  extractRepoIdentifiers repoUrl = Ret ids ->
  process_env env "GITHUB_TOKEN" = Some (c0 :: t0) ->
  let repoName := owner ids ++ js "/" ++ repo ids in
  let close := EFetch (close_request repoName (c0 :: t0) issueNumber) in
  new_calls w (snd (closeGitHubIssue repoUrl issueNumber comment env tt w))
  = match comment with
    | Some (c :: text) =>
        let post := comment_request repoName (c0 :: t0) issueNumber (c :: text) in
        EFetch post :: (if accepted env post then [close] else [])
    | _ => [close]
    end.
Proof.
  intros Hids Htok. cbv zeta.
  unfold closeGitHubIssue.
  rewrite (with_repo_token_run _ _ ids c0 t0 env w Hids Htok).
  destruct comment as [[|c text]|].
  1, 3: unfold with_context; run_comp; unfold log_event; cbn [trace fs];
    repeat answer_step; trace_done.
  unfold with_context. run_comp.
  unfold commentOnGitHubIssue.
  rewrite (with_repo_token_run _ _ ids c0 t0 env w Hids Htok).
  unfold with_context, accepted. run_comp. unfold log_event. cbn [trace fs].
  repeat answer_step; trace_done.
Qed.

Lemma close_comments_witness :
  (extractRepoIdentifiers repo_url = Ret {| owner := js "o"; repo := js "r" |}
   /\ process_env locked_issue_machine "GITHUB_TOKEN" = Some (103 :: js "hp_token"))
  /\ new_calls empty_world
       (snd (closeGitHubIssue repo_url 3 (Some (js "done")) locked_issue_machine tt
               empty_world))
     = [EFetch (comment_request (js "o" ++ js "/" ++ js "r") (103 :: js "hp_token") 3
                  (js "done"))].
Proof.
  split; [split; reflexivity|].
  apply (close_comments_before_closing repo_url 3 (Some (js "done"))
           {| owner := js "o"; repo := js "r" |} 103 (js "hp_token")
           locked_issue_machine empty_world); reflexivity.
Defined.

Section EndsAccepted.
Context {L : Type}.

Lemma ends_throw {A} e : ends_accepted (throw e : M L A).
Proof. intros env l w a H. discriminate H. Qed.

Lemma ends_bind {A B} (m : M L A) (k : A -> M L B) :
  emits (fun _ => True) m -> (forall a, ends_accepted (k a)) ->
  ends_accepted (bind m k).
Proof.
  intros Hm Hk env l w b. unfold bind.
  destruct (Hm env l w) as (evs & Ht & _).
  destruct (m env l w) as [[[a|e] l1] w1]; cbn [fst snd] in *; [|discriminate].
  intros Hb. destruct (Hk a env l1 w1 b Hb) as (evs' & r & Ht' & Hw & Hok).
  exists (evs ++ evs'), r. rewrite Ht', Ht, <- !app_assoc. auto.
Qed.

Lemma ends_with_handler {A} (m : M L A) (h : js_error -> js_error) :
  ends_accepted m -> ends_accepted (try_catch m (fun e => throw (h e))).
Proof.
  intros Hm env l w a. specialize (Hm env l w). unfold try_catch, throw.
  destruct (m env l w) as [[[a'|e] l1] w1]; cbn [fst snd] in *; [|discriminate].
  intros H. assert (Ha : a' = a) by congruence. subst a'. exact (Hm a eq_refl).
Qed.

(** A write whose answer decides the completion. *)
Lemma ends_fetch {A} (req : request) (k : response -> M L A) :
  is_write (EFetch req) = true ->
  (forall resp env l w a,
      fst (fst (k resp env l w)) = Ret a ->
      ok resp = true /\ trace (snd (k resp env l w)) = trace w) ->
  ends_accepted (bind (fetch req) k).
Proof.
  intros Hw Hk env l w a. unfold bind, fetch, answered_ok.
  destruct (fetch_answer env req) as [resp|e] eqn:Hans; [|discriminate].
  intros Ha. destruct (Hk resp env l _ a Ha) as [Hok Ht].
  exists [], req. rewrite Ht, Hans. auto.
Qed.
End EndsAccepted.

Lemma ends_with_repo_token {A} repoUrl (k : jstring -> jstring -> M unit A) :
  (forall repoName ghToken, ends_accepted (k repoName ghToken)) ->
  ends_accepted (with_repo_token repoUrl k).
Proof.
  intros H. unfold with_repo_token.
  apply ends_bind; [apply emits_lift|intros ids]. cbv zeta.
  apply ends_bind; [apply emits_getenv|intros [[|c t]|]]; try apply ends_throw.
  apply H.
Qed.

Ltac ends_tail :=
  apply ends_fetch; [reflexivity|];
  intros resp env l w a; run_comp; rewrite parseJsonSafe_run;
  destruct (ok resp); cbn [negb orb]; [|discriminate];
  try destruct (negb (truthy _)); try discriminate; auto.

Lemma emits_top {L A} (P : event -> Prop) (m : M L A) :
  emits P m -> emits (fun _ => True) m.
Proof.
  intros H env l w. destruct (H env l w) as (evs & Ht & _).
  exists evs. split; [exact Ht|]. apply Forall_forall. auto.
Qed.

Lemma ends_createGitHubIssue repoUrl title body labels :
  ends_accepted (createGitHubIssue repoUrl title body labels).
Proof.
  apply ends_with_repo_token. intros repoName ghToken.
  apply ends_with_handler. ends_tail.
Qed.

Lemma ends_commentOnGitHubIssue repoUrl n comment :
  ends_accepted (commentOnGitHubIssue repoUrl n comment).
Proof.
  apply ends_with_repo_token. intros repoName ghToken.
  apply ends_with_handler. ends_tail.
Qed.

Lemma ends_mergePullRequest repoUrl n method :
  ends_accepted (mergePullRequest repoUrl n method).
Proof.
  apply ends_with_repo_token. intros repoName ghToken.
  apply ends_with_handler. ends_tail.
Qed.

Lemma ends_triggerWorkflow repoUrl id branch inputs :
  ends_accepted (triggerWorkflow repoUrl id branch inputs).
Proof.
  apply ends_with_repo_token. intros repoName ghToken.
  apply ends_with_handler. ends_tail.
Qed.

Lemma emits_any_fetch_tail {A} req (k : response -> json -> M unit A) :
  (forall r p, emits (fun _ => True) (k r p)) ->
  emits (fun _ => True)
    (response <- fetch req ;; payload <- parseJsonSafe response ;; k response payload).
Proof.
  intros H. apply emits_bind; [apply emits_fetch; exact I|intros r].
  apply emits_bind; [apply emits_parseJsonSafe|intros p; apply H].
Qed.

Lemma emits_commentOnGitHubIssue repoUrl n comment :
  emits (fun _ => True) (commentOnGitHubIssue repoUrl n comment).
Proof.
  unfold commentOnGitHubIssue. apply emits_with_repo_token. intros repoName ghToken.
  apply emits_with_context, emits_any_fetch_tail. intros r p.
  destruct (_ || _); [apply emits_throw|apply emits_ret].
Qed.

Lemma ends_closeGitHubIssue repoUrl n comment :
  ends_accepted (closeGitHubIssue repoUrl n comment).
Proof.
  apply ends_with_repo_token. intros repoName ghToken.
  apply ends_with_handler.
  apply ends_bind.
  - destruct comment as [[|c text]|]; try apply emits_ret.
    apply emits_bind; [apply emits_commentOnGitHubIssue|intros; apply emits_ret].
  - intros _. ends_tail.
Qed.

Lemma ends_generateAndApplyLabels repoUrl n maxLabels :
  ends_accepted (generateAndApplyLabels repoUrl n maxLabels).
Proof.
  unfold generateAndApplyLabels.
  apply ends_bind; [apply emits_lift|intros ids]. cbv zeta.
  apply ends_bind; [apply emits_getenv|intros [[|c t]|]]; try apply ends_throw.
  apply ends_bind; [apply emits_read_llm_config|intros cfg].
  apply ends_bind.
  { apply (emits_top (within_cap 0)), emits_fetch_pr_meta_safe. }
  intros prMeta.
  apply ends_bind.
  { apply (emits_top (within_cap 0)), emits_ask_openai_safe. }
  intros openaiJson.
  apply ends_bind; [apply emits_lift|intros labels].
  ends_tail.
Qed.

(** X10: an operation that writes to GitHub returns only after a last
    request, not a [GET], that was answered with a 2xx status. *)
Theorem success_means_accepted (op : remote_op) (repoUrl : jstring)
    (env : environment) (w : world) :
  write_op op = true ->
  fst (run_remote op repoUrl env w) = None ->
  exists r,
    last (new_calls w (snd (run_remote op repoUrl env w))) = Some (EFetch r)
    /\ is_write (EFetch r) = true /\ answered_ok env r = true.
Proof.
  intros Hop Hret.
  assert (Hends : forall A (m : M unit A),
             ends_accepted m -> thrown (m env tt w) = None ->
             exists r, last (new_calls w (snd (m env tt w))) = Some (EFetch r)
                       /\ is_write (EFetch r) = true /\ answered_ok env r = true).
  { intros A m Hm Hthrown. unfold thrown in Hthrown.
    destruct (fst (fst (m env tt w))) as [a|e] eqn:Ha; [|discriminate].
    destruct (Hm env tt w a Ha) as (evs & r & Ht & Hw & Hok).
    exists r. unfold new_calls. rewrite Ht, drop_app_length, last_snoc. auto. }
  destruct op; try discriminate Hop; cbn [run_remote fst snd] in *;
    apply Hends; try exact Hret.
  - apply ends_createGitHubIssue.
  - apply ends_commentOnGitHubIssue.
  - apply ends_closeGitHubIssue.
  - apply ends_mergePullRequest.
  - apply ends_triggerWorkflow.
  - apply ends_generateAndApplyLabels.
Qed.

Lemma success_means_accepted_witness :
  (write_op (CloseIssue 3 (Some (js "done"))) = true
   /\ fst (run_remote (CloseIssue 3 (Some (js "done"))) repo_url issue_machine
             empty_world) = None)
  /\ exists r,
       last (new_calls empty_world
               (snd (run_remote (CloseIssue 3 (Some (js "done"))) repo_url
                       issue_machine empty_world)))
       = Some (EFetch r)
       /\ is_write (EFetch r) = true /\ answered_ok issue_machine r = true.
Proof.
  split; [split; reflexivity|].
  apply (success_means_accepted (CloseIssue 3 (Some (js "done"))) repo_url
           issue_machine empty_world); reflexivity.
Defined.
(** ** Operations that never throw, and what their results obey *)

Section Results.
Context {L : Type}.

Lemma ensures_ret {A} (Q : A -> Prop) a : Q a -> ensures Q (ret a : M L A).
Proof. intros H env l w a' Ha. cbn in Ha. congruence. Qed.

Lemma ensures_throw {A} (Q : A -> Prop) e : ensures Q (throw e : M L A).
Proof. intros env l w a Ha. discriminate Ha. Qed.

Lemma ensures_lift {A} (Q : A -> Prop) (o : outcome A) :
  (forall a, o = Ret a -> Q a) -> ensures Q (lift o : M L A).
Proof. intros H env l w a Ha. apply H. exact Ha. Qed.

Lemma ensures_any {A} (m : M L A) : ensures (fun _ => True) m.
Proof. intros env l w a _. exact I. Qed.

Lemma ensures_bind {A B} (P : A -> Prop) (Q : B -> Prop) (m : M L A) (k : A -> M L B) :
  ensures P m -> (forall a, P a -> ensures Q (k a)) -> ensures Q (bind m k).
Proof.
  intros Hm Hk env l w b. unfold bind. specialize (Hm env l w).
  destruct (m env l w) as [[[a|e] l1] w1]; cbn [fst] in *; [|discriminate].
  apply Hk, Hm. reflexivity.
Qed.

Lemma ensures_try_catch {A} (Q : A -> Prop) (m : M L A) h :
  ensures Q m -> (forall e, ensures Q (h e)) -> ensures Q (try_catch m h).
Proof.
  intros Hm Hh env l w a. unfold try_catch. specialize (Hm env l w).
  destruct (m env l w) as [[[a'|e] l1] w1]; cbn [fst] in *.
  - intros Ha. apply Hm. exact Ha.
  - apply Hh.
Qed.

Lemma ensures_try_finally {A} (Q : A -> Prop) (m : M L A) f :
  ensures Q m -> ensures Q (try_finally m f).
Proof.
  intros Hm env l w a. unfold try_finally. specialize (Hm env l w).
  destruct (m env l w) as [[o l1] w1].
  destruct (f env l1 w1) as [[[u|e] l2] w2]; cbn [fst] in *; [|discriminate].
  apply Hm.
Qed.

Lemma returns_ret {A} (Q : A -> Prop) a : Q a -> returns Q (ret a : M L A).
Proof. intros H env l w. exists a. auto. Qed.

Lemma returns_bind {A B} (P : A -> Prop) (Q : B -> Prop) (m : M L A) (k : A -> M L B) :
  returns P m -> (forall a, P a -> returns Q (k a)) -> returns Q (bind m k).
Proof.
  intros Hm Hk env l w. unfold bind. destruct (Hm env l w) as (a & Ha & HP).
  destruct (m env l w) as [[o l1] w1]; cbn [fst] in Ha. subst o.
  apply Hk, HP.
Qed.

Lemma returns_try_catch {A} (Q : A -> Prop) (m : M L A) h :
  ensures Q m -> (forall e, returns Q (h e)) -> returns Q (try_catch m h).
Proof.
  intros Hm Hh env l w. unfold try_catch. specialize (Hm env l w).
  destruct (m env l w) as [[[a|e] l1] w1]; cbn [fst] in *.
  - exists a. auto.
  - apply Hh.
Qed.

Lemma returns_try_finally {A} (Q : A -> Prop) (m : M L A) f :
  returns Q m -> returns (fun _ => True) f -> returns Q (try_finally m f).
Proof.
  intros Hm Hf env l w. unfold try_finally. destruct (Hm env l w) as (a & Ha & HQ).
  destruct (m env l w) as [[o l1] w1]; cbn [fst] in Ha. subst o.
  destruct (Hf env l1 w1) as (u & Hu & _).
  destruct (f env l1 w1) as [[o2 l2] w2]; cbn [fst] in Hu. subst o2.
  exists a. auto.
Qed.

Lemma returns_getenv (Q : option jstring -> Prop) name :
  (forall v, Q v) -> returns Q (getenv name : M L _).
Proof. intros H env l w. eexists. split; [reflexivity|apply H]. Qed.
End Results.

Lemma release_workspace_logged_returns :
  returns (fun _ => True) release_workspace_logged.
Proof.
  intros env l w. unfold release_workspace_logged. run_comp.
  destruct l as [[|c d]|]; [exists tt; auto| |exists tt; auto].
  destruct (rm_answer env (c :: d)); exists tt; auto.
Qed.

Lemma map_outcome_length {A B} (f : A -> outcome B) l bs :
  map_outcome f l = Ret bs -> length bs = length l.
Proof. intros H. apply omap_Ret, Forall2_length in H. auto. Qed.

Lemma issue_hits_length data l : issue_hits data = Ret l -> (length l <= 5)%nat.
Proof.
  unfold issue_hits. destruct (prop_strict "items" data) as [items|]; [|discriminate].
  cbn [obind]. destruct items; try discriminate.
  - intros [= <-]. cbn. lia.
  - intros [= <-]. cbn. lia.
  - intros H. apply map_outcome_length in H. rewrite H, length_take. lia.
Qed.

Lemma emits_searchIssues query language : emits is_get (searchIssues query language).
Proof.
  unfold searchIssues. apply emits_try_catch; [|intros; apply emits_ret]. cbv zeta.
  apply emits_bind_lift; intros encoded _.
  apply emits_bind; [apply emits_getenv|intros token].
  apply emits_bind; [apply emits_fetch, is_get_GET|intros response].
  destruct (negb (ok response)); [apply emits_throw|].
  apply emits_bind; [apply emits_response_json|intros data].
  apply emits_bind_lift; intros; apply emits_ret.
Qed.

(** X11: [searchIssues] never throws, returns at most five issues, and
    only sends [GET] requests. *)
Theorem searchIssues_never_throws (query : jstring) (language : option jstring)
    (env : environment) (w : world) :
  exists found,
    fst (fst (searchIssues query language env tt w)) = Ret found
    /\ (length (found_issues found) <= 5)%nat
    /\ Forall is_get (new_calls w (snd (searchIssues query language env tt w))).
Proof.
  assert (H : returns (fun found => (length (found_issues found) <= 5)%nat)
                (searchIssues query language)).
  { unfold searchIssues. apply returns_try_catch.
    - cbv zeta. eapply ensures_bind; [apply ensures_any|intros encoded _].
      eapply ensures_bind; [apply ensures_any|intros token _].
      eapply ensures_bind; [apply ensures_any|intros response _].
      destruct (negb (ok response)); [apply ensures_throw|].
      eapply ensures_bind; [apply ensures_any|intros data _].
      eapply ensures_bind.
      + apply ensures_lift. intros l Hl. exact (issue_hits_length data l Hl).
      + intros issues Hissues. apply ensures_ret. exact Hissues.
    - intros e. apply returns_ret. cbn. lia. }
  destruct (H env tt w) as (found & Hret & Hlen).
  exists found. split; [exact Hret|split; [exact Hlen|]].
  apply emits_new_calls, emits_searchIssues.
Qed.
Lemma coherent_classify_local output : coherent (classify_local output).
Proof.
  unfold classify_local, coherent. cbv zeta. cbn [passed failedTests errors].
  set (failed := match local_failedMatch output with
                 | Some m => match_number m | None => 0 end).
  destruct (N.eqb_spec failed 0) as [->|Hne]; cbn [andb].
  - split; [auto|congruence].
  - split; [discriminate|]. intros _. split; [reflexivity|].
    destruct (N.ltb_spec 0 failed); [discriminate|lia].
Qed.

Lemma coherent_classify_remote output : coherent (classify_remote output).
Proof.
  unfold classify_remote, coherent. cbv zeta. cbn [passed failedTests errors].
  set (failed := match search (count_word_regex "failed") 1 output with
                 | Some m => match_number m
                 | None => if includes (js "fail") (toLowerCase output) then 1 else 0
                 end).
  destruct (N.eqb_spec failed 0) as [->|Hne]; cbn [andb].
  - split; [auto|congruence].
  - split; [discriminate|]. intros _. split; [reflexivity|].
    destruct (N.ltb_spec 0 failed); [discriminate|lia].
Qed.

Lemma coherent_failed_run n e es out :
  coherent (failed_run n (e :: es) out).
Proof. split; [discriminate|]. intros _. split; [reflexivity|discriminate]. Qed.

Lemma runTests_remote_returns repoUrl cmd :
  returns coherent (runTests_remote repoUrl cmd).
Proof.
  unfold runTests_remote. apply returns_try_catch.
  - eapply ensures_bind; [apply ensures_any|intros envTestCmd _]. cbv zeta.
    eapply ensures_bind; [apply ensures_any|intros envMarket _].
    destruct (opt_str_or envMarket []); [apply ensures_throw|].
    eapply ensures_bind; [apply ensures_any|intros out _].
    apply ensures_ret, coherent_classify_remote.
  - intros err. apply returns_ret, coherent_failed_run.
Qed.

Lemma runTests_local_returns repoUrl cmd :
  returns coherent (runTests_local repoUrl cmd).
Proof.
  unfold runTests_local.
  apply returns_try_finally; [|apply release_workspace_logged_returns].
  apply returns_try_catch.
  - eapply ensures_bind; [apply ensures_any|intros tmpDir _]. cbv zeta.
    apply ensures_try_catch.
    + eapply ensures_bind; [apply ensures_any|intros out _].
      apply ensures_ret, coherent_classify_local.
    + intros testErr. apply ensures_ret, coherent_failed_run.
  - intros error. apply returns_ret, coherent_failed_run.
Qed.

(** X12: [runTests] never throws, in any mode, and its report is
    coherent: a passing report counts no failed test and lists no error; a
    report that counts failed tests does not pass and lists an error. *)
Theorem runTests_never_throws (repoUrlParam testCommandParam : option jstring)
    (env : environment) (tmpDir : option jstring) (w : world) :
  exists report,
    fst (fst (runTests repoUrlParam testCommandParam env tmpDir w)) = Ret report
    /\ (passed report = true -> failedTests report = 0 /\ errors report = [])
    /\ (failedTests report <> 0 -> passed report = false /\ errors report <> []).
Proof.
  assert (H : returns coherent (runTests repoUrlParam testCommandParam)).
  { unfold runTests.
    apply (returns_bind (fun _ => True)); [apply returns_getenv; auto|].
    intros nosana _.
    destruct nosana as [flag|], repoUrlParam as [[|c u]|];
      try (apply returns_ret, coherent_failed_run);
      try apply runTests_local_returns.
    destruct (streq flag (js "true"));
      [apply runTests_remote_returns|apply runTests_local_returns]. }
  destruct (H env tmpDir w) as (report & Hret & Hco1 & Hco2). eauto.
Qed.

Lemma lint_issues_length output : (length (lint_issues output) <= 5)%nat.
Proof.
  unfold lint_issues. destruct (mentions_error output); [|cbn; lia].
  rewrite length_map, length_take. lia.
Qed.

Lemma lint_error_issues_length e : (length (lint_error_issues e) <= 5)%nat.
Proof.
  unfold lint_error_issues. cbv zeta.
  destruct (_ || _); [|cbn; lia]. destruct (includes _ _); cbn; lia.
Qed.

Lemma ci_issues_ensures ghBase headers b :
  ensures (fun l : list CodeIssue => (length l <= 1)%nat) (ci_issues ghBase headers b).
Proof.
  unfold ci_issues. apply ensures_try_catch; [|intros; apply ensures_ret; cbn; lia].
  eapply ensures_bind; [apply ensures_any|intros encoded _].
  eapply ensures_bind; [apply ensures_any|intros runsResp _].
  destruct (ok runsResp); [|apply ensures_ret; cbn; lia].
  eapply ensures_bind; [apply ensures_any|intros runsJson _].
  eapply ensures_bind; [apply ensures_any|intros failedRuns _].
  destruct failedRuns; apply ensures_ret; cbn; lia.
Qed.

Lemma sound_analysis_intro rn b lc (lintIssues ciIssues : list CodeIssue) :
  (length lintIssues <= 5)%nat -> (length ciIssues <= 1)%nat ->
  sound_analysis
    {| repoName := rn; branch := b; lastCommit := lc;
       issues := lintIssues ++ ciIssues;
       testsPass :=
         match ciIssues with [] => true | _ => false end
         && match lintIssues ++ ciIssues with [] => true | _ => false end |}.
Proof.
  intros Hl Hc. split; cbn [testsPass issues].
  - destruct ciIssues; [|discriminate]. cbn [andb].
    destruct (lintIssues ++ []); [reflexivity|discriminate].
  - rewrite length_app. lia.
Qed.

Lemma analyzeRepository_returns repoUrl branchParam :
  returns sound_analysis (analyzeRepository repoUrl branchParam).
Proof.
  unfold analyzeRepository.
  apply returns_try_finally; [|apply release_workspace_logged_returns].
  apply returns_try_catch.
  - destruct (search repo_url_regex 2 repoUrl) as [repoMatch|]; [|apply ensures_throw].
    cbv zeta.
    eapply ensures_bind; [apply ensures_any|intros token _].
    eapply ensures_bind; [apply ensures_any|intros repoResp _].
    destruct (negb (ok repoResp)); [apply ensures_throw|].
    eapply ensures_bind; [apply ensures_any|intros repoJson _].
    eapply ensures_bind; [apply ensures_any|intros tmpDir _].
    eapply ensures_bind; [apply ensures_any|intros latest _].
    apply (ensures_bind (fun l : list CodeIssue => (length l <= 5)%nat)).
    { apply ensures_try_catch.
      - eapply ensures_bind; [apply ensures_any|intros out _].
        apply ensures_ret, lint_issues_length.
      - intros e. apply ensures_ret, lint_error_issues_length. }
    intros lintIssues Hlint.
    eapply ensures_bind; [apply ci_issues_ensures|intros ciIssues Hci].
    apply ensures_ret, sound_analysis_intro; assumption.
  - intros error. apply returns_ret. split; [discriminate|cbn; lia].
Qed.

(** X13: [analyzeRepository] never throws; a result with [testsPass]
    carries no issue, and no result carries more than six issues. *)
Theorem analyzeRepository_never_throws (repoUrl : jstring)
    (branchParam : option jstring) (env : environment) (tmpDir : option jstring)
    (w : world) :
  exists result,
    fst (fst (analyzeRepository repoUrl branchParam env tmpDir w)) = Ret result
    /\ (testsPass result = true -> issues result = [])
    /\ (length (issues result) <= 6)%nat.
Proof.
  destruct (analyzeRepository_returns repoUrl branchParam env tmpDir w)
    as (result & Hret & Hpass & Hlen).
  eauto.
Qed.
(** ** The dependency report *)

Lemma outdated_entry_type e o :
  outdated_entry e = Ret o -> od_type o ∈ DEPENDENCY_TYPES.
Proof.
  destruct e as [name info]. unfold outdated_entry.
  destruct (prop_strict "current" info); [|discriminate]. cbn [obind].
  destruct (prop_strict "latest" info); [|discriminate]. cbn [obind].
  destruct (prop_strict "type" info) as [type|]; [|discriminate]. cbn [obind].
  intros H. assert (Ht : od_type o ∈ DEPENDENCY_TYPES); [|exact Ht].
  unfold DEPENDENCY_TYPES.
  destruct type as [| | | |t| |]; try destruct (streq t (js "devDependencies"));
    injection H as <-; cbn [od_type]; set_solver.
Qed.

Lemma vulnerability_entry_severity v x :
  vulnerability_entry v = Ret x -> vu_severity x ∈ VALID_SEVERITIES.
Proof.
  unfold vulnerability_entry.
  destruct (severity_candidate v) as [candidate|]; [|discriminate]. cbn [obind].
  intros H. assert (Hx : vu_severity x = 
     match candidate with
     | Some c => if negb (streq c []) && bool_decide (c ∈ VALID_SEVERITIES)
                 then c else js "low"
     | None => js "low"
     end) by (injection H as <-; reflexivity).
  rewrite Hx. clear H Hx.
  assert (Hlow : js "low" ∈ VALID_SEVERITIES) by (unfold VALID_SEVERITIES; set_solver).
  destruct candidate as [c|]; [|exact Hlow].
  destruct (negb (streq c [])); cbn [andb]; [|exact Hlow].
  destruct (bool_decide_reflect (c ∈ VALID_SEVERITIES)); [assumption|exact Hlow].
Qed.

Lemma map_outcome_Forall {A B} (f : A -> outcome B) (Q : B -> Prop) l bs :
  (forall a b, f a = Ret b -> Q b) -> map_outcome f l = Ret bs -> Forall Q bs.
Proof.
  intros Hf H. apply omap_Ret in H.
  induction H as [|a b l bs Hab _ IH]; constructor; eauto.
Qed.

Lemma dependency_report_normalized tmpDir :
  ensures normalized (dependency_report tmpDir).
Proof.
  unfold dependency_report.
  eapply ensures_bind; [apply ensures_any|intros out1 _].
  eapply ensures_bind; [apply ensures_any|intros outdatedRecord _].
  eapply ensures_bind; [apply ensures_any|intros out2 _].
  eapply ensures_bind; [apply ensures_any|intros auditData _].
  eapply ensures_bind; [apply ensures_any|intros entries _].
  apply (ensures_bind (Forall (fun o => od_type o ∈ DEPENDENCY_TYPES))).
  { apply ensures_lift. intros l Hl.
    exact (map_outcome_Forall _ _ _ _ outdated_entry_type Hl). }
  intros outdatedList Hout.
  eapply ensures_bind; [apply ensures_any|intros vulns _].
  eapply ensures_bind; [apply ensures_any|intros values _].
  apply (ensures_bind (Forall (fun v => vu_severity v ∈ VALID_SEVERITIES))).
  { apply ensures_lift. intros l Hl.
    exact (map_outcome_Forall _ _ _ _ vulnerability_entry_severity Hl). }
  intros vulnerabilities Hvu.
  apply ensures_ret. split; assumption.
Qed.

(** X14: in every dependency report each outdated package is typed
    [dependencies] or [devDependencies] and each vulnerability has one of
    the four valid severities. *)
Theorem dependency_report_is_normalized (repoUrl : jstring) (env : environment)
    (tmpDir : option jstring) (w : world) (report : DependencyReport) :
  fst (fst (checkDependencies repoUrl env tmpDir w)) = Ret report ->
  Forall (fun o => od_type o ∈ DEPENDENCY_TYPES) (outdated report)
  /\ Forall (fun v => vu_severity v ∈ VALID_SEVERITIES) (vulnerabilities report).
Proof.
  assert (H : ensures normalized (checkDependencies repoUrl)).
  { unfold checkDependencies. apply ensures_try_finally.
    eapply ensures_bind; [apply ensures_any|intros dir _].
    apply ensures_try_catch; [apply dependency_report_normalized|].
    intros e. apply ensures_ret. split; constructor. }
  apply H.
Qed.

Lemma dependency_report_witness :
  fst (fst (checkDependencies repo_url npm_machine None empty_world)) = Ret npm_report
  /\ Forall (fun o => od_type o ∈ DEPENDENCY_TYPES) (outdated npm_report)
  /\ Forall (fun v => vu_severity v ∈ VALID_SEVERITIES) (vulnerabilities npm_report).
Proof.
  split; [vm_compute; reflexivity|].
  apply (dependency_report_is_normalized repo_url npm_machine None empty_world npm_report).
  vm_compute. reflexivity.
Defined.
(** ** The formatter and the lint fixer *)

(** X15: when the workspace can be created, cloned into and removed,
    [formatCode] and [fixLintErrors] return, and their [success] field
    tells whether the shell command completed. *)
Theorem fixer_reports_command_outcome (f : fixer) (repoUrl suffix : jstring)
    (env : environment) (w : world) :
  let prefix := os_tmpdir env ++ js "/" ++ js (fixer_prefix f) in
  let dir := prefix ++ suffix in
  mkdtemp_answer env prefix = Ret suffix ->
  clone_answer env repoUrl dir [js "--depth"; js "1"] = None ->
  rm_answer env dir = None ->
  run_fixer f repoUrl env w
  = Ret (completes env (fixer_command f) (exec_default dir)).
Proof.
  cbv zeta. intros Hmk Hcl Hrm.
  destruct (tmp_dir_cons (os_tmpdir env) (fixer_prefix f) suffix) as (c & t & Hd).
  unfold completes.
  destruct f; cbn [fixer_prefix fixer_command run_fixer] in *;
    unfold formatCode, fixLintErrors, try_finally, bind;
    rewrite acquire_workspace_run; cbv zeta; rewrite Hmk, Hcl;
    unfold try_catch, execAsync, ret;
    destruct (exec_answer env _ _); rewrite Hd, release_workspace_run;
    rewrite <- Hd, Hrm; reflexivity.
Qed.

Lemma fixer_reports_witness :
  (mkdtemp_answer jest_machine (os_tmpdir jest_machine ++ js "/" ++ js (fixer_prefix EslintFix))
   = Ret (js "a1B2c3")
   /\ clone_answer jest_machine repo_url
        ((os_tmpdir jest_machine ++ js "/" ++ js (fixer_prefix EslintFix)) ++ js "a1B2c3")
        [js "--depth"; js "1"] = None
   /\ rm_answer jest_machine
        ((os_tmpdir jest_machine ++ js "/" ++ js (fixer_prefix EslintFix)) ++ js "a1B2c3")
      = None)
  /\ run_fixer EslintFix repo_url jest_machine empty_world = Ret true.
Proof.
  split; [repeat split; reflexivity|].
  apply (fixer_reports_command_outcome EslintFix repo_url (js "a1B2c3") jest_machine
           empty_world); reflexivity.
Defined.

(** ** Directory listings *)

Lemma directory_item_type item d :
  directory_item item = Ret d -> item_type d ∈ ITEM_TYPES.
Proof.
  unfold directory_item. destruct (prop_strict "name" item); [|discriminate].
  cbn [obind]. intros H.
  assert (Ht : item_type d = match prop "type" item with
                             | JStr t => if streq t (js "dir") then js "dir" else js "file"
                             | _ => js "file"
                             end) by (injection H as <-; reflexivity).
  rewrite Ht. unfold ITEM_TYPES.
  destruct (prop "type" item) as [| | | |t| |]; try destruct (streq t (js "dir"));
    set_solver.
Qed.

Lemma listFilesFromRepo_typed repoUrl path branch :
  ensures (Forall (fun d => item_type d ∈ ITEM_TYPES))
    (listFilesFromRepo repoUrl path branch).
Proof.
  unfold listFilesFromRepo.
  eapply ensures_bind; [apply ensures_any|intros ids _]. cbv zeta.
  eapply ensures_bind; [apply ensures_any|intros [[|c t]|] _]; try apply ensures_throw.
  eapply ensures_bind; [apply ensures_any|intros targetBranch _].
  eapply ensures_bind; [apply ensures_any|intros encoded _].
  eapply ensures_bind; [apply ensures_any|intros response _].
  eapply ensures_bind; [apply ensures_any|intros payload _].
  destruct (_ || _); [apply ensures_throw|].
  apply ensures_lift. intros l Hl.
  exact (map_outcome_Forall _ _ _ _ directory_item_type Hl).
Qed.

(** X16: listing a directory on a given branch sends one request, for
    that branch percent-encoded, without looking up the default branch;
    every item returned is typed [dir] or [file]. *)
Theorem listing_on_given_branch (repoUrl path : jstring) (b : N) (r encoded : jstring)
    (ids : GitHubRepoIdentifiers) (c : N) (t : jstring) (env : environment) (w : world) :
  extractRepoIdentifiers repoUrl = Ret ids ->
  process_env env "GITHUB_TOKEN" = Some (c :: t) ->
  encodeURIComponent (b :: r) = Ret encoded ->
  let run := listFilesFromRepo repoUrl path (Some (b :: r)) env tt w in
  new_calls w (snd run)
  = [EFetch (GET (listing_url (owner ids ++ js "/" ++ repo ids) path encoded)
               (github_headers (c :: t)))]
  /\ forall items, fst (fst run) = Ret items ->
       Forall (fun d => item_type d ∈ ITEM_TYPES) items.
Proof.
  intros Hids Htok Henc. cbv zeta. split.
  - unfold listFilesFromRepo. rewrite Hids. run_comp. rewrite Htok.
    cbn [to_string]. rewrite Henc. unfold log_event. cbn [trace fs].
    destruct (fetch_answer env _) as [resp|e]; [|trace_done].
    rewrite parseJsonSafe_run.
    cbv beta iota. destruct (_ || _); trace_done.
  - intros items. apply listFilesFromRepo_typed.
Qed.

Lemma listing_witness :
  (extractRepoIdentifiers repo_url = Ret {| owner := js "o"; repo := js "r" |}
   /\ process_env listing_machine "GITHUB_TOKEN" = Some (103 :: js "hp_token")
   /\ encodeURIComponent (100 :: js "ev") = Ret (js "dev"))
  /\ new_calls empty_world
       (snd (listFilesFromRepo repo_url (js "src") (Some (100 :: js "ev"))
               listing_machine tt empty_world))
     = [EFetch (GET (listing_url (js "o" ++ js "/" ++ js "r") (js "src") (js "dev"))
                  (github_headers (103 :: js "hp_token")))]
  /\ forall items,
       fst (fst (listFilesFromRepo repo_url (js "src") (Some (100 :: js "ev"))
                   listing_machine tt empty_world)) = Ret items ->
       Forall (fun d => item_type d ∈ ITEM_TYPES) items.
Proof.
  split; [repeat split; reflexivity|].
  apply (listing_on_given_branch repo_url (js "src") 100 (js "ev") (js "dev")
           {| owner := js "o"; repo := js "r" |} 103 (js "hp_token") listing_machine
           empty_world); reflexivity.
Defined.

Example listing_example :
  fst (fst (listFilesFromRepo repo_url (js "src") (Some (js "dev")) listing_machine tt
              empty_world))
  = Ret [{| item_name := js "index.ts"; item_path := js "src/index.ts";
            item_type := js "file"; item_size := Some (js "120") |};
         {| item_name := js "lib"; item_path := js "src/lib";
            item_type := js "dir"; item_size := None |};
         {| item_name := js "mod"; item_path := js "src/mod";
            item_type := js "file"; item_size := None |}].
Proof. vm_compute. reflexivity. Qed.
(** ** Tools and their defaults *)

(** X20: the label tool caps at [maxLabels], three when it is not given:
    no request carries more labels than that, and every label sent is a
    trimmed, non-empty string. *)
Theorem label_tool_caps_at_three_by_default (repoUrl : jstring) (prNumber : N)
    (maxLabels : option Z) (env : environment) (w : world) :
  (0 <= default 3 maxLabels)%Z ->
  forall e ls,
    e ∈ new_calls w (snd (generatePRLabelsTool repoUrl prNumber maxLabels env tt w)) ->
    sent_labels e = Some ls ->
    (Z.of_nat (length ls) <= default 3 maxLabels)%Z /\ Forall good_label ls.
Proof.
  intros Hcap e ls He Hls. unfold generatePRLabelsTool in He.
  pose proof (emits_new_calls _ _ env tt w
                (generateAndApplyLabels_emits repoUrl prNumber _ Hcap)) as Hall.
  rewrite Forall_forall in Hall. exact (Hall e He ls Hls).
Qed.

Lemma label_tool_witness :
  (0 <= default 3 None)%Z
  /\ forall e ls,
       e ∈ new_calls empty_world
             (snd (generatePRLabelsTool repo_url 7 None labels_machine tt empty_world)) ->
       sent_labels e = Some ls ->
       (Z.of_nat (length ls) <= default 3 None)%Z /\ Forall good_label ls.
Proof.
  split; [cbn; lia|].
  apply (label_tool_caps_at_three_by_default repo_url 7 None labels_machine empty_world).
  cbn. lia.
Defined.

(** ** Analysis of a URL that is not a repository *)

(** X17: on a URL that is not a GitHub repository address,
    [analyzeRepository] makes no external call, leaves [tmpDir] unset and
    returns the [unknown] result with a single critical build error. *)
Theorem analysis_of_invalid_url_touches_nothing (repoUrl : jstring)
    (branchParam : option jstring) (e : js_error) (env : environment) (w : world) :
  extractRepoIdentifiers repoUrl = Throw e ->
  analyzeRepository repoUrl branchParam env None w
  = (Ret {| repoName := js "unknown";
            branch := JStr (opt_str_or branchParam (js "main"));
            lastCommit := js "unknown";
            issues :=
              [{| ci_type := build_error; ci_severity := critical;
                  ci_message :=
                    js "Failed to analyze repository: Invalid GitHub URL format";
                  ci_suggestion :=
                    Some (js "Check repository URL and access permissions") |}];
            testsPass := false |},
     None, w).
Proof.
  intros H. unfold extractRepoIdentifiers in H. unfold analyzeRepository.
  destruct (search repo_url_regex 2 repoUrl); [discriminate|].
  reflexivity.
Qed.

Lemma analysis_of_invalid_url_witness :
  extractRepoIdentifiers (js "https://example.org/o/r") = Throw (Error (js "Invalid GitHub URL"))
  /\ analyzeRepository (js "https://example.org/o/r") None (machine [] []) None
       empty_world
     = (Ret {| repoName := js "unknown";
              branch := JStr (js "main");
              lastCommit := js "unknown";
              issues :=
                [{| ci_type := build_error; ci_severity := critical;
                    ci_message :=
                      js "Failed to analyze repository: Invalid GitHub URL format";
                    ci_suggestion :=
                      Some (js "Check repository URL and access permissions") |}];
              testsPass := false |},
        None, empty_world).
Proof.
  split; [reflexivity|].
  apply (analysis_of_invalid_url_touches_nothing (js "https://example.org/o/r") None
           (Error (js "Invalid GitHub URL")) (machine [] []) empty_world).
  reflexivity.
Defined.

(** ** The drafted title and description *)

Lemma slice_value_clipped n v r : slice_value n v = Ret r -> clipped n r.
Proof.
  unfold slice_value, slice0.
  destruct v; try discriminate; intros H;
    assert (Hr : r = _) by (symmetry; injection H as H; exact H);
    rewrite Hr; cbn [clipped]; rewrite length_take; lia.
Qed.

Lemma describe_draft_clipped repoName prNumber cfg :
  ensures (fun d => clipped 256 (draft_title d) /\ clipped 40000 (draft_description d))
    (describe_draft repoName prNumber cfg).
Proof.
  unfold describe_draft.
  eapply ensures_bind; [apply ensures_any|intros prMeta _].
  eapply ensures_bind; [apply ensures_any|intros filesResp _].
  eapply ensures_bind; [apply ensures_any|intros files _].
  eapply ensures_bind; [apply ensures_any|intros filesSummary _].
  eapply ensures_bind; [apply ensures_any|intros currentTitle _]. cbv zeta.
  eapply ensures_bind; [apply ensures_any|intros openaiData _].
  eapply ensures_bind; [apply ensures_any|intros choices _].
  eapply ensures_bind; [apply ensures_any|intros choice _].
  eapply ensures_bind; [apply ensures_any|intros msg _].
  eapply ensures_bind; [apply ensures_any|intros rawContent _].
  eapply ensures_bind; [apply ensures_any|intros parsedTitle _].
  apply (ensures_bind (clipped 256)).
  { apply ensures_lift. intros r Hr. exact (slice_value_clipped 256 _ r Hr). }
  intros title Htitle.
  apply (ensures_bind (clipped 40000)).
  { apply ensures_lift. intros r Hr. exact (slice_value_clipped 40000 _ r Hr). }
  intros description Hdescription.
  apply ensures_ret. split; assumption.
Qed.

(** X18: the title returned by [aiDescribePullRequest] has at most 256
    units and the description at most 40000. *)
Theorem described_title_and_body_are_clipped (repoUrl : jstring) (prNumber : N)
    (publish : bool) (env : environment) (w : world) (result : DescribeResult) :
  fst (fst (aiDescribePullRequest repoUrl prNumber publish env tt w)) = Ret result ->
  clipped 256 (title result) /\ clipped 40000 (description result).
Proof.
  assert (H : ensures (fun r => clipped 256 (title r) /\ clipped 40000 (description r))
                (aiDescribePullRequest repoUrl prNumber publish)).
  { unfold aiDescribePullRequest.
    eapply ensures_bind; [apply ensures_any|intros ids _]. cbv zeta.
    eapply ensures_bind; [apply ensures_any|intros cfg _].
    eapply ensures_bind; [apply describe_draft_clipped|intros draft Hdraft].
    eapply ensures_bind; [apply ensures_any|intros published _].
    apply ensures_ret. exact Hdraft. }
  apply H.
Qed.

Lemma described_clipped_witness :
  fst (fst (aiDescribePullRequest repo_url 7 true patch_forbidden_machine tt empty_world))
  = Ret {| describe_success := true;
           title := JStr (js "Fix the crash");
           description := JStr (js "Guards the null case");
           describe_model := js "gpt-4o-mini";
           published := false |}
  /\ clipped 256 (JStr (js "Fix the crash"))
  /\ clipped 40000 (JStr (js "Guards the null case")).
Proof.
  split; [vm_compute; reflexivity|].
  apply (described_title_and_body_are_clipped repo_url 7 true patch_forbidden_machine
           empty_world
           {| describe_success := true;
              title := JStr (js "Fix the crash");
              description := JStr (js "Guards the null case");
              describe_model := js "gpt-4o-mini";
              published := false |}).
  vm_compute. reflexivity.
Defined.
(** ** Encoded query parameters *)

Lemma hex_upper_unreserved d : d < 16 -> unreserved (hex_upper d) = true.
Proof.
  intros Hd. unfold hex_upper, unreserved. destruct (N.ltb_spec d 10).
  - assert (is_digit (48 + d) = true) as ->; [|reflexivity].
    unfold is_digit. apply andb_true_iff. split; apply N.leb_le; lia.
  - assert ((65 <=? 55 + d) && (55 + d <=? 90) = true) as ->.
    { apply andb_true_iff. split; apply N.leb_le; lia. }
    rewrite orb_true_r. reflexivity.
Qed.

Lemma pct_inert b : b < 256 -> forallb inert (pct b) = true.
Proof.
  intros Hb. unfold pct. cbn [forallb]. unfold inert at 1. cbn [N.eqb Pos.eqb].
  rewrite orb_true_r. cbn [andb]. unfold inert.
  rewrite !hex_upper_unreserved; [reflexivity| |].
  - apply N.mod_lt. discriminate.
  - apply N.Div0.div_lt_upper_bound. exact Hb.
Qed.

Lemma forallb_inert_app a b :
  forallb inert a = true -> forallb inert b = true -> forallb inert (a ++ b) = true.
Proof. intros Ha Hb. rewrite forallb_app, Ha, Hb. reflexivity. Qed.

Lemma encodeURIComponent_inert_upto (n : nat) (s t : jstring) :
  (length s <= n)%nat ->
  forallb code_unit s = true ->
  encodeURIComponent s = Ret t -> forallb inert t = true.
Proof.
  revert s t. induction n as [|n IH]; intros s t Hlen Hs He.
  - destruct s; [|cbn in Hlen; lia]. cbn in He. 
    assert (t = []) as -> by congruence. reflexivity.
  - destruct s as [|c r]; [cbn in He; assert (t = []) as -> by congruence; reflexivity|].
    cbn [length] in Hlen. cbn [forallb] in Hs. apply andb_true_iff in Hs as [Hc Hr].
    unfold code_unit in Hc. apply N.ltb_lt in Hc.
    cbn [encodeURIComponent] in He.
    destruct (unreserved c) eqn:Hun.
    { destruct (encodeURIComponent r) as [t'|] eqn:Hr'; [|discriminate].
      assert (t = c :: t') as -> by congruence. cbn [forallb].
      unfold inert at 1. rewrite Hun. cbn [orb andb].
      apply (IH r t'); [lia|exact Hr|exact Hr']. }
    destruct (N.ltb_spec c 128).
    { destruct (encodeURIComponent r) as [t'|] eqn:Hr'; [|discriminate].
      assert (t = pct c ++ t') as -> by congruence.
      apply forallb_inert_app; [apply pct_inert; lia|].
      apply (IH r t'); [lia|exact Hr|exact Hr']. }
    destruct (N.ltb_spec c 2048).
    { destruct (encodeURIComponent r) as [t'|] eqn:Hr'; [|discriminate].
      assert (t = pct (192 + c / 64) ++ pct (128 + c mod 64) ++ t') as -> by congruence.
      assert (c / 64 < 32) by (apply N.Div0.div_lt_upper_bound; lia).
      assert (c mod 64 < 64) by (apply N.mod_lt; discriminate).
      repeat apply forallb_inert_app; try (apply pct_inert; lia).
      apply (IH r t'); [lia|exact Hr|exact Hr']. }
    destruct ((55296 <=? c) && (c <=? 56319)) eqn:Hhigh.
    { apply andb_true_iff in Hhigh as [H1 H2]. apply N.leb_le in H1, H2.
      destruct r as [|c2 r2]; [discriminate|].
      destruct ((56320 <=? c2) && (c2 <=? 57343)) eqn:Hlow; [|discriminate].
      apply andb_true_iff in Hlow as [H3 H4]. apply N.leb_le in H3, H4.
      cbv zeta in He.
      set (cp := 65536 + (c - 55296) * 1024 + (c2 - 56320)) in *.
      destruct (encodeURIComponent r2) as [t'|] eqn:Hr'; [|discriminate].
      assert (t = pct (240 + cp / 262144) ++ pct (128 + (cp / 4096) mod 64)
                  ++ pct (128 + (cp / 64) mod 64) ++ pct (128 + cp mod 64) ++ t')
        as -> by congruence.
      assert (cp < 1114112) by (unfold cp; lia).
      assert (cp / 262144 < 5) by (apply N.Div0.div_lt_upper_bound; lia).
      assert ((cp / 4096) mod 64 < 64) by (apply N.mod_lt; discriminate).
      assert ((cp / 64) mod 64 < 64) by (apply N.mod_lt; discriminate).
      assert (cp mod 64 < 64) by (apply N.mod_lt; discriminate).
      repeat apply forallb_inert_app; try (apply pct_inert; lia).
      cbn [forallb] in Hr. apply andb_true_iff in Hr as [_ Hr2].
      apply (IH r2 t'); [cbn [length] in Hlen; lia|exact Hr2|exact Hr']. }
    destruct ((56320 <=? c) && (c <=? 57343)); [discriminate|].
    destruct (encodeURIComponent r) as [t'|] eqn:Hr'; [|discriminate].
    assert (t = pct (224 + c / 4096) ++ pct (128 + (c / 64) mod 64)
                ++ pct (128 + c mod 64) ++ t') as -> by congruence.
    assert (c / 4096 < 16) by (apply N.Div0.div_lt_upper_bound; lia).
    assert ((c / 64) mod 64 < 64) by (apply N.mod_lt; discriminate).
    assert (c mod 64 < 64) by (apply N.mod_lt; discriminate).
    repeat apply forallb_inert_app; try (apply pct_inert; lia).
    apply (IH r t'); [lia|exact Hr|exact Hr'].
Qed.

Lemma encodeURIComponent_inert (s t : jstring) :
  forallb code_unit s = true ->
  encodeURIComponent s = Ret t -> forallb inert t = true.
Proof. apply (encodeURIComponent_inert_upto (length s)). lia. Qed.

(** X19: the query of a code search cannot alter the request.  Every
    request of [findFileInRepo] goes to the code-search endpoint with a [q]
    parameter made of unreserved characters and percent escapes only,
    followed by [&per_page=20]. *)
Theorem search_query_stays_one_parameter (repoUrl query : jstring)
    (ids : GitHubRepoIdentifiers) (c : N) (t : jstring) (env : environment)
    (w : world) (e : event) :
  extractRepoIdentifiers repoUrl = Ret ids ->
  process_env env "GITHUB_TOKEN" = Some (c :: t) ->
  forallb code_unit (query ++ js " repo:" ++ owner ids ++ js "/" ++ repo ids) = true ->
  e ∈ new_calls w (snd (findFileInRepo repoUrl query env tt w)) ->
  exists encoded,
    e = EFetch (GET (js "https://api.github.com/search/code?q=" ++ encoded
                     ++ js "&per_page=20") (github_headers (c :: t)))
    /\ forallb inert encoded = true.
Proof.
  intros Hids Htok Hunits. unfold findFileInRepo. rewrite Hids. run_comp.
  rewrite Htok.
  destruct (encodeURIComponent _) as [encoded|] eqn:Henc.
  - apply encodeURIComponent_inert in Henc; [|exact Hunits].
    unfold log_event. cbn [trace fs].
    assert (Hcalls : forall x,
      x ∈ [EFetch (GET (code_search_url encoded) (github_headers (c :: t)))] ->
      exists encoded0,
        x = EFetch (GET (js "https://api.github.com/search/code?q=" ++ encoded0
                         ++ js "&per_page=20") (github_headers (c :: t)))
        /\ forallb inert encoded0 = true).
    { intros x Hx. apply list_elem_of_singleton in Hx as ->. exists encoded. auto. }
    destruct (fetch_answer env _) as [resp|err].
    + rewrite parseJsonSafe_run. cbv beta iota.
      destruct (_ || _); trace_done; apply Hcalls.
    + trace_done. apply Hcalls.
  - unfold new_calls. cbn [snd]. rewrite drop_all. intros H.
    apply elem_of_nil in H. contradiction.
Qed.

Lemma search_query_witness :
  (extractRepoIdentifiers repo_url = Ret {| owner := js "o"; repo := js "r" |}
   /\ process_env (machine tokens []) "GITHUB_TOKEN" = Some (103 :: js "hp_token")
   /\ forallb code_unit (js "a&b=c" ++ js " repo:" ++ js "o" ++ js "/" ++ js "r") = true
   /\ EFetch (GET (js "https://api.github.com/search/code?q=a%26b%3Dc%20repo%3Ao%2Fr&per_page=20")
                (github_headers (103 :: js "hp_token")))
      ∈ new_calls empty_world
          (snd (findFileInRepo repo_url (js "a&b=c") (machine tokens []) tt empty_world)))
  /\ exists encoded,
       EFetch (GET (js "https://api.github.com/search/code?q=a%26b%3Dc%20repo%3Ao%2Fr&per_page=20")
                 (github_headers (103 :: js "hp_token")))
       = EFetch (GET (js "https://api.github.com/search/code?q=" ++ encoded
                      ++ js "&per_page=20") (github_headers (103 :: js "hp_token")))
       /\ forallb inert encoded = true.
Proof.
  assert (Hin :
    EFetch (GET (js "https://api.github.com/search/code?q=a%26b%3Dc%20repo%3Ao%2Fr&per_page=20")
              (github_headers (103 :: js "hp_token")))
    ∈ new_calls empty_world
        (snd (findFileInRepo repo_url (js "a&b=c") (machine tokens []) tt empty_world)))
    by (vm_compute; apply list_elem_of_here).
  split; [repeat split; try reflexivity; exact Hin|].
  apply (search_query_stays_one_parameter repo_url (js "a&b=c")
           {| owner := js "o"; repo := js "r" |} 103 (js "hp_token") (machine tokens [])
           empty_world _ eq_refl eq_refl eq_refl Hin).
Defined.
(** ** Network on one side, shell and disk on the other *)

Lemma emits_impl {L A} (P Q : event -> Prop) (m : M L A) :
  (forall e, P e -> Q e) -> emits P m -> emits Q m.
Proof.
  intros HPQ Hm env l w. destruct (Hm env l w) as (evs & Ht & HP).
  exists evs. split; [exact Ht|]. eapply Forall_impl; eauto.
Qed.

Lemma is_get_is_fetch e : is_get e -> is_fetch e.
Proof. destruct e; cbn; auto. Qed.

Lemma changes_nothing_is_fetch e : changes_nothing e -> is_fetch e.
Proof. destruct e; cbn; auto. Qed.

Ltac emits_fetches := repeat emits_step; try exact I.

Lemma fetches_publish_comment publish token prMeta payload :
  emits is_fetch (publish_comment publish token prMeta payload).
Proof. unfold publish_comment. emits_fetches. Qed.

Lemma fetches_publish_review publish token prMeta payload :
  emits is_fetch (publish_review publish token prMeta payload).
Proof. unfold publish_review. emits_fetches. Qed.

Lemma fetches_describe_publish publish token url prMeta title description :
  emits is_fetch (describe_publish publish token url prMeta title description).
Proof. unfold describe_publish. emits_fetches. Qed.

Lemma fetches_fetch_pr_meta_safe repoName n headers :
  emits is_fetch (fetch_pr_meta_safe repoName n headers).
Proof. eapply emits_impl; [apply changes_nothing_is_fetch|apply emits_fetch_pr_meta_safe_get]. Qed.

Lemma fetches_fetch_pr_meta what repoName n headers :
  emits is_fetch (fetch_pr_meta what repoName n headers).
Proof. eapply emits_impl; [apply changes_nothing_is_fetch|apply emits_fetch_pr_meta_get]. Qed.

Lemma fetches_aiReview repoUrl n publish :
  emits is_fetch (aiReviewPullRequest repoUrl n publish).
Proof.
  unfold aiReviewPullRequest.
  apply emits_bind_lift; intros ids _.
  apply emits_bind; [apply emits_read_llm_config|intros cfg].
  apply emits_bind; [apply fetches_fetch_pr_meta|intros prMeta].
  apply emits_bind; [apply emits_fetch; exact I|intros commitsResp].
  apply emits_bind; [destruct (ok commitsResp); auto with emits|intros commits].
  apply emits_bind_lift; intros commitMsgs _.
  apply emits_bind_lift; intros diffUrl _.
  apply emits_bind; [apply emits_fetch; exact I|intros diffResp].
  destruct (negb (ok diffResp)); [apply emits_throw|]. cbv zeta.
  apply emits_bind; [apply emits_ask_openai; exact I|intros openaiData].
  apply emits_bind; [apply fetches_publish_review|intros u; apply emits_ret].
Qed.

Lemma fetches_aiImprove repoUrl n publish :
  emits is_fetch (aiImprovePullRequest repoUrl n publish).
Proof.
  unfold aiImprovePullRequest.
  apply emits_bind_lift; intros ids _.
  apply emits_bind; [apply emits_read_llm_config|intros cfg].
  apply emits_bind; [apply fetches_fetch_pr_meta_safe|intros prMeta]. cbv zeta.
  destruct (negb (truthy _)); [apply emits_throw|].
  apply emits_bind; [apply emits_fetch; exact I|intros diffResp].
  destruct (negb (ok diffResp)); [apply emits_throw|].
  apply emits_bind; [apply emits_ask_openai_safe_any; exact I|intros openaiJson].
  apply emits_bind; [apply fetches_publish_comment|intros u; apply emits_ret].
Qed.

Lemma fetches_aiAsk repoUrl n q publish :
  emits is_fetch (aiAskPullRequest repoUrl n q publish).
Proof.
  unfold aiAskPullRequest.
  apply emits_bind_lift; intros ids _.
  apply emits_bind; [apply emits_read_llm_config|intros cfg].
  apply emits_bind; [apply fetches_fetch_pr_meta_safe|intros prMeta]. cbv zeta.
  apply emits_bind; [apply emits_ask_openai_safe_any; exact I|intros openaiJson].
  apply emits_bind; [apply fetches_publish_comment|intros u; apply emits_ret].
Qed.

Lemma fetches_aiDraftChangelog repoUrl n publish :
  emits is_fetch (aiDraftChangelog repoUrl n publish).
Proof.
  unfold aiDraftChangelog.
  apply emits_bind_lift; intros ids _.
  apply emits_bind; [apply emits_read_llm_config|intros cfg].
  apply emits_bind; [apply fetches_fetch_pr_meta_safe|intros prMeta].
  apply emits_bind; [apply emits_fetch; exact I|intros commitsResp].
  apply emits_bind; [destruct (ok commitsResp); auto with emits|intros commitsJson].
  cbv zeta. apply emits_bind_lift; intros commitMsgs _.
  apply emits_bind; [apply emits_ask_openai_safe_any; exact I|intros openaiJson].
  apply emits_bind; [apply fetches_publish_comment|intros u; apply emits_ret].
Qed.

Lemma fetches_aiDescribe repoUrl n publish :
  emits is_fetch (aiDescribePullRequest repoUrl n publish).
Proof.
  unfold aiDescribePullRequest.
  apply emits_bind_lift; intros ids _.
  apply emits_bind; [apply emits_read_llm_config|intros cfg].
  apply emits_bind.
  { eapply emits_impl; [apply changes_nothing_is_fetch|apply emits_describe_draft]. }
  intros draft.
  apply emits_bind; [apply fetches_describe_publish|intros u; apply emits_ret].
Qed.

Lemma fetches_generateAndApplyLabels repoUrl n maxLabels :
  emits is_fetch (generateAndApplyLabels repoUrl n maxLabels).
Proof.
  unfold generateAndApplyLabels.
  apply emits_bind_lift; intros ids _. cbv zeta.
  apply emits_bind; [apply emits_getenv|intros [[|c t]|]]; try apply emits_throw.
  apply emits_bind; [apply emits_read_llm_config|intros cfg].
  apply emits_bind; [apply fetches_fetch_pr_meta_safe|intros prMeta].
  apply emits_bind; [apply emits_ask_openai_safe_any; exact I|intros openaiJson].
  apply emits_bind_lift; intros labels _.
  apply emits_bind; [apply emits_fetch; exact I|intros addResp].
  apply emits_bind; [apply emits_parseJsonSafe|intros addJson].
  destruct (negb (ok addResp)); [apply emits_throw|apply emits_ret].
Qed.

Lemma fetches_guarded_request {A} ctx req (k : response -> json -> M unit A) :
  (forall r p, emits is_fetch (k r p)) ->
  emits is_fetch
    (with_context ctx
       (response <- fetch req ;; payload <- parseJsonSafe response ;; k response payload)).
Proof.
  intros H. apply emits_with_context.
  apply emits_bind; [apply emits_fetch; exact I|intros r].
  apply emits_bind; [apply emits_parseJsonSafe|intros p; apply H].
Qed.

Ltac fetches_write_op :=
  apply emits_with_repo_token; intros repoName ghToken;
  apply fetches_guarded_request; intros r p;
  match goal with |- emits _ (if ?b then _ else _) => destruct b end;
  [apply emits_throw|apply emits_ret].

Lemma fetches_commentOnGitHubIssue repoUrl n comment :
  emits is_fetch (commentOnGitHubIssue repoUrl n comment).
Proof. unfold commentOnGitHubIssue. fetches_write_op. Qed.

Lemma fetches_closeGitHubIssue repoUrl n comment :
  emits is_fetch (closeGitHubIssue repoUrl n comment).
Proof.
  unfold closeGitHubIssue. apply emits_with_repo_token. intros repoName ghToken.
  apply emits_with_context. apply emits_bind.
  - destruct comment as [[|c text]|]; try apply emits_ret.
    apply emits_bind; [apply fetches_commentOnGitHubIssue|intros; apply emits_ret].
  - intros _. apply emits_bind; [apply emits_fetch; exact I|intros r].
    apply emits_bind; [apply emits_parseJsonSafe|intros p].
    destruct (negb (ok r)); [apply emits_throw|apply emits_ret].
Qed.

(** X21: the operations addressed by a repository URL only use the
    network: none runs a command, clones, or creates or removes a
    directory. *)
Theorem remote_operations_only_use_the_network (op : remote_op) (repoUrl : jstring)
    (env : environment) (w : world) :
  Forall is_fetch (new_calls w (snd (run_remote op repoUrl env w))).
Proof.
  destruct op; unfold run_remote, listRepoFilesTool, generatePRLabelsTool,
    aiReviewPRTool, aiImprovePRTool, aiAskPRTool, updateChangelogTool,
    aiDescribePRTool; cbn [snd]; apply emits_new_calls.
  - eapply emits_impl; [apply is_get_is_fetch|apply emits_readFileFromRepo].
  - eapply emits_impl; [apply is_get_is_fetch|apply emits_listFilesFromRepo].
  - eapply emits_impl; [apply is_get_is_fetch|apply emits_findFileInRepo].
  - unfold createGitHubIssue. fetches_write_op.
  - apply fetches_commentOnGitHubIssue.
  - apply fetches_closeGitHubIssue.
  - unfold mergePullRequest. fetches_write_op.
  - unfold triggerWorkflow. fetches_write_op.
  - eapply emits_impl; [apply is_get_is_fetch|apply emits_getWorkflowStatus].
  - apply fetches_generateAndApplyLabels.
  - apply fetches_aiReview.
  - apply fetches_aiImprove.
  - apply fetches_aiAsk.
  - apply fetches_aiDraftChangelog.
  - apply fetches_aiDescribe.
Qed.
Section EmitsLocal.
Context {L : Type} (P : event -> Prop).

Lemma emits_try_finally {A} (m : M L A) (f : M L unit) :
  emits P m -> emits P f -> emits P (try_finally m f).
Proof.
  intros Hm Hf env l w. unfold try_finally.
  destruct (Hm env l w) as (evs & Ht & HP).
  destruct (m env l w) as [[o l1] w1]; cbn [snd] in *.
  destruct (Hf env l1 w1) as (evs' & Ht' & HP').
  exists (evs ++ evs').
  destruct (f env l1 w1) as [[[u|e] l2] w2]; cbn [snd] in *;
    rewrite Ht', Ht, app_assoc; (split; [reflexivity|apply Forall_app; auto]).
Qed.

Lemma emits_one {A} (m : M L A) (e : event) :
  P e -> (forall env l w, trace (snd (m env l w)) = trace w ++ [e]) -> emits P m.
Proof.
  intros HP H env l w. exists [e]. split; [apply H|]. constructor; [exact HP|constructor].
Qed.

Lemma emits_mkdtemp prefix : P (EMkdtemp prefix) -> emits P (mkdtemp prefix : M L _).
Proof.
  intros HP. apply (emits_one _ (EMkdtemp prefix) HP). intros env l w.
  unfold mkdtemp. destruct (mkdtemp_answer env prefix); reflexivity.
Qed.

Lemma emits_clone url dir args :
  P (EClone url dir args) -> emits P (clone url dir args : M L _).
Proof.
  intros HP. apply (emits_one _ (EClone url dir args) HP). intros env l w.
  unfold clone. destruct (clone_answer env url dir args); reflexivity.
Qed.

Lemma emits_execAsync cmd opts :
  P (EExec cmd opts) -> emits P (execAsync cmd opts : M L _).
Proof. intros HP. apply (emits_one _ (EExec cmd opts) HP). reflexivity. Qed.

Lemma emits_rm dir : P (ERm dir) -> emits P (rm dir : M L _).
Proof.
  intros HP. apply (emits_one _ (ERm dir) HP). intros env l w.
  unfold rm. destruct (rm_answer env dir); reflexivity.
Qed.

Lemma emits_get_local : emits P (get_local : M L L).
Proof. apply emits_silent. reflexivity. Qed.

Lemma emits_set_local l : emits P (set_local l : M L unit).
Proof. apply emits_silent. reflexivity. Qed.

Lemma emits_tmp_path name : emits P (tmp_path name : M L _).
Proof. apply emits_silent. reflexivity. Qed.
End EmitsLocal.

Lemma local_acquire_workspace name url args :
  emits is_local (acquire_workspace name url args).
Proof.
  unfold acquire_workspace.
  apply emits_bind; [apply emits_tmp_path|intros prefix].
  apply emits_bind; [apply emits_mkdtemp; exact I|intros tmpDir].
  apply emits_bind; [apply emits_set_local|intros _].
  apply emits_bind; [apply emits_clone; exact I|intros _; apply emits_ret].
Qed.

Lemma local_release_workspace : emits is_local release_workspace.
Proof.
  unfold release_workspace. apply emits_bind; [apply emits_get_local|].
  intros [[|c d]|]; try apply emits_ret. apply emits_rm. exact I.
Qed.

Lemma local_release_workspace_logged : emits is_local release_workspace_logged.
Proof.
  unfold release_workspace_logged. apply emits_bind; [apply emits_get_local|].
  intros [[|c d]|]; try apply emits_ret.
  apply emits_try_catch; [apply emits_rm; exact I|intros; apply emits_ret].
Qed.

Lemma local_exec_then {A} cmd opts (k : jstring * jstring -> M (option jstring) A) :
  (forall out, emits is_local (k out)) ->
  emits is_local (bind (execAsync cmd opts) k).
Proof. intros H. apply emits_bind; [apply emits_execAsync; exact I|exact H]. Qed.

Lemma local_dependency_report tmpDir : emits is_local (dependency_report tmpDir).
Proof.
  unfold dependency_report.
  apply local_exec_then; intros out1.
  apply emits_bind_lift; intros outdatedRecord _.
  apply local_exec_then; intros out2.
  repeat (apply emits_bind_lift; intros ? _).
  apply emits_ret.
Qed.

Lemma local_runTests repoUrlParam testCommandParam :
  emits is_local (runTests repoUrlParam testCommandParam).
Proof.
  assert (Hlocal : forall u, emits is_local (runTests_local u testCommandParam)).
  { intros u. unfold runTests_local.
    apply emits_try_finally; [|apply local_release_workspace_logged].
    apply emits_try_catch; [|intros; apply emits_ret].
    apply emits_bind; [apply local_acquire_workspace|intros tmpDir]. cbv zeta.
    apply emits_try_catch; [|intros; apply emits_ret].
    apply local_exec_then; intros out. apply emits_ret. }
  assert (Hremote : forall u, emits is_local (runTests_remote u testCommandParam)).
  { intros u. unfold runTests_remote.
    apply emits_try_catch; [|intros; apply emits_ret].
    apply emits_bind; [apply emits_getenv|intros envTestCmd]. cbv zeta.
    apply emits_bind; [apply emits_getenv|intros envMarket].
    destruct (opt_str_or envMarket []); [apply emits_throw|].
    apply local_exec_then; intros out. apply emits_ret. }
  unfold runTests. apply emits_bind; [apply emits_getenv|intros nosana].
  destruct nosana as [flag|], repoUrlParam as [[|c u]|]; try apply emits_ret;
    try apply Hlocal.
  destruct (streq flag (js "true")); [apply Hremote|apply Hlocal].
Qed.

(** X22: the dependency check, the formatter, the lint fixer and the
    test run never send a request. *)
Theorem offline_operations_never_fetch (op : workspace_op) (env : environment)
    (w : world) :
  offline_op op = true -> Forall is_local (calls_of op env w).
Proof.
  intros Hop. unfold calls_of.
  destruct op; try discriminate Hop; cbn [world_after];
    apply (emits_new_calls is_local).
  - unfold checkDependencies.
    apply emits_try_finally; [|apply local_release_workspace].
    apply emits_bind; [apply local_acquire_workspace|intros tmpDir].
    apply emits_try_catch; [apply local_dependency_report|intros; apply emits_ret].
  - unfold formatCode.
    apply emits_try_finally; [|apply local_release_workspace].
    apply emits_bind; [apply local_acquire_workspace|intros tmpDir].
    apply emits_try_catch; [|intros; apply emits_ret].
    apply local_exec_then; intros out. apply emits_ret.
  - unfold fixLintErrors.
    apply emits_try_finally; [|apply local_release_workspace].
    apply emits_bind; [apply local_acquire_workspace|intros tmpDir].
    apply emits_try_catch; [|intros; apply emits_ret].
    apply local_exec_then; intros out. apply emits_ret.
  - apply local_runTests.
Qed.

Lemma offline_operations_witness :
  offline_op (CheckDependencies repo_url) = true
  /\ Forall is_local (calls_of (CheckDependencies repo_url) npm_machine empty_world).
Proof.
  split; [reflexivity|].
  apply (offline_operations_never_fetch (CheckDependencies repo_url) npm_machine
           empty_world).
  reflexivity.
Defined.
(** ** Remote test runs *)

Lemma jobs_runTests_remote repoUrl cmd : emits is_job (runTests_remote repoUrl cmd).
Proof.
  unfold runTests_remote.
  apply emits_try_catch; [|intros; apply emits_ret].
  apply emits_bind; [apply emits_getenv|intros envTestCmd]. cbv zeta.
  apply emits_bind; [apply emits_getenv|intros envMarket].
  destruct (opt_str_or envMarket []); [apply emits_throw|].
  apply emits_bind; [|intros; apply emits_ret].
  apply emits_execAsync. cbn [is_job].
  change (jsq "nosana job post bash -lc 'git clone ")
    with (js "nosana job post " ++ jsq "bash -lc 'git clone ").
  rewrite <- app_assoc. apply startsWith_app.
Qed.

(** X23: with [NOSANA_ENABLED] set to [true], a test run makes at most
    one external call, the posting of a job; without [NOSANA_MARKET] it
    makes none and reports the missing setting. *)
Theorem remote_test_run_posts_one_job (c : N) (u : jstring)
    (testCommandParam : option jstring) (env : environment)
    (tmpDir : option jstring) (w : world) :
  process_env env "NOSANA_ENABLED" = Some (js "true") ->
  let run := runTests (Some (c :: u)) testCommandParam env tmpDir w in
  Forall is_job (new_calls w (snd run))
  /\ (length (new_calls w (snd run)) <= 1)%nat
  /\ (unset env "NOSANA_MARKET" = true ->
      new_calls w (snd run) = []
      /\ fst (fst run)
         = Ret (failed_run 0 [js "NOSANA_ENABLED set but NOSANA_MARKET missing"] [])).
Proof.
  intros Hflag. cbv zeta.
  assert (Hrun : runTests (Some (c :: u)) testCommandParam env tmpDir w
                 = runTests_remote (c :: u) testCommandParam env tmpDir w).
  { unfold runTests. run_comp. rewrite Hflag. reflexivity. }
  rewrite Hrun. split; [apply emits_new_calls, jobs_runTests_remote|].
  unfold runTests_remote. run_comp. unfold unset.
  destruct (opt_str_or (process_env env "NOSANA_MARKET") []) as [|m market].
  - cbn [snd fst]. unfold new_calls. rewrite drop_all. cbn [length].
    split; [lia|]. intros _. split; reflexivity.
  - split; [|discriminate].
    unfold log_event. cbn [trace fs].
    destruct (exec_answer env _ _); cbn [snd]; trace_done.
Qed.

Lemma remote_test_run_witness :
  process_env market_machine "NOSANA_ENABLED" = Some (js "true")
  /\ Forall is_job
       (new_calls empty_world
          (snd (runTests (Some (104 :: js "ttps://github.com/o/r")) None market_machine
                  None empty_world)))
  /\ Nat.le
       (length (new_calls empty_world
                  (snd (runTests (Some (104 :: js "ttps://github.com/o/r")) None
                          market_machine None empty_world)))) 1
  /\ (unset market_machine "NOSANA_MARKET" = true ->
      new_calls empty_world
        (snd (runTests (Some (104 :: js "ttps://github.com/o/r")) None market_machine
                None empty_world)) = []
      /\ fst (fst (runTests (Some (104 :: js "ttps://github.com/o/r")) None
                     market_machine None empty_world))
         = Ret (failed_run 0 [js "NOSANA_ENABLED set but NOSANA_MARKET missing"] [])).
Proof.
  split; [reflexivity|].
  apply (remote_test_run_posts_one_job 104 (js "ttps://github.com/o/r") None
           market_machine None empty_world).
  reflexivity.
Defined.

Example remote_test_run_example :
  fst (fst (runTests (Some repo_url) None market_machine None empty_world))
  = Ret {| passed := true; totalTests := 3; failedTests := 0; errors := [];
           output := js "3 passed" |}.
Proof. vm_compute. reflexivity. Qed.
(** ** The repository of a search hit *)

Lemma split_on_cons sep s : exists p ps, split_on sep s = p :: ps.
Proof.
  induction s as [|c s (p & ps & IH)]; cbn [split_on]; [eauto|].
  destruct (c =? sep); [eauto|]. rewrite IH. eauto.
Qed.

Lemma split_on_app sep a b :
  split_on sep (a ++ sep :: b) = split_on sep a ++ split_on sep b.
Proof.
  induction a as [|c a IH]; cbn [app split_on].
  - rewrite N.eqb_refl. reflexivity.
  - destruct (c =? sep); [rewrite IH; reflexivity|].
    rewrite IH. destruct (split_on_cons sep a) as (p & ps & ->). reflexivity.
Qed.

Lemma split_on_lacks sep s : lacks sep s = true -> split_on sep s = [s].
Proof.
  induction s as [|c s IH]; [reflexivity|]. cbn [lacks forallb split_on].
  intros H. apply andb_true_iff in H as [Hc Hs].
  destruct (c =? sep); [discriminate|]. rewrite (IH Hs). reflexivity.
Qed.

Lemma last_two_app {A} (l : list A) (a b : A) : last_two (l ++ [a; b]) = [a; b].
Proof.
  unfold last_two. rewrite length_app. cbn [length].
  replace (length l + 2 - 2)%nat with (length l) by lia. apply drop_app_length.
Qed.

(** X24: the [repository] of an issue found by [searchIssues] is made of
    the last two segments of its [repository_url]: owner, slash, name. *)
Theorem search_hit_names_owner_and_repository (item : json) (hit : IssueHit)
    (base o r : jstring) :
  lacks 47 o = true -> lacks 47 r = true ->
  prop "repository_url" item = JStr (base ++ js "/" ++ o ++ js "/" ++ r) ->
  issue_hit item = Ret hit ->
  ih_repository hit = o ++ js "/" ++ r.
Proof.
  intros Ho Hr Hurl. unfold issue_hit.
  destruct (prop_strict "title" item) as [title|]; [|discriminate]. cbn [obind].
  rewrite Hurl.
  assert (Hrepo : join (js "/") (last_two (split_on 47 (base ++ js "/" ++ o ++ js "/" ++ r)))
                  = o ++ js "/" ++ r).
  { change (js "/") with [47]. cbn [app].
    rewrite !split_on_app, (split_on_lacks 47 o Ho), (split_on_lacks 47 r Hr).
    change ([o] ++ [r]) with [o; r]. rewrite last_two_app. reflexivity. }
  rewrite Hrepo.
  destruct (match prop "body" item with
            | JUndefined | JNull => _ | JStr b => _ | _ => _ end) as [summary|];
    [|discriminate].
  cbn [obind]. intros H.
  assert (Hhit : o ++ js "/" ++ r = ih_repository hit) by (injection H as <-; reflexivity).
  symmetry. exact Hhit.
Qed.

Lemma search_hit_witness :
  (lacks 47 (js "octo") = true /\ lacks 47 (js "hub") = true
   /\ prop "repository_url"
        (JObj [(js "title", JStr (js "Crash"));
               (js "repository_url", JStr (js "https://api.github.com/repos/octo/hub"))])
      = JStr (js "https://api.github.com/repos" ++ js "/" ++ js "octo" ++ js "/" ++ js "hub")
   /\ issue_hit
        (JObj [(js "title", JStr (js "Crash"));
               (js "repository_url", JStr (js "https://api.github.com/repos/octo/hub"))])
      = Ret {| ih_title := JStr (js "Crash"); ih_url := JUndefined;
               ih_state := JUndefined; ih_repository := js "octo/hub";
               ih_summary := js "No description" |})
  /\ ih_repository {| ih_title := JStr (js "Crash"); ih_url := JUndefined;
                      ih_state := JUndefined; ih_repository := js "octo/hub";
                      ih_summary := js "No description" |}
     = js "octo" ++ js "/" ++ js "hub".
Proof.
  split; [repeat split; vm_compute; reflexivity|].
  apply (search_hit_names_owner_and_repository
           (JObj [(js "title", JStr (js "Crash"));
                  (js "repository_url", JStr (js "https://api.github.com/repos/octo/hub"))])
           _ (js "https://api.github.com/repos") (js "octo") (js "hub"));
    vm_compute; reflexivity.
Defined.
(** ** A search that fails *)

(** X25: a search that fails looks empty.  When no request of
    [searchIssues] is answered with a 2xx status, the result is the empty
    list with [totalFound = 0], not an error. *)
Theorem failed_search_looks_empty (query : jstring) (language : option jstring)
    (env : environment) (w : world) :
  (forall r, EFetch r ∈ new_calls w (snd (searchIssues query language env tt w)) ->
             answered_ok env r = false) ->
  fst (fst (searchIssues query language env tt w))
  = Ret {| found_issues := []; totalFound := JNum (js "0") |}.
Proof.
  unfold searchIssues. run_comp.
  destruct (encodeURIComponent _) as [encoded|]; [|reflexivity].
  unfold log_event, answered_ok. cbn [trace fs].
  set (req := GET (issue_search_url encoded) (gh_headers (process_env env "GITHUB_TOKEN"))).
  destruct (fetch_answer env req) as [resp|e] eqn:Hans; [|reflexivity].
  destruct (ok resp) eqn:Hok; [|reflexivity].
  intros H. specialize (H req). rewrite Hans, Hok in H.
  cbn [negb] in H. cbv beta iota in H.
  exfalso.
  unfold response_json in H.
  destruct (JSON_parse (body resp)) as [data|]; cbn in H;
    [destruct (issue_hits data); cbn in H|];
    (assert (true = false) by (apply H; unfold new_calls; cbn [trace];
                               rewrite drop_app_length; apply list_elem_of_here);
     discriminate).
Qed.

Lemma failed_search_witness :
  (forall r,
      EFetch r ∈ new_calls empty_world
                   (snd (searchIssues (js "crash") None (machine tokens []) tt empty_world)) ->
      answered_ok (machine tokens []) r = false)
  /\ fst (fst (searchIssues (js "crash") None (machine tokens []) tt empty_world))
     = Ret {| found_issues := []; totalFound := JNum (js "0") |}.
Proof.
  assert (H : forall r,
             EFetch r ∈ new_calls empty_world
                          (snd (searchIssues (js "crash") None (machine tokens []) tt
                                  empty_world)) ->
             answered_ok (machine tokens []) r = false)
    by (intros r _; reflexivity).
  split; [exact H|].
  apply (failed_search_looks_empty (js "crash") None (machine tokens []) empty_world H).
Defined.

(** ** Labels reported and labels applied *)

Lemma ends_with_throw {L A} (R : A -> event -> Prop) e :
  ends_with R (throw e : M L A).
Proof. intros env l w a H. discriminate H. Qed.

Lemma ends_with_bind {L A B} (R : B -> event -> Prop) (m : M L A) (k : A -> M L B) :
  emits (fun _ => True) m -> (forall a, ends_with R (k a)) ->
  ends_with R (bind m k).
Proof.
  intros Hm Hk env l w b. unfold bind.
  destruct (Hm env l w) as (evs & Ht & _).
  destruct (m env l w) as [[[a|e] l1] w1]; cbn [fst snd] in *; [|discriminate].
  intros Hb. destruct (Hk a env l1 w1 b Hb) as (evs' & e & Ht' & HR).
  exists (evs ++ evs'), e. rewrite Ht', Ht, <- !app_assoc. auto.
Qed.

Lemma applies_labels_request url headers (l : list jstring) :
  applies {| labels_success := true; labels := l |}
    (EFetch (POST url headers (labels_payload l))).
Proof. reflexivity. Qed.

Lemma generateAndApplyLabels_ends repoUrl n maxLabels :
  ends_with applies (generateAndApplyLabels repoUrl n maxLabels).
Proof.
  unfold generateAndApplyLabels.
  apply ends_with_bind; [apply emits_lift|intros ids]. cbv zeta.
  apply ends_with_bind; [apply emits_getenv|intros [[|c t]|]];
    try apply ends_with_throw.
  apply ends_with_bind; [apply emits_read_llm_config|intros cfg].
  apply ends_with_bind.
  { apply (emits_top (within_cap 0)), emits_fetch_pr_meta_safe. }
  intros prMeta.
  apply ends_with_bind.
  { apply (emits_top (within_cap 0)), emits_ask_openai_safe. }
  intros openaiJson.
  apply ends_with_bind; [apply emits_lift|intros labels].
  intros env l w r. run_comp. unfold log_event. cbn [trace fs].
  destruct (fetch_answer env _) as [resp|e]; [|discriminate].
  rewrite parseJsonSafe_run. cbv beta iota.
  destruct (negb (ok resp)); [discriminate|].
  intros Hr. assert (Hrl : r = {| labels_success := true; labels := labels |})
    by congruence.
  rewrite Hrl. eexists [], _. split; [reflexivity|]. apply applies_labels_request.
Qed.

(** X26: the labels that [generateAndApplyLabels] returns are exactly
    the labels carried by its last request. *)
Theorem labels_reported_are_labels_applied (repoUrl : jstring) (prNumber : N)
    (maxLabels : Z) (env : environment) (w : world) (result : LabelsResult) :
  fst (fst (generateAndApplyLabels repoUrl prNumber maxLabels env tt w)) = Ret result ->
  exists e,
    last (new_calls w (snd (generateAndApplyLabels repoUrl prNumber maxLabels env tt w)))
    = Some e
    /\ sent_labels e = Some (map JStr (labels result)).
Proof.
  intros Hret.
  destruct (generateAndApplyLabels_ends repoUrl prNumber maxLabels env tt w result Hret)
    as (evs & e & Ht & He).
  exists e. unfold new_calls. rewrite Ht, drop_app_length, last_snoc. auto.
Qed.

Lemma labels_reported_witness :
  fst (fst (generateAndApplyLabels repo_url 7 2 labels_machine tt empty_world))
  = Ret {| labels_success := true; labels := [js "bug"; js "docs"] |}
  /\ exists e,
       last (new_calls empty_world
               (snd (generateAndApplyLabels repo_url 7 2 labels_machine tt empty_world)))
       = Some e
       /\ sent_labels e
          = Some (map JStr (labels {| labels_success := true;
                                      labels := [js "bug"; js "docs"] |})).
Proof.
  split; [vm_compute; reflexivity|].
  apply (labels_reported_are_labels_applied repo_url 7 2 labels_machine empty_world).
  vm_compute. reflexivity.
Defined.

(** ** How many requests a read costs *)

Section AtMost.
Context {L : Type}.

Lemma at_most_silent {A} (m : M L A) n :
  (forall env l w, trace (snd (m env l w)) = trace w) -> at_most n m.
Proof.
  intros H env l w. exists []. rewrite app_nil_r. split; [apply H|cbn; lia].
Qed.

Lemma at_most_weaken {A} (m : M L A) a b :
  (a <= b)%nat -> at_most a m -> at_most b m.
Proof.
  intros Hab Hm env l w. destruct (Hm env l w) as (evs & Ht & Hlen).
  exists evs. split; [exact Ht|lia].
Qed.

Lemma at_most_bind {A B} (m : M L A) (k : A -> M L B) a b :
  at_most a m -> (forall x, at_most b (k x)) -> at_most (a + b) (bind m k).
Proof.
  intros Hm Hk env l w. unfold bind.
  destruct (Hm env l w) as (evs & Ht & Hlen).
  destruct (m env l w) as [[[x|e] l1] w1]; cbn [snd] in *.
  - destruct (Hk x env l1 w1) as (evs' & Ht' & Hlen').
    exists (evs ++ evs'). rewrite Ht', Ht, app_assoc, length_app.
    split; [reflexivity|lia].
  - exists evs. split; [exact Ht|lia].
Qed.

Lemma at_most_try_catch {A} (m : M L A) h a b :
  at_most a m -> (forall e, at_most b (h e)) -> at_most (a + b) (try_catch m h).
Proof.
  intros Hm Hh env l w. unfold try_catch.
  destruct (Hm env l w) as (evs & Ht & Hlen).
  destruct (m env l w) as [[[x|e] l1] w1]; cbn [snd] in *.
  - exists evs. split; [exact Ht|lia].
  - destruct (Hh e env l1 w1) as (evs' & Ht' & Hlen').
    exists (evs ++ evs'). rewrite Ht', Ht, app_assoc, length_app.
    split; [reflexivity|lia].
Qed.

Lemma at_most_fetch r : at_most 1 (fetch r : M L _).
Proof. intros env l w. exists [EFetch r]. split; [reflexivity|cbn; lia]. Qed.

Lemma at_most_ret {A} (a : A) : at_most 0 (ret a : M L A).
Proof. apply at_most_silent. reflexivity. Qed.

Lemma at_most_throw {A} e : at_most 0 (throw e : M L A).
Proof. apply at_most_silent. reflexivity. Qed.

Lemma at_most_parseJsonSafe r : at_most 0 (parseJsonSafe r : M L _).
Proof. apply at_most_silent. intros env l w. rewrite parseJsonSafe_run. reflexivity. Qed.

Lemma at_most_response_json r : at_most 0 (response_json r : M L _).
Proof.
  unfold response_json. destruct (JSON_parse _); [apply at_most_ret|apply at_most_throw].
Qed.
End AtMost.

Lemma at_most_getDefaultBranch repoName token :
  at_most 1 (getDefaultBranch repoName token).
Proof.
  unfold getDefaultBranch.
  apply (at_most_bind _ _ 1 0); [apply at_most_fetch|intros resp].
  destruct (negb (ok resp)); [apply at_most_ret|].
  apply (at_most_bind _ _ 0 0); [apply at_most_response_json|intros; apply at_most_ret].
Qed.

Lemma at_most_try_branch repoName filePath token b :
  at_most 1 (try_branch repoName filePath token b).
Proof.
  unfold try_branch.
  apply (at_most_bind _ _ 1 0); [apply at_most_fetch|intros response].
  apply (at_most_bind _ _ 0 0); [apply at_most_parseJsonSafe|intros payload].
  destruct (ok response); [|apply at_most_ret].
  destruct (negb (truthy payload)); [apply at_most_throw|].
  destruct (isArray payload); [apply at_most_throw|].
  destruct (prop "content" payload), (prop "size" payload), (prop "encoding" payload);
    try apply at_most_throw.
  apply (at_most_bind _ _ 0 0); [apply at_most_silent; reflexivity|].
  intros e. apply at_most_ret.
Qed.

Lemma at_most_try_branches repoName filePath token bs lastError :
  at_most (length bs) (try_branches repoName filePath token bs lastError).
Proof.
  revert lastError. induction bs as [|b bs IH]; intros lastError; cbn [try_branches length].
  - apply at_most_ret.
  - apply (at_most_bind _ _ 1 (length bs)).
    + apply (at_most_try_catch _ _ 1 0); [apply at_most_try_branch|].
      intros e. apply at_most_ret.
    + intros [file|e]; [|apply IH].
      eapply at_most_weaken; [|apply at_most_ret]. lia.
Qed.

Lemma branch_candidates_length branch def :
  (length (branch_candidates branch def) <= 2)%nat.
Proof.
  unfold branch_candidates. cbv zeta.
  destruct branch as [[|c b]|]; cbn [existsb orb negb andb app length];
    rewrite ?andb_true_r; destruct (truthy def); cbn [andb];
    try destruct (negb _); cbn; lia.
Qed.

Lemma at_most_explain_branch repoName filePath token branch bs :
  at_most 1 (explain_branch repoName filePath token branch bs).
Proof.
  unfold explain_branch. cbv zeta.
  apply (at_most_try_catch _ _ 1 0); [|intros; apply at_most_ret].
  apply (at_most_bind _ _ 1 0); [|intros ex; destruct (negb ex);
                                  [apply at_most_throw|apply at_most_ret]].
  unfold doesBranchExist.
  apply (at_most_bind _ _ 0 1); [apply at_most_silent; reflexivity|intros encoded].
  apply (at_most_bind _ _ 1 0); [apply at_most_fetch|intros; apply at_most_ret].
Qed.

(** X27: reading a file costs at most four requests: the default
    branch, two candidates, the diagnostic probe. *)
Theorem read_costs_at_most_four_requests (repoUrl filePath : jstring)
    (branch : option jstring) (env : environment) (w : world) :
  (length (new_calls w (snd (readFileFromRepo repoUrl filePath branch env tt w))) <= 4)%nat.
Proof.
  assert (H : at_most 4 (readFileFromRepo repoUrl filePath branch)).
  { unfold readFileFromRepo.
    apply (at_most_bind _ _ 0 4); [apply at_most_silent; reflexivity|intros ids].
    cbv zeta.
    apply (at_most_bind _ _ 0 4); [apply at_most_silent; reflexivity|].
    intros [[|c t]|]; try (eapply at_most_weaken; [|apply at_most_throw]; lia).
    apply (at_most_bind _ _ 1 3).
    { apply (at_most_try_catch _ _ 1 0); [apply at_most_getDefaultBranch|].
      intros e. apply at_most_ret. }
    intros def. apply (at_most_bind _ _ 2 1).
    { eapply at_most_weaken; [apply (branch_candidates_length branch def)|].
      apply at_most_try_branches. }
    intros [file|lastError]; [eapply at_most_weaken; [|apply at_most_ret]; lia|].
    apply (at_most_bind _ _ 1 0); [apply at_most_explain_branch|].
    intros u. apply at_most_throw. }
  destruct (H env tt w) as (evs & Ht & Hlen).
  unfold new_calls. rewrite Ht, drop_app_length. exact Hlen.
Qed.

Example read_can_cost_four_requests :
  length (new_calls empty_world
            (snd (readFileFromRepo repo_url (js "MISSING.md") on_dev trunk_machine tt
                    empty_world))) = 4%nat.
Proof. vm_compute. reflexivity. Qed.

(** ** Publishing without a token *)

Lemma read_llm_config_run env l w :
  read_llm_config env l w
  = match process_env env "OPENAI_API_KEY" with
    | Some (c :: k) =>
        (Ret {| ghToken := opt_str_or (process_env env "GITHUB_TOKEN") [];
                openaiKey := c :: k;
                openaiModel := opt_str_or (process_env env "OPENAI_MODEL_NAME")
                                 (js "gpt-4o-mini") |}, l, w)
    | _ => (Throw (Error (js "OPENAI_API_KEY not set")), l, w)
    end.
Proof.
  unfold read_llm_config. run_comp.
  destruct (process_env env "OPENAI_API_KEY") as [[|c k]|]; reflexivity.
Qed.

Lemma unset_token env :
  unset env "GITHUB_TOKEN" = true ->
  opt_str_or (process_env env "GITHUB_TOKEN") [] = [].
Proof.
  unfold unset, streq. intros H. apply bool_decide_eq_true in H. exact H.
Qed.

Lemma bind_ext {L A B} (m : M L A) (k1 k2 : A -> M L B) env l w :
  (forall a l' w', m env l w = (Ret a, l', w') -> k1 a env l' w' = k2 a env l' w') ->
  bind m k1 env l w = bind m k2 env l w.
Proof.
  intros H. unfold bind. destruct (m env l w) as [[[a|e] l'] w']; [|reflexivity].
  apply H. reflexivity.
Qed.

(** The configuration read where [GITHUB_TOKEN] is unset carries the
    empty token. *)
Lemma read_llm_config_tokenless env l w cfg l' w' :
  unset env "GITHUB_TOKEN" = true ->
  read_llm_config env l w = (Ret cfg, l', w') -> ghToken cfg = [].
Proof.
  intros Htok. apply unset_token in Htok. rewrite read_llm_config_run.
  destruct (process_env env "OPENAI_API_KEY") as [[|c k]|]; try discriminate.
  intros H. assert (Hcfg : cfg = _) by (symmetry; injection H as H _ _; exact H).
  rewrite Hcfg. exact Htok.
Qed.

Ltac tokenless f :=
  let Htok := fresh "Htok" in
  let Hcfg := fresh "Hcfg" in
  intros Htok; unfold f;
  apply bind_ext; intros ids ? ? _; cbv zeta;
  apply bind_ext; intros cfg ? ? Hcfg;
  apply (read_llm_config_tokenless _ _ _ _ _ _ Htok) in Hcfg;
  destruct cfg as [token key mdl]; cbn [ghToken] in Hcfg; subst token;
  reflexivity.

Lemma tokenless_review repoUrl n env w :
  unset env "GITHUB_TOKEN" = true ->
  aiReviewPullRequest repoUrl n true env tt w
  = aiReviewPullRequest repoUrl n false env tt w.
Proof. tokenless aiReviewPullRequest. Qed.

Lemma tokenless_improve repoUrl n env w :
  unset env "GITHUB_TOKEN" = true ->
  aiImprovePullRequest repoUrl n true env tt w
  = aiImprovePullRequest repoUrl n false env tt w.
Proof. tokenless aiImprovePullRequest. Qed.

Lemma tokenless_ask repoUrl n q env w :
  unset env "GITHUB_TOKEN" = true ->
  aiAskPullRequest repoUrl n q true env tt w
  = aiAskPullRequest repoUrl n q false env tt w.
Proof. tokenless aiAskPullRequest. Qed.

Lemma tokenless_changelog repoUrl n env w :
  unset env "GITHUB_TOKEN" = true ->
  aiDraftChangelog repoUrl n true env tt w
  = aiDraftChangelog repoUrl n false env tt w.
Proof. tokenless aiDraftChangelog. Qed.

Lemma tokenless_describe repoUrl n env w :
  unset env "GITHUB_TOKEN" = true ->
  aiDescribePullRequest repoUrl n true env tt w
  = aiDescribePullRequest repoUrl n false env tt w.
Proof. tokenless aiDescribePullRequest. Qed.

(** X28: without [GITHUB_TOKEN] nothing is published.  Whatever
    [publish] says, the LLM helpers then run as a dry run does: same
    error if any, same world, and no request other than [GET]s and the
    chat request. *)
Theorem nothing_is_published_without_token (op : remote_op) (publish : option bool)
    (repoUrl : jstring) (env : environment) (w : world) :
  publish_flag op = Some publish ->
  unset env "GITHUB_TOKEN" = true ->
  run_remote op repoUrl env w
  = run_remote (dry_run_of op) repoUrl env w
  /\ Forall changes_nothing (new_calls w (snd (run_remote op repoUrl env w))).
Proof.
  intros Hop Htok.
  destruct op; try discriminate Hop; injection Hop as ->;
    unfold dry_run_of, run_remote, aiReviewPRTool, aiImprovePRTool, aiAskPRTool,
      updateChangelogTool, aiDescribePRTool; cbn [snd is_true];
    destruct publish as [[]|]; cbn [is_true];
    rewrite ?tokenless_review, ?tokenless_improve, ?tokenless_ask,
      ?tokenless_changelog, ?tokenless_describe by exact Htok;
    (split; [reflexivity|apply emits_new_calls]);
    first [apply dry_review | apply dry_improve | apply dry_ask
          | apply dry_changelog | apply dry_describe].
Qed.

Lemma nothing_is_published_witness :
  (publish_flag (AiImprove 7 (Some true)) = Some (Some true)
   /\ unset (machine [("OPENAI_API_KEY"%string, js "sk-key")] (chat_answer "LGTM" :: pr_table))
        "GITHUB_TOKEN" = true)
  /\ run_remote (AiImprove 7 (Some true)) repo_url
       (machine [("OPENAI_API_KEY"%string, js "sk-key")] (chat_answer "LGTM" :: pr_table))
       empty_world
     = run_remote (dry_run_of (AiImprove 7 (Some true))) repo_url
         (machine [("OPENAI_API_KEY"%string, js "sk-key")] (chat_answer "LGTM" :: pr_table))
         empty_world
  /\ Forall changes_nothing
       (new_calls empty_world
          (snd (run_remote (AiImprove 7 (Some true)) repo_url
                  (machine [("OPENAI_API_KEY"%string, js "sk-key")]
                     (chat_answer "LGTM" :: pr_table))
                  empty_world))).
Proof.
  split; [split; reflexivity|].
  apply (nothing_is_published_without_token (AiImprove 7 (Some true)) (Some true)
           repo_url
           (machine [("OPENAI_API_KEY"%string, js "sk-key")] (chat_answer "LGTM" :: pr_table))
           empty_world); reflexivity.
Defined.

(** ** A directory that cannot be removed *)

Lemma bare_cleanup_raises {A} name url args (body : jstring -> M (option jstring) A)
    env w suffix e :
  (forall d, quiet (body d)) ->
  mkdtemp_answer env (os_tmpdir env ++ js "/" ++ js name) = Ret suffix ->
  rm_answer env ((os_tmpdir env ++ js "/" ++ js name) ++ suffix) = Some e ->
  thrown (try_finally (tmpDir <- acquire_workspace name url args ;; body tmpDir)
            release_workspace env None w) = Some e.
Proof.
  intros Hbody Hmk Hrm.
  destruct (tmp_dir_cons (os_tmpdir env) name suffix) as (c & t & Hd).
  unfold thrown, try_finally, bind. rewrite acquire_workspace_run. cbv zeta.
  rewrite Hmk, Hd. rewrite Hd in Hrm.
  destruct (clone_answer env url (c :: t) args).
  - rewrite release_workspace_run, Hrm. reflexivity.
  - match goal with |- context [body ?d ?env ?l ?w] =>
      destruct (Hbody d env l w) as (Hl & _); destruct (body d env l w) as [[o l'] w']
    end.
    cbn [fst snd] in Hl. subst l'.
    rewrite release_workspace_run, Hrm. reflexivity.
Qed.

(** X29: a directory that cannot be removed fails the operation.  In
    the dependency check, the formatter and the lint fixer, once the
    directory exists, an error of its removal is the error of the
    operation, whatever the clone and the commands did. *)
Theorem cleanup_failure_is_raised (op : workspace_op) (name : string)
    (suffix : jstring) (e : js_error) (env : environment) (w : world) :
  bare_cleanup op = Some name ->
  mkdtemp_answer env (os_tmpdir env ++ js "/" ++ js name) = Ret suffix ->
  rm_answer env ((os_tmpdir env ++ js "/" ++ js name) ++ suffix) = Some e ->
  failure_of op env w = Some e.
Proof.
  intros Hop Hmk Hrm.
  destruct op; try discriminate Hop;
    assert (Hname : name = _) by (symmetry; injection Hop as Hop; exact Hop);
    subst name; cbn [failure_of];
    unfold checkDependencies, formatCode, fixLintErrors;
    (apply (bare_cleanup_raises _ _ _ _ env w suffix e);
     [intros d|exact Hmk|exact Hrm]).
  - apply quiet_try_catch; [apply quiet_dependency_report|intros; apply quiet_ret].
  - repeat quiet_step.
  - repeat quiet_step.
Qed.

Lemma cleanup_failure_witness :
  (bare_cleanup (FormatCode repo_url) = Some "reposage-format-"%string
   /\ mkdtemp_answer busy_machine (os_tmpdir busy_machine ++ js "/" ++ js "reposage-format-")
      = Ret (js "a1B2c3")
   /\ rm_answer busy_machine
        ((os_tmpdir busy_machine ++ js "/" ++ js "reposage-format-") ++ js "a1B2c3")
      = Some resource_busy)
  /\ failure_of (FormatCode repo_url) busy_machine empty_world = Some resource_busy.
Proof.
  split; [repeat split; reflexivity|].
  apply (cleanup_failure_is_raised (FormatCode repo_url) "reposage-format-"
           (js "a1B2c3") resource_busy busy_machine empty_world); reflexivity.
Defined.

(** ** Dispatching a workflow *)

(** X30: dispatching a workflow succeeds exactly when the request is
    answered with a 2xx status, whatever the body, also an empty one. *)
Theorem dispatch_succeeds_iff_answered_ok (repoUrl workflowId : jstring)
    (branch : option jstring) (inputs : option (list (jstring * jstring)))
    (ids : GitHubRepoIdentifiers) (c : N) (t : jstring) (env : environment)
    (w : world) :
  extractRepoIdentifiers repoUrl = Ret ids ->
  process_env env "GITHUB_TOKEN" = Some (c :: t) ->
  let request :=
    dispatch_request (owner ids ++ js "/" ++ repo ids) (c :: t) workflowId branch inputs in
  fst (fst (triggerWorkflow repoUrl workflowId branch inputs env tt w))
  = Ret {| done_success := true; done_message := js "Workflow triggered successfully" |}
  <-> answered_ok env request = true.
Proof.
  intros Hids Htok. cbv zeta. unfold triggerWorkflow.
  rewrite (with_repo_token_run _ _ ids c t env w Hids Htok).
  unfold with_context, answered_ok. run_comp. unfold log_event. cbn [trace fs].
  destruct (fetch_answer env _) as [resp|e]; [|split; discriminate].
  rewrite parseJsonSafe_run. cbv beta iota.
  destruct (ok resp); cbn [negb]; split; try discriminate; reflexivity.
Qed.

Lemma dispatch_witness :
  (extractRepoIdentifiers repo_url = Ret {| owner := js "o"; repo := js "r" |}
   /\ process_env dispatch_machine "GITHUB_TOKEN" = Some (103 :: js "hp_token"))
  /\ (fst (fst (triggerWorkflow repo_url (js "ci.yml") None None dispatch_machine tt
                  empty_world))
      = Ret {| done_success := true;
               done_message := js "Workflow triggered successfully" |}
      <-> answered_ok dispatch_machine
            (dispatch_request (js "o" ++ js "/" ++ js "r") (103 :: js "hp_token")
               (js "ci.yml") None None) = true).
Proof.
  split; [split; reflexivity|].
  apply (dispatch_succeeds_iff_answered_ok repo_url (js "ci.yml") None None
           {| owner := js "o"; repo := js "r" |} 103 (js "hp_token") dispatch_machine
           empty_world); reflexivity.
Defined.

Example dispatch_example :
  fst (fst (triggerWorkflow repo_url (js "ci.yml") None None dispatch_machine tt
              empty_world))
  = Ret {| done_success := true; done_message := js "Workflow triggered successfully" |}.
Proof. vm_compute. reflexivity. Qed.
